(** * rasterio: buffer/band bridge and warp orchestration

    A shallow embedding of [rasterio/_warp.pyx] and of the band transfer
    functions ([io_band], [io_multi_band], [io_multi_mask]) together with
    the properties the specification states about them.

    The native GDAL layer is outside the repository.  Its answers are
    supplied by records of oracle functions, and the calls that matter are
    recorded in a trace, so that statements such as "no later channel is
    attempted" or "the warp is not executed" can be read off the final
    state.

    The C side of the band transfer functions is modelled as C has it:
    an [int] is bounded, a cast of a [float] goes through the nearest
    [float], and the value of a configuration option is a pointer into
    the option list.  The builtin [round] on floats is that of Python 3
    on doubles. *)

From Stdlib Require Import ZArith QArith Qpower Qround Qabs Lqa String Ascii List
  Lia DecimalString.
From stdpp Require Import base option list gmap strings.

Local Open Scope string_scope.
Local Open Scope Z_scope.
Local Open Scope list_scope.

(** ** Exceptions and outcomes *)

(** Classes of native errors that the error-capture scope turns into
    Python exceptions. *)
Inductive cple_class :=
| AppDefined
| NotSupported
| OtherCPLE (errno : Z).

Inductive exn :=
| ValueError (msg : string)
| IndexError (msg : string)
| KeyError (key : string)
| NotImplementedError (msg : string)
| DriverRegistrationError (msg : string)
| CRSError (msg : string)
| TypeError (msg : string)
| OverflowError (msg : string)
| ZeroDivisionError (msg : string)
| CPLError (cls : cple_class) (errmsg : string)
(* Not a Python exception: the point at which the behaviour of the
   compiled C code is undefined.  Nothing of the call runs after it.  It
   arises in the band transfer functions only, which have no handlers. *)
| UndefinedBehaviour (what : string).

Inductive outcome (A : Type) :=
| Return (a : A)
| Raise (e : exn).
Arguments Return {A} a.
Arguments Raise {A} e.

Definition raised {A} (o : outcome A) : bool :=
  match o with Return _ => false | Raise _ => true end.

(** A computation reads and writes a state of type [S] and ends either
    with a value or with an exception; the state reached when the
    exception is raised is kept, so effects that precede a [raise] stay
    visible. *)
Definition M (S A : Type) : Type := S -> outcome A * S.

Definition ret {S A} (a : A) : M S A := fun s => (Return a, s).

Definition bind {S A B} (m : M S A) (k : A -> M S B) : M S B :=
  fun s => match m s with
           | (Return a, s') => k a s'
           | (Raise e, s') => (Raise e, s')
           end.

Definition raise {S A} (e : exn) : M S A := fun s => (Raise e, s).

Definition get {S} : M S S := fun s => (Return s, s).
Definition modify {S} (f : S -> S) : M S unit := fun s => (Return tt, f s).

(** [try: m finally: fin] *)
Definition try_finally {S A} (m : M S A) (fin : M S unit) : M S A :=
  fun s => match m s with
           | (r, s') => match fin s' with
                        | (Return _, s'') => (r, s'')
                        | (Raise e, s'') => (Raise e, s'')
                        end
           end.

(** [try: m except: h e] where the handler receives the exception. *)
Definition try_except {S A} (m : M S A) (h : exn -> M S A) : M S A :=
  fun s => match m s with
           | (Return a, s') => (Return a, s')
           | (Raise e, s') => h e s'
           end.

#[global] Instance M_ret {S} : MRet (M S) := @ret S.
#[global] Instance M_bind {S} : MBind (M S) := fun A B k m => bind m k.

(** A native error report captured by the error scope. *)
Definition report : Type := option (cple_class * string).

(** [cple.check()]: raises the captured report, if any. *)
Definition check {S} (r : report) : M S unit :=
  match r with
  | Some (cls, msg) => raise (CPLError cls msg)
  | None => ret tt
  end.

(** Lifting of an oracle's answer. *)
Definition answer {S A} (o : outcome A) : M S A := fun s => (o, s).

(** ** Strings *)

(** [str.upper()] on ASCII text: the letters a-z are mapped to A-Z and
    every other character is kept. *)
Definition upper_ascii (c : ascii) : ascii :=
  let n := nat_of_ascii c in
  if ((97 <=? n)%nat && (n <=? 122)%nat)%bool
  then ascii_of_nat (n - 32) else c.

Fixpoint upper (s : string) : string :=
  match s with
  | EmptyString => EmptyString
  | String c s' => String (upper_ascii c) (upper s')
  end.

(** [needle in haystack] for strings. *)
Fixpoint contains (needle haystack : string) : bool :=
  if String.prefix needle haystack then true
  else match haystack with
       | EmptyString => false
       | String _ rest => contains needle rest
       end.

(** ** Element types *)

(** The element types named by the typedefs of the declaration file. *)
Inductive dtype :=
| uint8 | uint16 | int16 | uint32 | int32 | float32 | float64.

(** ** Arrays *)

(** What the code reads from a numpy array: shape, byte strides, element
    type, the address of the first element ([0] is [NULL]) and, for a
    masked array only, the [fill_value] attribute.  Pixel contents are
    moved by the native layer and are not part of the model. *)
Record ndarray := {
  shape : list Z;
  strides : list Z;
  dtype_of : dtype;
  PyArray_DATA : Z;
  fill_value : option Z
}.

(** [t[i]] on a tuple of integers. *)
Definition item {S} (t : list Z) (i : nat) : M S Z :=
  match t !! i with
  | Some v => ret v
  | None => raise (IndexError "tuple index out of range")
  end.

(** [data[i]] for [0 <= i]: the view on the [i]-th slice along the
    first axis. *)
Definition slice_of (data : ndarray) (i : Z) : outcome ndarray :=
  match shape data, strides data with
  | n :: sh, st :: sts =>
      if (0 <=? i) && (i <? n)
      then Return {| shape := sh; strides := sts;
                     dtype_of := dtype_of data;
                     PyArray_DATA := PyArray_DATA data + i * st;
                     fill_value := fill_value data |}
      else Raise (IndexError "index out of bounds")
  | _, _ => Raise (IndexError "too many indices for array")
  end.

Definition getitem {S} (data : ndarray) (i : Z) : M S ndarray :=
  answer (slice_of data i).

(** ** Machine numbers *)

(** The nearest integer, ties to the even one. *)
Definition rne (q : Q) : Z :=
  let q := Qred q in
  let n := Qnum q in
  let d := Z.pos (Qden q) in
  let fl := n / d in
  let r := n mod d in
  if 2 * r <? d then fl
  else if d <? 2 * r then fl + 1
  else if Z.even fl then fl else fl + 1.

Definition pow2 (e : Z) : Q := (2 ^ e)%Q.

(** The integer [e] with [2^e <= a < 2^(e+1)], for [0 < a]. *)
Definition ilog2 (a : Q) : Z :=
  let a := Qred a in
  let e := Z.log2 (Qnum a) - Z.log2 (Z.pos (Qden a)) in
  if Qle_bool (pow2 e) a then e else e - 1.

(** The binary floating-point number nearest to the magnitude [a], ties
    to the even significand, in a format with [prec] significant bits
    whose least normal exponent is [emin].  There is no largest
    exponent here: a format reads a result of [2^(emax+1)] or more as
    infinity. *)
Definition round_binary (prec emin : Z) (a : Q) : Q :=
  let e := Z.max (ilog2 a) emin in
  let s := e - (prec - 1) in
  Qred (inject_Z (rne (a / pow2 s)) * pow2 s).

(** The C types [float] and [double]. *)
Definition binary32 (a : Q) : Q := round_binary 24 (-126) a.
Definition binary64 (a : Q) : Q := round_binary 53 (-1022) a.

(** The range of the C type [int]. *)
Definition in_int (z : Z) : bool := (- 2 ^ 31 <=? z) && (z <? 2 ^ 31).

(** A Python integer assigned to a [cdef int]. *)
Definition as_int {S} (z : Z) : M S Z :=
  if in_int z then ret z
  else raise (OverflowError "value too large to convert to int").

(** A C [long] assigned to an [int]: the value is reduced modulo
    [2^32]. *)
Definition wrap_int (z : Z) : Z := (z + 2 ^ 31) mod 2 ^ 32 - 2 ^ 31.

(** [<int>x] for a parameter declared [float] that receives the number
    [x]: the number is first rounded to the nearest [float]; the cast
    drops the fraction, and is undefined when the [float] is infinite or
    its integral part is outside the range of [int]. *)
Definition c_int (x : Q) : option Z :=
  let a := binary32 (Qabs x) in
  let t := Qfloor a in
  let t := if Qle_bool 0 x then t else - t in
  if Qle_bool (pow2 128) a then None
  else if in_int t then Some t else None.

Definition cast_int {S} (x : Q) : M S Z :=
  match c_int x with
  | Some z => ret z
  | None =>
      raise (UndefinedBehaviour "conversion of a float out of the range of int")
  end.

(** ** Band transfer functions *)

Module Shim.

(** The transfer calls made to the native layer, with their arguments in
    the order of the C prototypes. *)
Inductive native_call :=
| RasterIO (band mode xoff yoff xsize ysize buf bufxsize bufysize
            buftype pixelspace linespace : Z)
| DatasetRasterIO (hds mode xoff yoff xsize ysize buf bufxsize bufysize
                   buftype count : Z) (bandmap : list Z)
                  (pixelspace linespace bandspace : Z).

(** Answers of the native layer, and the two tables of the modules
    outside [src/].  Handles are addresses with [0] for [NULL]; [status]
    is the [CPLErr] a transfer call reports; [dtype_rev] is the table
    [dtypes.dtype_rev] from element types to native type codes;
    [Resampling_name n] is [Resampling(n).name], with [None] when the
    enumeration has no member of value [n]. *)
Record gdal := {
  GDALGetRasterBand : Z -> Z -> Z;
  GDALGetMaskBand : Z -> Z;
  status : native_call -> Z;
  dtype_rev : dtype -> Z;
  Resampling_name : Z -> option string
}.

(** What becomes of an exception that leaves a [cdef int] function
    declared without an [except] clause, as the three transfer
    functions are: Cython before version 3 prints it and makes the
    function return 0; Cython 3 propagates it. *)
Inductive cdef_errors := Printed | Propagated.

(** The process: the value strings that the option list of the native
    layer has allocated, by address, with [None] for one that has been
    freed; the address of the value of each option that is set; the
    transfer calls made so far, oldest first; and the exceptions that
    were printed because they could not propagate. *)
Record world := {
  memory : list (option string);
  options : gmap string nat;
  calls : list native_call;
  unraisable : list exn
}.

(** The configuration options, by value. *)
Definition config (w : world) : gmap string string :=
  omap (fun p => mjoin (memory w !! p)) (options w).

(** A [char *]: [NULL], the buffer of a Python [bytes] object that is
    alive during the call, or an address inside the option list. *)
Inductive char_p :=
| NULL
| Bytes (s : string)
| Stored (p : nat).

(** [CPLGetConfigOption(key, NULL)]: a pointer to the value inside the
    option list, not a copy. *)
Definition CPLGetConfigOption (key : string) : M world char_p :=
  fun w => (Return match options w !! key with
                   | Some p => Stored p
                   | None => NULL
                   end, w).

(** Reading the string behind a pointer. *)
Definition read (v : char_p) : M world (option string) :=
  match v with
  | NULL => ret None
  | Bytes s => ret (Some s)
  | Stored p =>
      fun w => match memory w !! p with
               | Some (Some s) => (Return (Some s), w)
               | _ => (Raise (UndefinedBehaviour "read of freed memory"), w)
               end
  end.

(** [CPLSetConfigOption(key, val)]: the entry of [key], if there is one,
    is freed, which invalidates every pointer obtained for it; then the
    value is copied into a new entry, or the option is left unset when
    [val] is [NULL]. *)
Definition CPLSetConfigOption (key : string) (val : char_p)
  : M world unit :=
  modify (fun w =>
    match options w !! key with
    | Some p =>
        {| memory := <[p := None]> (memory w);
           options := delete key (options w);
           calls := calls w; unraisable := unraisable w |}
    | None => w
    end);;
  s ← read val;
  match s with
  | Some s =>
      modify (fun w =>
        {| memory := memory w ++ [Some s];
           options := <[key := length (memory w)]> (options w);
           calls := calls w; unraisable := unraisable w |})
  | None => ret tt
  end.

(** [CPLFree(p)]: nothing for [NULL]; the pointers of this model are
    never the caller's to free. *)
Definition CPLFree (p : char_p) : M world unit :=
  match p with
  | NULL => ret tt
  | _ => raise (UndefinedBehaviour "free of memory that is not the caller's")
  end.

Definition transfer (g : gdal) (c : native_call) : M world Z :=
  fun w => (Return (status g c),
            {| memory := memory w; options := options w;
               calls := calls w ++ [c]; unraisable := unraisable w |}).

Definition option_name : string := "GDAL_RASTERIO_RESAMPLING".

Definition print_unraisable (es : list exn) (w : world) : world :=
  {| memory := memory w; options := options w;
     calls := calls w; unraisable := unraisable w ++ es |}.

(** A function declared [cdef int f(...)] with the body [body]. *)
Definition cdef_int (cy : cdef_errors) (body : M world Z) : M world Z :=
  fun w =>
    match body w with
    | (Raise (UndefinedBehaviour what), w') =>
        (Raise (UndefinedBehaviour what), w')
    | (Raise e, w') =>
        match cy with
        | Propagated => (Raise e, w')
        | Printed => (Return 0, print_unraisable [e] w')
        end
    | (Return r, w') => (Return r, w')
    end.

Section Transfers.
Variable g : gdal.
Variable cy : cdef_errors.

(** [Resampling(n).name]: [ValueError] when [n] is not a member. *)
Definition Resampling_of (n : Z) : M world string :=
  match Resampling_name g n with
  | Some name => ret name
  | None => raise (ValueError "not a valid Resampling")
  end.

Definition io_band (band mode : Z) (x0 y0 width height : Q)
    (data : ndarray) (resampling : Z) : M world Z :=
  cdef_int cy (
    let buf := PyArray_DATA data in
    bufxsize ← item (shape data) 1 ≫= as_int;
    bufysize ← item (shape data) 0 ≫= as_int;
    buftype ← as_int (dtype_rev g (dtype_of data));
    bufpixelspace ← item (strides data) 1 ≫= as_int;
    buflinespace ← item (strides data) 0 ≫= as_int;
    xoff ← cast_int x0;
    yoff ← cast_int y0;
    xsize ← cast_int width;
    ysize ← cast_int height;
    stored_val ← CPLGetConfigOption option_name;
    name ← Resampling_of resampling;
    let val := upper name in
    CPLSetConfigOption option_name (Bytes val);;
    retval ← transfer g (RasterIO band mode xoff yoff xsize ysize buf
                           bufxsize bufysize buftype bufpixelspace
                           buflinespace);
    CPLSetConfigOption option_name stored_val;;
    CPLFree stored_val;;
    mret retval).

(** [len(indexes)] assigned to an [int]. *)
Definition count_of (indexes : list Z) : Z :=
  wrap_int (Z.of_nat (length indexes)).

Definition io_multi_band (hds mode : Z) (x0 y0 width height : Q)
    (data : ndarray) (indexes : list Z) (resampling : Z) : M world Z :=
  cdef_int cy (
    let buf := PyArray_DATA data in
    bufxsize ← item (shape data) 2 ≫= as_int;
    bufysize ← item (shape data) 1 ≫= as_int;
    buftype ← as_int (dtype_rev g (dtype_of data));
    bufpixelspace ← item (strides data) 2 ≫= as_int;
    buflinespace ← item (strides data) 1 ≫= as_int;
    bufbandspace ← item (strides data) 0 ≫= as_int;
    let count := count_of indexes in
    xoff ← cast_int x0;
    yoff ← cast_int y0;
    xsize ← cast_int width;
    ysize ← cast_int height;
    stored_val ← CPLGetConfigOption option_name;
    name ← Resampling_of resampling;
    let val := upper name in
    CPLSetConfigOption option_name (Bytes val);;
    (* [bandmap[i] = indexes[i]] for [i] in [range(count)] *)
    let bandmap := wrap_int <$> take (Z.to_nat count) indexes in
    retval ← transfer g (DatasetRasterIO hds mode xoff yoff xsize ysize buf
                           bufxsize bufysize buftype count bandmap
                           bufpixelspace buflinespace bufbandspace);
    CPLSetConfigOption option_name stored_val;;
    CPLFree stored_val;;
    mret retval).

(** The body of [for i in range(count)] in [io_multi_mask], from
    iteration [i] on: [rest] holds the indexes still to visit and
    [retval] the status of the previous transfer.  [break] ends the
    loop with the status at hand. *)
Fixpoint mask_loop (hds mode xoff yoff xsize ysize : Z) (data : ndarray)
    (bufxsize bufysize bufpixelspace buflinespace : Z)
    (i : Z) (rest : list Z) (retval : Z) : M world Z :=
  match rest with
  | [] => mret retval
  | index :: rest' =>
      let j := wrap_int index in
      let band := GDALGetRasterBand g hds j in
      if band =? 0 then raise (ValueError "Null band") else
      let hmask := GDALGetMaskBand g band in
      if hmask =? 0 then raise (ValueError "Null mask band") else
      slice ← getitem data i;
      let buf := PyArray_DATA slice in
      if buf =? 0 then raise (ValueError "NULL data") else
      retval ← transfer g (RasterIO hmask mode xoff yoff xsize ysize buf
                             bufxsize bufysize 1 bufpixelspace
                             buflinespace);
      if retval =? 0
      then mask_loop hds mode xoff yoff xsize ysize data bufxsize bufysize
                     bufpixelspace buflinespace (i + 1) rest' retval
      else mret retval
  end.

Definition io_multi_mask (hds mode : Z) (x0 y0 width height : Q)
    (data : ndarray) (indexes : list Z) (resampling : Z) : M world Z :=
  cdef_int cy (
    let retval := 3 in
    bufxsize ← item (shape data) 2 ≫= as_int;
    bufysize ← item (shape data) 1 ≫= as_int;
    buftype ← as_int (dtype_rev g (dtype_of data));
    bufpixelspace ← item (strides data) 2 ≫= as_int;
    buflinespace ← item (strides data) 1 ≫= as_int;
    let count := count_of indexes in
    xoff ← cast_int x0;
    yoff ← cast_int y0;
    xsize ← cast_int width;
    ysize ← cast_int height;
    stored_val ← CPLGetConfigOption option_name;
    name ← Resampling_of resampling;
    let val := upper name in
    CPLSetConfigOption option_name (Bytes val);;
    retval ← mask_loop hds mode xoff yoff xsize ysize data bufxsize
               bufysize bufpixelspace buflinespace 0
               (take (Z.to_nat count) indexes) retval;
    CPLSetConfigOption option_name stored_val;;
    CPLFree stored_val;;
    mret retval).

(** The transfer that iteration [i] of [io_multi_mask] makes for the
    index [index], when the band, its mask band and the buffer slice all
    resolve. *)
Definition mask_transfer (hds mode xoff yoff xsize ysize : Z)
    (data : ndarray) (bufxsize bufysize bufpixelspace buflinespace : Z)
    (i index : Z) : option native_call :=
  let band := GDALGetRasterBand g hds (wrap_int index) in
  let hmask := GDALGetMaskBand g band in
  match slice_of data i with
  | Return slice =>
      if (band =? 0) || (hmask =? 0) || (PyArray_DATA slice =? 0)
      then None
      else Some (RasterIO hmask mode xoff yoff xsize ysize
                          (PyArray_DATA slice) bufxsize bufysize 1
                          bufpixelspace buflinespace)
  | Raise _ => None
  end.

(** The transfers made for the indexes [pre], placed from position [i]
    on, when every one of them resolves and reports status 0. *)
Fixpoint clean_prefix (hds mode xoff yoff xsize ysize : Z)
    (data : ndarray) (bufxsize bufysize bufpixelspace buflinespace : Z)
    (i : Z) (pre : list Z) : option (list native_call) :=
  match pre with
  | [] => Some []
  | j :: pre' =>
      match mask_transfer hds mode xoff yoff xsize ysize data bufxsize
                          bufysize bufpixelspace buflinespace i j with
      | Some c =>
          if status g c =? 0
          then cons c <$> clean_prefix hds mode xoff yoff xsize ysize data
                            bufxsize bufysize bufpixelspace buflinespace
                            (i + 1) pre'
          else None
      | None => None
      end
  end.

End Transfers.

(** [delete_nodata_value] of this build, declared [except 3]: always
    unsupported. *)
Definition delete_nodata_value (hBand : Z) : M world Z :=
  raise (NotImplementedError
           "GDAL versions < 2.1 do not support nodata deletion").

End Shim.

(** ** Warping and reprojection *)

Module Warp.

(** *** Option lists and keyword arguments *)

(** Values a keyword argument may carry, and [str(val)]. *)
Inductive pyvalue :=
| PStr (s : string)
| PInt (z : Z)
| PBool (b : bool).

Definition str_int (z : Z) : string := NilZero.string_of_int (Z.to_int z).

Definition str (v : pyvalue) : string :=
  match v with
  | PStr s => s
  | PInt z => str_int z
  | PBool true => "True"
  | PBool false => "False"
  end.

(** A native string list of [NAME=VALUE] entries; [NULL] is the empty
    list. *)
Definition csl : Type := list (string * string).

(** GDAL's [CSLSetNameValue]: the entry whose name matches (letter case
    ignored) is replaced where it stands, otherwise the entry is added at
    the end.  The new list is the function's result: the caller's
    variable changes only if the result is assigned to it. *)
Fixpoint CSLSetNameValue (l : csl) (name value : string) : csl :=
  match l with
  | [] => [(name, value)]
  | (n, v) :: rest =>
      if String.eqb (upper n) (upper name) then (name, value) :: rest
      else (n, v) :: CSLSetNameValue rest name value
  end.

Definition CSLFetchNameValue (l : csl) (name : string) : option string :=
  snd <$> List.find (fun e => String.eqb (upper (fst e)) (upper name)) l.

(** [for key, val in kwargs.items()] of [_reproject]: every keyword is
    copied into the list with key and value in upper case. *)
Definition copy_kwargs (kwargs : list (string * pyvalue)) (l : csl) : csl :=
  fold_left (fun acc kv => CSLSetNameValue acc (upper (fst kv))
                             (upper (str (snd kv))))
            kwargs l.

(** *** Coordinates and rounding *)

(** The builtin [round(n, ndigits)] on an integer: the integer itself for
    [0 <= ndigits], else the nearest multiple of [10 ^ -ndigits], ties to
    the even multiple. *)
Definition round_int (n ndigits : Z) : Z :=
  if 0 <=? ndigits then n
  else
    let m := 10 ^ (- ndigits) in
    let q := n / m in
    let r := n mod m in
    if 2 * r <? m then q * m
    else if m <? 2 * r then (q + 1) * m
    else if Z.even q then q * m else (q + 1) * m.

(** The value of an outcome under [f]; an exception stays. *)
Definition outcome_map {A B} (f : A -> B) (o : outcome A) : outcome B :=
  match o with
  | Return a => Return (f a)
  | Raise e => Raise e
  end.

(** The values of a list of outcomes, or the first exception. *)
Fixpoint in_order {A} (l : list (outcome A)) : outcome (list A) :=
  match l with
  | [] => Return []
  | Return a :: rest => outcome_map (cons a) (in_order rest)
  | Raise e :: _ => Raise e
  end.

Section Rounding.

(** The builtin [round] on floats is a parameter of [recursive_round];
    [float_round] below is the builtin on Python's floats. *)
Context {float : Type}.
Variable round_float : float -> Z -> outcome float.

Inductive num :=
| PyInt (z : Z)
| PyFloat (x : float).

Definition round (val : num) (precision : Z) : outcome num :=
  match val with
  | PyInt z => Return (PyInt (round_int z precision))
  | PyFloat x => outcome_map PyFloat (round_float x precision)
  end.

(** Coordinates as the geometry builder returns them: a number, or a
    sequence of coordinates. *)
#[local] Unset Elimination Schemes.
Inductive coord :=
| Num (x : num)
| Seq (parts : list coord).
#[local] Set Elimination Schemes.

Fixpoint recursive_round (val : coord) (precision : Z) : outcome coord :=
  match val with
  | Num x => outcome_map Num (round x precision)
  | Seq parts =>
      outcome_map Seq
        (in_order (map (fun part => recursive_round part precision) parts))
  end.

(** The nesting structure of coordinates, numbers erased. *)
#[local] Unset Elimination Schemes.
Inductive skeleton :=
| Leaf
| Node (parts : list skeleton).
#[local] Set Elimination Schemes.

Fixpoint skeleton_of (val : coord) : skeleton :=
  match val with
  | Num _ => Leaf
  | Seq parts => Node (map skeleton_of parts)
  end.

(** The number found in [val] by following the indices of [path]. *)
Fixpoint component (val : coord) (path : list nat) : option num :=
  match val, path with
  | Num x, [] => Some x
  | Seq parts, i :: path' =>
      match nth_error parts i with
      | Some part => component part path'
      | None => None
      end
  | _, _ => None
  end.

(** The floats that occur in coordinates. *)
Fixpoint floats_of (val : coord) : list float :=
  match val with
  | Num (PyInt _) => []
  | Num (PyFloat x) => [x]
  | Seq parts => flat_map floats_of parts
  end.

(** A GeoJSON-like mapping as the geometry builder returns it: the
    [type] member and the [coordinates] member, which a geometry
    collection does not have. *)
Record geometry := {
  geom_type : string;
  coordinates : option coord
}.

End Rounding.

Arguments num : clear implicits.
Arguments coord : clear implicits.
Arguments geometry : clear implicits.

(** *** The builtin [round] on floats *)

Definition ten (p : Z) : Q := (inject_Z 10 ^ p)%Q.

(** The multiple of [10 ^ -ndigits] nearest to [a], ties to the even
    multiple. *)
Definition to_decimal (a : Q) (ndigits : Z) : Q :=
  (inject_Z (rne (a * ten ndigits)) / ten ndigits)%Q.

(** A Python float: a double, as sign and magnitude, so that [-0.0] is
    told from [0.0]. *)
Inductive pyfloat :=
| Finite (negative : bool) (magnitude : Q)
| Infinite (negative : bool)
| NaN.

(** The largest finite double. *)
Definition max_float : Q := inject_Z ((2 ^ 53 - 1) * 2 ^ 971).

(** [round(x, ndigits)] on a float: the double nearest to the decimal
    rounding of [x], with the sign of [x], and [OverflowError] when that
    is beyond the largest double; an infinity or a NaN is returned as it
    is. *)
Definition float_round (x : pyfloat) (ndigits : Z) : outcome pyfloat :=
  match x with
  | Finite negative a =>
      let r := binary64 (to_decimal a ndigits) in
      if Qle_bool (pow2 1024) r
      then Raise (OverflowError "rounded value too large to represent")
      else Return (Finite negative r)
  | _ => Return x
  end.

(** The magnitude of a finite float is that of a double. *)
Definition is_double (x : pyfloat) : bool :=
  match x with
  | Finite _ a =>
      Qle_bool 0 a && Qeq_bool (binary64 a) a && Qle_bool a max_float
  | _ => true
  end.

(** The float that the decimal notation [n * 10 ^ -p] denotes. *)
Definition decimal_literal (n : Z) (p : Z) : pyfloat :=
  Finite (n <? 0) (binary64 (inject_Z (Z.abs n) / ten p)).

(** *** The native layer seen from the warp functions *)

(** A ground control point as the caller gives it; [z] may be [None]. *)
Record gcp := {
  gcp_row : Q; gcp_col : Q; gcp_x : Q; gcp_y : Q; gcp_z : option Q
}.

(** The entries of the native GCP array. *)
Record GDAL_GCP := {
  pszId : string;
  dfGCPPixel : Q; dfGCPLine : Q; dfGCPX : Q; dfGCPY : Q; dfGCPZ : Q
}.

(** A transformer handle: [NULL], the exact image-to-image projection
    transformer, or an approximate transformer around another one. *)
Inductive transformer :=
| NullTransformer
| GenImgProjTransformer (src_dataset dst_dataset : Z) (options : csl)
| ApproxTransformer (base : transformer) (tolerance : Q) (owns : bool).

(** [GDALApproxTransformerOwnsSubtransformer(h, flag)] *)
Definition GDALApproxTransformerOwnsSubtransformer
    (h : transformer) (flag : Z) : transformer :=
  match h with
  | ApproxTransformer base tol _ =>
      ApproxTransformer base tol (negb (flag =? 0))
  | _ => h
  end.

(** The fields of [GDALWarpOptions] that [_reproject] sets; [None] is a
    [NULL] array. *)
Record GDALWarpOptions := {
  papszWarpOptions : csl;
  eResampleAlg : Z;
  padfSrcNoDataReal : option (list Z);
  padfSrcNoDataImag : option (list Z);
  padfDstNoDataReal : option (list Z);
  padfDstNoDataImag : option (list Z);
  pfnTransformer : option string;
  pTransformerArg : transformer;
  hSrcDS : Z;
  hDstDS : Z;
  nBandCount : Z;
  panSrcBands : list Z;
  panDstBands : list Z
}.

Inductive side := TempSource | TempDestination.

(** Native calls with a lasting effect, in the order they are made.
    Debug logging is recorded for [_calculate_default_transform] only. *)
Inductive event :=
| Create (which : side) (cols rows count gdal_type : Z)
| SetGeoTransform (hds : Z) (gt : list Q)
| SetProjection (hds : Z) (wkt : string)
| SetGCPs (hds : Z) (gcplist : list GDAL_GCP)
| IoAuto (hds : Z) (write : Z) (status : Z)
| CreateGenImgProjTransformer2 (src_dataset dst_dataset : Z) (options : csl)
| CreateApproxTransformer (tolerance : Q)
| ApproxOwnsSubtransformer (flag : Z)
| CreateWarpOptions
| DestroyApproxTransformer (h : transformer)
| DestroyWarpOptions (psWOptions : option GDALWarpOptions)
| FreeImgProjOptions
| WarperInitialize (options : GDALWarpOptions)
| ChunkAndWarpImage (xoff yoff cols rows : Z)
| ChunkAndWarpMulti (xoff yoff cols rows : Z)
| Close (hds : Z)
| Release (what : string)
| LogDebug (msg : string).

Definition emit (e : event) : M (list event) unit :=
  modify (fun t => t ++ [e]).

Definition is_warp (e : event) : bool :=
  match e with
  | ChunkAndWarpImage _ _ _ _ | ChunkAndWarpMulti _ _ _ _ => true
  | _ => false
  end.

(** Whether a trace shows an execution of the warp. *)
Definition warp_executed (t : list event) : bool := existsb is_warp t.

(** Answers of the native layer and of the helpers outside [src/].
    Nodata values are modelled by integers. *)
Record gdal := {
  (* the table [dtypes.dtype_rev] of native type codes *)
  dtype_rev : dtype -> Z;
  (* [in_dtype_range(value, dtype)] of the I/O module *)
  in_dtype_range : Z -> dtype -> bool;
  (* the status [io_auto(image, hds, write)] returns *)
  io_auto : Z -> Z -> Z;
  (* report captured while the MEM driver is looked up *)
  GetDriverByName_MEM : side -> report;
  (* handle of the new dataset and the report captured *)
  GDALCreate : side -> Z -> Z -> Z -> Z -> Z * report;
  GDALSetGeoTransform : Z -> list Q -> Z;
  GDALSetProjection : Z -> string -> Z;
  osr_from_crs : string -> outcome Z;
  OSRExportToWkt : Z -> string;
  (* report captured while the transformer chain is built *)
  transformer_report : Z -> Z -> csl -> report;
  warp_options_report : report;
  default_warp_options : csl;
  Initialize_report : GDALWarpOptions -> report;
  ChunkAndWarp_report : report
}.

(** *** Arguments of [_reproject] *)

(** A dataset object: [handle()] and the [nodata] attribute. *)
Record dataset := {
  handle : Z;
  nodata : option Z
}.

Inductive band_index :=
| OneIndex (i : Z)
| Indexes (l : list Z).

(** A [Band]: the named tuple [(ds, bidx, dtype, shape)]. *)
Record Band := {
  ds : dataset;
  bidx : band_index;
  band_dtype : dtype;
  band_shape : Z * Z
}.

Inductive raster :=
| Array (a : ndarray)
| BandOf (b : Band)
| OtherObject.

(** [x.dtype] for either kind of raster. *)
Definition raster_dtype (r : raster) : dtype :=
  match r with
  | Array a => dtype_of a
  | BandOf b => band_dtype b
  | OtherObject => uint8
  end.

(** [a.reshape(1, *a.shape)] *)
Definition reshape1 (a : ndarray) : ndarray :=
  {| shape := 1 :: shape a;
     strides := match shape a, strides a with
                | n :: _, st :: _ => n * st :: strides a
                | _, _ => strides a
                end;
     dtype_of := dtype_of a;
     PyArray_DATA := PyArray_DATA a;
     fill_value := fill_value a |}.

(** [range(1, n + 1)] *)
Definition range1 (n : Z) : list Z := map Z.of_nat (seq 1 (Z.to_nat n)).

(** [l[i]] *)
Definition index {S A} (l : list A) (i : nat) : M S A :=
  match l !! i with
  | Some v => ret v
  | None => raise (IndexError "list index out of range")
  end.

(** [[f(i) for i in range(n)]] *)
Fixpoint for_range {St A} (f : nat -> M St A) (start n : nat)
  : M St (list A) :=
  match n with
  | O => ret []
  | S n' => x ← f start; xs ← for_range f (S start) n'; mret (x :: xs)
  end.

Record arguments := {
  source : raster;
  destination : raster;
  src_transform : option (list Q);
  gcps : list gcp;
  src_crs : string;
  src_nodata : option Z;
  dst_transform : option (list Q);
  dst_crs : string;
  dst_nodata : option Z;
  resampling : Z;
  init_dest_nodata : bool;
  num_threads : Z;
  kwargs : list (string * pyvalue)
}.

(** The nodata value a raster carries by itself: the fill value of a
    masked array, the stored nodata of a band's dataset. *)
Definition inherited_nodata (r : raster) : option Z :=
  match r with
  | Array a => fill_value a
  | BandOf b => nodata (ds b)
  | OtherObject => None
  end.

(** The nodata value that can be resolved for one side: the one given,
    else the inherited one. *)
Definition resolvable_nodata (given : option Z) (r : raster) : option Z :=
  match given with
  | Some v => Some v
  | None => inherited_nodata r
  end.

(** The option structures a trace shows handed to the warper. *)
Definition initialized_with (t : list event) : list GDALWarpOptions :=
  omap (fun e => match e with
                 | WarperInitialize o => Some o
                 | _ => None
                 end) t.

(** The option lists a trace shows passed to the construction of the
    exact transformer. *)
Definition projection_options (t : list event) : list csl :=
  omap (fun e => match e with
                 | CreateGenImgProjTransformer2 _ _ options => Some options
                 | _ => None
                 end) t.

(** *** [_reproject] *)

(** The local variables of [_reproject] once both sides are resolved
    and the transformer and the warp options exist. *)
Record locals := {
  l_source : raster;
  l_destination : raster;
  src_count : Z;
  src_bidx : list Z;
  dst_bidx : list Z;
  src_dataset : Z;
  dst_dataset : Z;
  l_src_nodata : option Z;
  l_dst_nodata : option Z;
  hTransformArg : transformer;
  imgProjOptions : csl;
  warp_extras : csl;
  psWOptions : GDALWarpOptions
}.

Definition tolerance : Q := 1 # 8.

Definition mem_driver_message : string :=
  "'MEM' driver not found. Check that this call is contained in a `with rasterio.Env()` or `with rasterio.open()` block.".

(** The entry written for the [i]-th control point; [obj.z or 0.0]
    gives the height. *)
Definition gcp_entry (i : nat) (obj : gcp) : GDAL_GCP :=
  {| pszId := str_int (Z.of_nat i);
     dfGCPPixel := gcp_col obj; dfGCPLine := gcp_row obj;
     dfGCPX := gcp_x obj; dfGCPY := gcp_y obj;
     dfGCPZ := match gcp_z obj with Some z => z | None => 0%Q end |}.

(** What [GDALCreateWarpOptions] returns, given the default option
    list of the native layer. *)
Definition new_warp_options (defaults : csl) : GDALWarpOptions :=
  {| papszWarpOptions := defaults;
     eResampleAlg := 0;
     padfSrcNoDataReal := None; padfSrcNoDataImag := None;
     padfDstNoDataReal := None; padfDstNoDataImag := None;
     pfnTransformer := None; pTransformerArg := NullTransformer;
     hSrcDS := 0; hDstDS := 0; nBandCount := 0;
     panSrcBands := []; panDstBands := [] |}.

(** Assignments to the fields of the options structure. *)
Definition set_papszWarpOptions (v : csl) (o : GDALWarpOptions) :=
  {| papszWarpOptions := v;
     eResampleAlg := eResampleAlg o;
     padfSrcNoDataReal := padfSrcNoDataReal o;
     padfSrcNoDataImag := padfSrcNoDataImag o;
     padfDstNoDataReal := padfDstNoDataReal o;
     padfDstNoDataImag := padfDstNoDataImag o;
     pfnTransformer := pfnTransformer o;
     pTransformerArg := pTransformerArg o;
     hSrcDS := hSrcDS o; hDstDS := hDstDS o; nBandCount := nBandCount o;
     panSrcBands := panSrcBands o; panDstBands := panDstBands o |}.

Definition set_eResampleAlg (v : Z) (o : GDALWarpOptions) :=
  {| papszWarpOptions := papszWarpOptions o;
     eResampleAlg := v;
     padfSrcNoDataReal := padfSrcNoDataReal o;
     padfSrcNoDataImag := padfSrcNoDataImag o;
     padfDstNoDataReal := padfDstNoDataReal o;
     padfDstNoDataImag := padfDstNoDataImag o;
     pfnTransformer := pfnTransformer o;
     pTransformerArg := pTransformerArg o;
     hSrcDS := hSrcDS o; hDstDS := hDstDS o; nBandCount := nBandCount o;
     panSrcBands := panSrcBands o; panDstBands := panDstBands o |}.

Definition set_padfSrcNoData (re im : list Z) (o : GDALWarpOptions) :=
  {| papszWarpOptions := papszWarpOptions o;
     eResampleAlg := eResampleAlg o;
     padfSrcNoDataReal := Some re;
     padfSrcNoDataImag := Some im;
     padfDstNoDataReal := padfDstNoDataReal o;
     padfDstNoDataImag := padfDstNoDataImag o;
     pfnTransformer := pfnTransformer o;
     pTransformerArg := pTransformerArg o;
     hSrcDS := hSrcDS o; hDstDS := hDstDS o; nBandCount := nBandCount o;
     panSrcBands := panSrcBands o; panDstBands := panDstBands o |}.

Definition set_padfDstNoData (re im : list Z) (o : GDALWarpOptions) :=
  {| papszWarpOptions := papszWarpOptions o;
     eResampleAlg := eResampleAlg o;
     padfSrcNoDataReal := padfSrcNoDataReal o;
     padfSrcNoDataImag := padfSrcNoDataImag o;
     padfDstNoDataReal := Some re;
     padfDstNoDataImag := Some im;
     pfnTransformer := pfnTransformer o;
     pTransformerArg := pTransformerArg o;
     hSrcDS := hSrcDS o; hDstDS := hDstDS o; nBandCount := nBandCount o;
     panSrcBands := panSrcBands o; panDstBands := panDstBands o |}.

(** The assignments that follow the nodata arrays: option list,
    transformer, datasets and band maps. *)
Definition set_warp_fields (extras : csl) (h : transformer)
    (src_dataset dst_dataset src_count : Z) (bands : list (Z * Z))
    (o : GDALWarpOptions) :=
  {| papszWarpOptions := extras;
     eResampleAlg := eResampleAlg o;
     padfSrcNoDataReal := padfSrcNoDataReal o;
     padfSrcNoDataImag := padfSrcNoDataImag o;
     padfDstNoDataReal := padfDstNoDataReal o;
     padfDstNoDataImag := padfDstNoDataImag o;
     pfnTransformer := Some "GDALApproxTransform";
     pTransformerArg := h;
     hSrcDS := src_dataset; hDstDS := dst_dataset;
     nBandCount := src_count;
     panSrcBands := bands.*1; panDstBands := bands.*2 |}.

Section Reproject.
Variable g : gdal.

(** Looking up the MEM driver: any failure becomes a
    [DriverRegistrationError]. *)
Definition get_mem_driver (which : side) : M (list event) unit :=
  try_except (check (GetDriverByName_MEM g which))
             (fun _ => raise (DriverRegistrationError mem_driver_message)).

(** The source: an array is copied to a temporary dataset, a band is
    used as it is. *)
Definition open_source (a : arguments)
  : M (list event) (raster * Z * list Z * Z * option Z) :=
  match source a with
  | Array src =>
      let src := if (length (shape src) =? 2)%nat then reshape1 src
                 else src in
      src_count ← item (shape src) 0;
      let src_bidx := range1 src_count in
      rows ← item (shape src) 1;
      cols ← item (shape src) 2;
      let dtype := dtype_of src in
      let src_nodata := match src_nodata a, fill_value src with
                        | None, Some fill => Some fill
                        | given, _ => given
                        end in
      get_mem_driver TempSource;;
      let '(src_dataset, captured) :=
        GDALCreate g TempSource cols rows src_count (dtype_rev g dtype) in
      emit (Create TempSource cols rows src_count (dtype_rev g dtype));;
      check captured;;
      match src_transform a, gcps a with
      | Some ((_ :: _) as t), _ =>
          gt ← for_range (index t) 0 6;
          emit (SetGeoTransform src_dataset gt);;
          try_finally
            (osr ← answer (osr_from_crs g (src_crs a));
             emit (SetProjection src_dataset (OSRExportToWkt g osr)))
            (emit (Release "srcwkt");; emit (Release "osr"))
      | _, _ :: _ =>
          try_finally
            (emit (SetGCPs src_dataset (imap gcp_entry (gcps a))))
            (emit (Release "gcplist");; emit (Release "srcwkt"))
      | _, [] => ret tt
      end;;
      (* TODO of the source: handle errors (by retval) *)
      let retval := io_auto g src_dataset 1 in
      emit (IoAuto src_dataset 1 retval);;
      mret (Array src, src_count, src_bidx, src_dataset, src_nodata)
  | BandOf b =>
      let rdr := ds b in
      let src_bidx := match bidx b with
                      | OneIndex i => [i]
                      | Indexes l => l
                      end in
      let src_count := Z.of_nat (length src_bidx) in
      let src_dataset := handle rdr in
      let src_nodata := match src_nodata a with
                        | None => nodata rdr
                        | given => given
                        end in
      mret (BandOf b, src_count, src_bidx, src_dataset, src_nodata)
  | OtherObject => raise (ValueError "Invalid source")
  end.

(** The destination, resolved the same way. *)
Definition open_destination (a : arguments) (src_count : Z)
    (src_bidx : list Z)
  : M (list event) (raster * list Z * Z * option Z) :=
  match destination a with
  | Array dst =>
      let dst := if (length (shape dst) =? 2)%nat then reshape1 dst
                 else dst in
      count ← item (shape dst) 0;
      if negb (count =? src_count)
      then raise (ValueError "Destination's shape is invalid") else
      let dst_bidx := src_bidx in
      get_mem_driver TempDestination;;
      match shape dst with
      | [_; rows; cols] =>
          let '(dst_dataset, captured) :=
            GDALCreate g TempDestination cols rows src_count
                       (dtype_rev g (dtype_of dst)) in
          emit (Create TempDestination cols rows src_count
                       (dtype_rev g (dtype_of dst)));;
          check captured;;
          gt ← match dst_transform a with
               | Some t => for_range (index t) 0 6
               | None =>
                   raise (TypeError "'NoneType' object is not subscriptable")
               end;
          emit (SetGeoTransform dst_dataset gt);;
          (if negb (GDALSetGeoTransform g dst_dataset gt =? 0)
           then raise (ValueError
                  "Failed to set transform on temp destination dataset.")
           else ret tt);;
          try_finally
            (osr ← answer (osr_from_crs g (dst_crs a));
             let dstwkt := OSRExportToWkt g osr in
             emit (SetProjection dst_dataset dstwkt);;
             if negb (GDALSetProjection g dst_dataset dstwkt =? 0)
             then raise (TypeError
                    "exceptions must derive from BaseException")
             else ret tt)
            (emit (Release "osr");; emit (Release "dstwkt"));;
          let retval := io_auto g dst_dataset 1 in
          emit (IoAuto dst_dataset 1 retval);;
          let dst_nodata := match dst_nodata a, fill_value dst with
                            | None, Some fill => Some fill
                            | given, _ => given
                            end in
          mret (Array dst, dst_bidx, dst_dataset, dst_nodata)
      | _ => raise (ValueError "wrong number of values to unpack")
      end
  | BandOf b =>
      let dst_bidx := match bidx b with
                      | OneIndex i => [i]
                      | Indexes l => l
                      end in
      let udr := ds b in
      let dst_dataset := handle udr in
      let dst_nodata := match dst_nodata a with
                        | None => nodata udr
                        | given => given
                        end in
      mret (BandOf b, dst_bidx, dst_dataset, dst_nodata)
  | OtherObject => raise (ValueError "Invalid destination")
  end.

(** The three releases made on every exit once the transformer
    exists. *)
Definition release_all (h : transformer) (o : option GDALWarpOptions)
  : M (list event) unit :=
  emit (DestroyApproxTransformer h);;
  emit (DestroyWarpOptions o);;
  emit FreeImgProjOptions.

(** The transformer chain and the warp options. *)
Definition create_transformer (a : arguments) (src_dataset dst_dataset : Z)
  : M (list event) (transformer * csl * GDALWarpOptions) :=
  let imgProjOptions : csl := [] in
  (* the list returned by this call is not assigned *)
  let _ := CSLSetNameValue imgProjOptions "GCPS_OK" "TRUE" in
  let imgProjOptions := copy_kwargs (kwargs a) imgProjOptions in
  let hTransformArg :=
    GenImgProjTransformer src_dataset dst_dataset imgProjOptions in
  let hTransformArg := ApproxTransformer hTransformArg tolerance false in
  let hTransformArg :=
    GDALApproxTransformerOwnsSubtransformer hTransformArg 1 in
  try_except
    (emit (CreateGenImgProjTransformer2 src_dataset dst_dataset
                                       imgProjOptions);;
     emit (CreateApproxTransformer tolerance);;
     emit (ApproxOwnsSubtransformer 1);;
     check (transformer_report g src_dataset dst_dataset imgProjOptions))
    (fun e => release_all hTransformArg None;; raise e);;
  let psWOptions := new_warp_options (default_warp_options g) in
  try_except
    (emit CreateWarpOptions;;
     check (warp_options_report g))
    (fun e => release_all hTransformArg (Some psWOptions);; raise e);;
  mret (hTransformArg, imgProjOptions, psWOptions).

(** Everything [_reproject] does before it looks at the nodata
    values. *)
Definition prepare (a : arguments) : M (list event) locals :=
  '(source, src_count, src_bidx, src_dataset, src_nodata) ← open_source a;
  '(destination, dst_bidx, dst_dataset, dst_nodata) ←
     open_destination a src_count src_bidx;
  '(hTransformArg, imgProjOptions, psWOptions) ←
     create_transformer a src_dataset dst_dataset;
  let warp_extras := papszWarpOptions psWOptions in
  let warp_extras :=
    CSLSetNameValue warp_extras "NUM_THREADS" (str_int (num_threads a)) in
  let warp_extras := copy_kwargs (kwargs a) warp_extras in
  let psWOptions := set_eResampleAlg (resampling a) psWOptions in
  mret {| l_source := source; l_destination := destination;
          src_count := src_count; src_bidx := src_bidx;
          dst_bidx := dst_bidx; src_dataset := src_dataset;
          dst_dataset := dst_dataset; l_src_nodata := src_nodata;
          l_dst_nodata := dst_nodata; hTransformArg := hTransformArg;
          imgProjOptions := imgProjOptions; warp_extras := warp_extras;
          psWOptions := psWOptions |}.

(** "Set src_nodata and dst_nodata": a destination value without a
    source value is refused; a missing destination value takes the source
    value, or 0. *)
Definition resolve_nodata (src_nodata dst_nodata : option Z)
  : outcome (option Z * Z) :=
  match src_nodata, dst_nodata with
  | None, Some _ =>
      Raise (ValueError
        "src_nodata must be provided because dst_nodata is not None")
  | _, Some given => Return (src_nodata, given)
  | Some v, None => Return (src_nodata, v)
  | None, None => Return (src_nodata, 0)
  end.

(** [destination.shape[-2:]] *)
Definition last_two {S} (r : raster) : M S (Z * Z) :=
  match r with
  | Array d =>
      match rev (shape d) with
      | cols :: rows :: _ => ret (rows, cols)
      | _ => raise (ValueError "not enough values to unpack")
      end
  | BandOf b => ret (band_shape b)
  | OtherObject => raise (ValueError "Invalid destination")
  end.

Definition close_if_array (r : raster) (hds : Z) : M (list event) unit :=
  match r with
  | Array _ => if negb (hds =? 0) then emit (Close hds) else ret tt
  | _ => ret tt
  end.

(** "Validate nodata values": the nodata arrays of the options, or the
    refusal of a value outside the element type's range. *)
Definition apply_nodata (a : arguments) (l : locals)
  : M (list event) (GDALWarpOptions * csl) :=
  let h := hTransformArg l in
  let n := Z.to_nat (src_count l) in
  match resolve_nodata (l_src_nodata l) (l_dst_nodata l) with
  | Raise e =>
      release_all h
        (Some (set_papszWarpOptions (warp_extras l) (psWOptions l)));;
      raise e
  | Return (src_nodata, dst_nodata) =>
      '(psWOptions, warp_extras) ←
        match src_nodata with
        | Some v =>
            if negb (in_dtype_range g v (raster_dtype (l_source l)))
            then
              release_all h
                (Some (set_papszWarpOptions (warp_extras l)
                                            (psWOptions l)));;
              raise (ValueError
                "src_nodata must be in valid range for source dtype")
            else
              mret (set_padfSrcNoData (replicate n v) (replicate n 0)
                                      (psWOptions l),
                    CSLSetNameValue (warp_extras l)
                                    "UNIFIED_SRC_NODATA" "YES")
        | None => mret (psWOptions l, warp_extras l)
        end;
      if negb (in_dtype_range g dst_nodata
                 (raster_dtype (l_destination l)))
      then
        release_all h
          (Some (set_papszWarpOptions warp_extras psWOptions));;
        raise (ValueError
          "dst_nodata must be in valid range for destination dtype")
      else
        mret (set_padfDstNoData (replicate n dst_nodata) (replicate n 0)
                                psWOptions,
              warp_extras)
  end.

(** The remaining options, the warp itself, and the releases. *)
Definition run_warp (a : arguments) (l : locals)
    (psWOptions : GDALWarpOptions) (warp_extras : csl)
  : M (list event) unit :=
  let h := hTransformArg l in
  let n := Z.to_nat (src_count l) in
  let warp_extras :=
    if init_dest_nodata a
    then CSLSetNameValue warp_extras "INIT_DEST" "NO_DATA"
    else warp_extras in
  bands ← for_range (fun i => s ← index (src_bidx l) i;
                              d ← index (dst_bidx l) i;
                              mret (s, d)) 0 n;
  let psWOptions :=
    set_warp_fields warp_extras h (src_dataset l) (dst_dataset l)
                    (src_count l) bands psWOptions in
  try_finally
    (emit (WarperInitialize psWOptions);;
     check (Initialize_report g psWOptions);;
     '(rows, cols) ← last_two (l_destination l);
     (if 1 <? num_threads a
      then emit (ChunkAndWarpMulti 0 0 cols rows)
      else emit (ChunkAndWarpImage 0 0 cols rows));;
     check (ChunkAndWarp_report g);;
     match l_destination l with
     | Array _ =>
         (* TODO of the source: handle errors (by retval) *)
         let retval := io_auto g (dst_dataset l) 0 in
         emit (IoAuto (dst_dataset l) 0 retval);;
         close_if_array (l_destination l) (dst_dataset l)
     | _ => ret tt
     end)
    (release_all h (Some psWOptions);;
     close_if_array (l_source l) (src_dataset l)).

Definition _reproject (a : arguments) : M (list event) unit :=
  l ← prepare a;
  '(psWOptions, warp_extras) ← apply_nodata a l;
  run_warp a l psWOptions warp_extras.

End Reproject.

(** *** [_transform_geom] *)

Section TransformGeom.
Context {float : Type}.
Variable round_float : float -> Z -> outcome float.

(** Answers of the native geometry layer and of the geometry builders,
    which are outside [src/]. *)
Record ogr := {
  ogr_osr_from_crs : string -> outcome Z;
  OCTNewCoordinateTransformation : Z -> Z -> Z;
  OGRGeomBuilder_build : geometry float -> outcome Z;
  (* the transformed geometry and the report captured *)
  transformWithOptions : Z -> Z -> csl -> Z * report;
  GeomBuilder_build : Z -> outcome (geometry float)
}.

Variable o : ogr.

(** [antimeridian_offset] stands for the text [str(antimeridian_offset)]. *)
Definition _transform_geom (src_crs dst_crs : string)
    (geom : geometry float) (antimeridian_cutting : bool)
    (antimeridian_offset : string) (precision : Z)
  : M (list event) (geometry float) :=
  src ← answer (ogr_osr_from_crs o src_crs);
  dst ← answer (ogr_osr_from_crs o dst_crs);
  (* no check is made inside this error scope *)
  transform ← try_except
    (mret (OCTNewCoordinateTransformation o src dst))
    (fun e => emit (Release "src");; emit (Release "dst");; raise e);
  let options : csl := [] in
  let options :=
    CSLSetNameValue options "DATELINEOFFSET" antimeridian_offset in
  let options :=
    if antimeridian_cutting
    then CSLSetNameValue options "WRAPDATELINE" "YES"
    else options in
  try_finally
    (src_geom ← answer (OGRGeomBuilder_build o geom);
     let '(dst_geom, captured) :=
       transformWithOptions o src_geom transform options in
     check captured;;
     result ← answer (GeomBuilder_build o dst_geom);
     if 0 <=? precision
     then
       match coordinates result with
       | Some c =>
           rounded ← answer (recursive_round round_float c precision);
           mret {| geom_type := geom_type result;
                   coordinates := Some rounded |}
       | None => raise (KeyError "coordinates")
       end
     else mret result)
    (emit (Release "factory");;
     emit (Release "dst_geom");;
     emit (Release "src_geom");;
     emit (Release "transform");;
     emit (Release "options");;
     emit (Release "src");;
     emit (Release "dst")).

End TransformGeom.

(** *** [_calculate_default_transform] *)

(** [Affine(a, b, c, d, e, f)] of the affine package. *)
Record Affine := {
  aff_a : Q; aff_b : Q; aff_c : Q; aff_d : Q; aff_e : Q; aff_f : Q
}.

(** The C array [double geotransform[6]]. *)
Definition double6 : Type := Q * Q * Q * Q * Q * Q.

(** [Affine.from_gdal(c, a, b, f, d, e)] applied to the six entries of a
    geotransform. *)
Definition Affine_from_gdal (gt : double6) : Affine :=
  let '(c, a, b, f, d, e) := gt in
  {| aff_a := a; aff_b := b; aff_c := c;
     aff_d := d; aff_e := e; aff_f := f |}.

(** Answers of the native layer and of the helpers outside [src/]. *)
Record suggester := {
  sg_osr_from_crs : string -> outcome Z;
  sg_OSRExportToWkt : Z -> string;
  (* [from_bounds(...).to_gdal()], which divides by the width and by the
     height *)
  from_bounds_to_gdal : Q -> Q -> Q -> Q -> Z -> Z -> outcome (list Q);
  (* entering [InMemoryRaster(...)]: the dataset handle *)
  InMemoryRaster : Z -> Z -> option (list Q) -> list gcp -> string
                   -> outcome Z;
  (* transformer handle, [0] for [NULL], and the report captured *)
  GDALCreateGenImgProjTransformer : Z -> string -> Z * report;
  (* geotransform, pixels and lines written, and the report captured *)
  GDALSuggestedWarpOutput2 : Z -> Z -> (double6 * Z * Z) * report
}.

(** The C variables of [_calculate_default_transform] that native calls
    write to, next to the trace. *)
Record frame := {
  fr_trace : list event;
  fr_hTransformArg : Z;
  fr_geotransform : double6;
  fr_npixels : Z;
  fr_nlines : Z
}.

Definition new_frame (t : list event) : frame :=
  {| fr_trace := t; fr_hTransformArg := 0;
     fr_geotransform := (0, 0, 0, 0, 0, 0)%Q;
     fr_npixels := 0; fr_nlines := 0 |}.

Definition note (e : event) : M frame unit :=
  modify (fun fr =>
    {| fr_trace := fr_trace fr ++ [e];
       fr_hTransformArg := fr_hTransformArg fr;
       fr_geotransform := fr_geotransform fr;
       fr_npixels := fr_npixels fr; fr_nlines := fr_nlines fr |}).

Definition set_hTransformArg (h : Z) : M frame unit :=
  modify (fun fr =>
    {| fr_trace := fr_trace fr;
       fr_hTransformArg := h;
       fr_geotransform := fr_geotransform fr;
       fr_npixels := fr_npixels fr; fr_nlines := fr_nlines fr |}).

Definition set_outputs (out : double6 * Z * Z) : M frame unit :=
  modify (fun fr =>
    {| fr_trace := fr_trace fr;
       fr_hTransformArg := fr_hTransformArg fr;
       fr_geotransform := out.1.1;
       fr_npixels := out.1.2; fr_nlines := out.2 |}).

Section DefaultTransform.
Variable sg : suggester.

(** The geotransform that seeds the scratch raster: from the bounds
    when all four are given, none when none is given. *)
Definition seed_transform (width height : Z)
    (left bottom right top : option Q) : outcome (option (list Q)) :=
  match left, bottom, right, top with
  | Some l, Some b, Some r, Some t =>
      match from_bounds_to_gdal sg l b r t width height with
      | Return gt => Return (Some gt)
      | Raise e => Raise e
      end
  | None, None, None, None => Return None
  | _, _, _, _ =>
      Raise (ValueError
        "Some, but not all, bounding box parameters were provided.")
  end.

Definition _calculate_default_transform (src_crs dst_crs : string)
    (width height : Z) (left bottom right top : option Q)
    (gcps : list gcp) : M frame (Affine * Z * Z) :=
  transform ← answer (seed_transform width height left bottom right top);
  (if (height <? 0) || (width <? 0)
   then raise (ValueError "negative dimensions are not allowed")
   else ret tt);;
  osr ← answer (sg_osr_from_crs sg dst_crs);
  let wkt := sg_OSRExportToWkt sg osr in
  note (Release "osr");;
  temp ← answer (InMemoryRaster sg width height transform gcps src_crs);
  try_finally
    (try_finally
       (try_except
          (let '(h, captured) :=
             GDALCreateGenImgProjTransformer sg temp wkt in
           set_hTransformArg h;;
           check captured;;
           let '(out, captured) := GDALSuggestedWarpOutput2 sg temp h in
           set_outputs out;;
           check captured;;
           note (LogDebug "Created transformer and warp output."))
          (fun err =>
             match err with
             | CPLError NotSupported errmsg => raise (CRSError errmsg)
             | CPLError AppDefined errmsg =>
                 if contains "Reprojection failed" errmsg
                 then note (LogDebug
                        "Encountered points outside of valid dst crs region")
                 else raise err
             | _ => raise err
             end))
       (note (Release "wkt");;
        fr ← get;
        if negb (fr_hTransformArg fr =? 0)
        then note (Release "hTransformArg") else ret tt))
    (note (Release "InMemoryRaster"));;
  fr ← get;
  let dst_affine := Affine_from_gdal (fr_geotransform fr) in
  let dst_width := fr_npixels fr in
  let dst_height := fr_nlines fr in
  mret (dst_affine, dst_width, dst_height).

End DefaultTransform.

End Warp.

(** ** Reasoning predicates and sample inputs *)

(** [returns m Q]: whenever [m] ends with a value, the value satisfies
    [Q]. *)
Definition returns {S A} (m : M S A) (Q : A -> Prop) : Prop :=
  forall s a s', m s = (Return a, s') -> Q a.

(** [emits_only P m]: [m] only adds events to the trace, and every event
    it adds satisfies [P]. *)
Definition emits_only {A} (P : Warp.event -> Prop)
    (m : M (list Warp.event) A) : Prop :=
  forall t, exists evs, (m t).2 = t ++ evs /\ Forall P evs.

Definition not_warp (e : Warp.event) : Prop := Warp.is_warp e = false.

(** Every options structure handed to the warper satisfies [Q]. *)
Definition initialized_as (Q : Warp.GDALWarpOptions -> Prop)
    (e : Warp.event) : Prop :=
  match e with
  | Warp.WarperInitialize o => Q o
  | _ => True
  end.

(** Every construction of the exact transformer received [options]. *)
Definition built_from (options : Warp.csl) (e : Warp.event) : Prop :=
  match e with
  | Warp.CreateGenImgProjTransformer2 _ _ o => o = options
  | _ => True
  end.

Definition missing_src_message : string :=
  "src_nodata must be provided because dst_nodata is not None".
Definition src_range_message : string :=
  "src_nodata must be in valid range for source dtype".
Definition dst_range_message : string :=
  "dst_nodata must be in valid range for destination dtype".
Definition points_outside_message : string :=
  "Encountered points outside of valid dst crs region".

(** The entry [i] of a shape or of the strides, when it fits an [int]. *)
Definition read_int (t : list Z) (i : nat) : option Z :=
  match t !! i with
  | Some v => if in_int v then Some v else None
  | None => None
  end.

(** The window of a transfer, when each of the four casts is defined. *)
Definition window (x0 y0 width height : Q) : option (Z * Z * Z * Z) :=
  match c_int x0, c_int y0, c_int width, c_int height with
  | Some xoff, Some yoff, Some xsize, Some ysize =>
      Some (xoff, yoff, xsize, ysize)
  | _, _, _, _ => None
  end.

(** A Python exception, as opposed to the mark of undefined behaviour. *)
Definition is_exception (e : exn) : bool :=
  match e with UndefinedBehaviour _ => false | _ => true end.

(** The outcome of a [cdef int] function whose body raised [e]. *)
Definition unraised (cy : Shim.cdef_errors) (e : exn) : outcome Z :=
  match cy with Shim.Propagated => Raise e | Shim.Printed => Return 0 end.

(** What it has printed. *)
Definition printed (cy : Shim.cdef_errors) (e : exn) : list exn :=
  match cy with Shim.Propagated => [] | Shim.Printed => [e] end.

(** The pointer that [CPLGetConfigOption] hands out for the resampling
    option. *)
Definition stored_pointer (w : Shim.world) : Shim.char_p :=
  match Shim.options w !! Shim.option_name with
  | Some p => Shim.Stored p
  | None => Shim.NULL
  end.

(** The lines that end each of the three transfer functions: the option
    is overridden, [m] runs, and the option is put back from the pointer
    saved before, which is then freed. *)
Definition scoped (stored : Shim.char_p) (val : string) (m : M Shim.world Z)
  : M Shim.world Z :=
  Shim.CPLSetConfigOption Shim.option_name (Shim.Bytes val);;
  retval ← m;
  Shim.CPLSetConfigOption Shim.option_name stored;;
  Shim.CPLFree stored;;
  mret retval.

(** [m] leaves the memory, the options and the printed exceptions
    alone and only adds transfer calls. *)
Definition only_transfers (m : M Shim.world Z) : Prop :=
  forall w, Shim.memory (m w).2 = Shim.memory w /\
            Shim.options (m w).2 = Shim.options w /\
            Shim.unraisable (m w).2 = Shim.unraisable w.

(** What stops a transfer function before it overrides the option: a
    Python exception, or a cast that is undefined. *)
Definition prelude_error (e : exn) : Prop :=
  is_exception e = true \/
  e = UndefinedBehaviour "conversion of a float out of the range of int".

Definition raised_exception {A} (o : outcome A) : bool :=
  match o with Raise e => is_exception e | Return _ => false end.

(** The exponent of the spacing of the floating-point numbers around
    [a]. *)
Definition grid (prec emin : Z) (a : Q) : Z :=
  Z.max (ilog2 a) emin - (prec - 1).

(** From the specification's words, "rounded to [p] decimal digits":
    an integer is kept; a finite float becomes the double nearest to a
    multiple of [10 ^ -p] that is within half of [10 ^ -p] of it, and
    keeps its sign; an infinity or a NaN is kept. *)
Definition rounded_to (p : Z) (x y : Warp.num Warp.pyfloat) : Prop :=
  match x, y with
  | Warp.PyInt n, Warp.PyInt m => m = n
  | Warp.PyFloat (Warp.Finite s a), Warp.PyFloat (Warp.Finite s' b) =>
      s' = s /\
      exists k : Z,
        (Qabs (a - inject_Z k / Warp.ten p) <= (1 # 2) / Warp.ten p)%Q /\
        b = binary64 (inject_Z k / Warp.ten p)
  | Warp.PyFloat (Warp.Infinite s), Warp.PyFloat (Warp.Infinite s') => s' = s
  | Warp.PyFloat Warp.NaN, Warp.PyFloat Warp.NaN => True
  | _, _ => False
  end.

(** The numbers of [rounded] are those of [c] rounded to [p] decimal
    digits, place by place. *)
Definition rounded_componentwise (p : Z) (c rounded : Warp.coord Warp.pyfloat)
  : Prop :=
  forall path,
    match Warp.component c path with
    | Some x =>
        exists y, Warp.component rounded path = Some y /\ rounded_to p x y
    | None => Warp.component rounded path = None
    end.

Module Samples.

(** The type codes of GDAL and the first members of the resampling
    enumeration, for the sample computations. *)
Definition type_codes (d : dtype) : Z :=
  match d with
  | uint8 => 1 | uint16 => 2 | int16 => 3 | uint32 => 4
  | int32 => 5 | float32 => 6 | float64 => 7
  end.

(** The least and the greatest value an element type represents. *)
Definition dtype_min (d : dtype) : Z :=
  match d with
  | uint8 | uint16 | uint32 => 0
  | int16 => - 2 ^ 15
  | int32 => - 2 ^ 31
  | float32 => - (2 ^ 128 - 2 ^ 104)
  | float64 => - (2 ^ 1024 - 2 ^ 971)
  end.

Definition dtype_max (d : dtype) : Z :=
  match d with
  | uint8 => 2 ^ 8 - 1
  | uint16 => 2 ^ 16 - 1
  | uint32 => 2 ^ 32 - 1
  | int16 => 2 ^ 15 - 1
  | int32 => 2 ^ 31 - 1
  | float32 => 2 ^ 128 - 2 ^ 104
  | float64 => 2 ^ 1024 - 2 ^ 971
  end.

(** Modelled from the spec: [in_dtype_range] of the I/O module, which is
    declared in the declaration file but defined outside [src/].  A value
    is accepted when it lies within the representable range of the
    element type.  The sample computations use it for the parameter
    [in_dtype_range]. *)
Definition within_dtype_range (value : Z) (d : dtype) : bool :=
  (dtype_min d <=? value) && (value <=? dtype_max d).

Definition resampling_names (n : Z) : option string :=
  match n with
  | 0 => Some "nearest"
  | 1 => Some "bilinear"
  | 2 => Some "cubic"
  | _ => None
  end.

(** A native layer in which no band resolves and every transfer reports
    status 3. *)
Definition failing_gdal : Shim.gdal :=
  {| Shim.GDALGetRasterBand := fun _ _ => 0;
     Shim.GDALGetMaskBand := fun _ => 0;
     Shim.status := fun _ => 3;
     Shim.dtype_rev := type_codes;
     Shim.Resampling_name := resampling_names |}.

(** A native layer with bands 1 and 3 but no band 2; transfers succeed. *)
Definition two_band_gdal : Shim.gdal :=
  {| Shim.GDALGetRasterBand :=
       fun _ j => if j =? 1 then 11 else if j =? 3 then 13 else 0;
     Shim.GDALGetMaskBand := fun band => band + 100;
     Shim.status := fun _ => 0;
     Shim.dtype_rev := type_codes;
     Shim.Resampling_name := resampling_names |}.

Definition image2d : ndarray :=
  {| shape := [2; 2]; strides := [2; 1]; dtype_of := uint8;
     PyArray_DATA := 4096; fill_value := None |}.

Definition image3d : ndarray :=
  {| shape := [3; 2; 2]; strides := [4; 2; 1]; dtype_of := uint8;
     PyArray_DATA := 4096; fill_value := None |}.

(** A process in which no option is set and nothing has happened. *)
Definition quiet_world : Shim.world :=
  {| Shim.memory := []; Shim.options := ∅;
     Shim.calls := []; Shim.unraisable := [] |}.

(** A process in which the resampling option is set to [CUBIC]. *)
Definition cubic_world : Shim.world :=
  {| Shim.memory := [Some "CUBIC"];
     Shim.options := {[ Shim.option_name := 0%nat ]};
     Shim.calls := []; Shim.unraisable := [] |}.

(** A native layer in which every call succeeds. *)
Definition quiet_gdal : Warp.gdal :=
  {| Warp.dtype_rev := type_codes;
     Warp.in_dtype_range := within_dtype_range;
     Warp.io_auto := fun _ _ => 0;
     Warp.GetDriverByName_MEM := fun _ => None;
     Warp.GDALCreate := fun which _ _ _ _ =>
       (match which with
        | Warp.TempSource => 101
        | Warp.TempDestination => 102
        end, None);
     Warp.GDALSetGeoTransform := fun _ _ => 0;
     Warp.GDALSetProjection := fun _ _ => 0;
     Warp.osr_from_crs := fun _ => Return 7;
     Warp.OSRExportToWkt := fun _ => "WKT";
     Warp.transformer_report := fun _ _ _ => None;
     Warp.warp_options_report := None;
     Warp.default_warp_options := [];
     Warp.Initialize_report := fun _ => None;
     Warp.ChunkAndWarp_report := None |}.

(** The same layer, except that every [io_auto] reports status 3. *)
Definition failing_transfer_gdal : Warp.gdal :=
  {| Warp.dtype_rev := type_codes;
     Warp.in_dtype_range := within_dtype_range;
     Warp.io_auto := fun _ _ => 3;
     Warp.GetDriverByName_MEM := Warp.GetDriverByName_MEM quiet_gdal;
     Warp.GDALCreate := Warp.GDALCreate quiet_gdal;
     Warp.GDALSetGeoTransform := Warp.GDALSetGeoTransform quiet_gdal;
     Warp.GDALSetProjection := Warp.GDALSetProjection quiet_gdal;
     Warp.osr_from_crs := Warp.osr_from_crs quiet_gdal;
     Warp.OSRExportToWkt := Warp.OSRExportToWkt quiet_gdal;
     Warp.transformer_report := Warp.transformer_report quiet_gdal;
     Warp.warp_options_report := Warp.warp_options_report quiet_gdal;
     Warp.default_warp_options := Warp.default_warp_options quiet_gdal;
     Warp.Initialize_report := Warp.Initialize_report quiet_gdal;
     Warp.ChunkAndWarp_report := Warp.ChunkAndWarp_report quiet_gdal |}.

(** A 1 x 4 x 4 array of unsigned bytes; [fill] is the fill value of a
    masked array. *)
Definition band_4x4 (fill : option Z) : ndarray :=
  {| shape := [1; 4; 4]; strides := [16; 4; 1]; dtype_of := uint8;
     PyArray_DATA := 4096; fill_value := fill |}.

Definition north_up : list Q := [0; 1; 0; 0; 0; -1]%Q.

Definition call (src dst : Warp.raster) (src_nodata dst_nodata : option Z)
    (kw : list (string * Warp.pyvalue)) : Warp.arguments :=
  {| Warp.source := src; Warp.destination := dst;
     Warp.src_transform := Some north_up; Warp.gcps := [];
     Warp.src_crs := "EPSG:4326"; Warp.src_nodata := src_nodata;
     Warp.dst_transform := Some north_up; Warp.dst_crs := "EPSG:4326";
     Warp.dst_nodata := dst_nodata; Warp.resampling := 0;
     Warp.init_dest_nodata := true; Warp.num_threads := 1;
     Warp.kwargs := kw |}.

(** Source nodata 5, no destination nodata given, destination a masked
    array with fill value 255. *)
Definition masked_destination_call : Warp.arguments :=
  call (Warp.Array (band_4x4 None)) (Warp.Array (band_4x4 (Some 255)))
       (Some 5) None [].

(** No nodata given on either side, destination a masked array. *)
Definition masked_destination_only_call : Warp.arguments :=
  call (Warp.Array (band_4x4 None)) (Warp.Array (band_4x4 (Some 255)))
       None None [].

(** Destination nodata 9 given, nothing resolvable for the source. *)
Definition missing_source_call : Warp.arguments :=
  call (Warp.Array (band_4x4 None)) (Warp.Array (band_4x4 None))
       None (Some 9) [].

(** Source nodata 5, nothing on the destination side. *)
Definition source_only_call : Warp.arguments :=
  call (Warp.Array (band_4x4 None)) (Warp.Array (band_4x4 None))
       (Some 5) None [].

(** Source nodata 5, destination nodata -1, unsigned bytes. *)
Definition negative_nodata_call : Warp.arguments :=
  call (Warp.Array (band_4x4 None)) (Warp.Array (band_4x4 None))
       (Some 5) (Some (-1)) [].

(** A call with one extra keyword and no nodata at all. *)
Definition keyword_call : Warp.arguments :=
  call (Warp.Array (band_4x4 None)) (Warp.Array (band_4x4 None))
       None None [("max_gcp_order", Warp.PInt 2)].

(** The point [(0.125, -2.675)]. *)
Definition point : Warp.geometry Warp.pyfloat :=
  {| Warp.geom_type := "Point";
     Warp.coordinates :=
       Some (Warp.Seq [Warp.Num (Warp.PyFloat (Warp.decimal_literal 125 3));
                       Warp.Num (Warp.PyFloat
                                   (Warp.decimal_literal (-2675) 3))]) |}.

(** The point at the origin. *)
Definition origin : Warp.geometry Warp.pyfloat :=
  {| Warp.geom_type := "Point";
     Warp.coordinates :=
       Some (Warp.Seq [Warp.Num (Warp.PyFloat (Warp.Finite false 0%Q));
                       Warp.Num (Warp.PyFloat (Warp.Finite false 0%Q))]) |}.

(** A geometry layer that maps every geometry to itself, and builds
    [result] from the transformed geometry. *)
Definition same_crs_ogr (result : Warp.geometry Warp.pyfloat)
  : Warp.ogr (float:=Warp.pyfloat) :=
  {| Warp.ogr_osr_from_crs := fun _ => Return 1;
     Warp.OCTNewCoordinateTransformation := fun _ _ => 2;
     Warp.OGRGeomBuilder_build := fun _ => Return 3;
     Warp.transformWithOptions := fun geom _ _ => (geom, None);
     Warp.GeomBuilder_build := fun _ => Return result |}.

(** [[[1.005, 3, -0.0, inf], []]]. *)
Definition nested : Warp.coord Warp.pyfloat :=
  Warp.Seq [Warp.Seq [Warp.Num (Warp.PyFloat (Warp.decimal_literal 1005 3));
                      Warp.Num (Warp.PyInt 3);
                      Warp.Num (Warp.PyFloat (Warp.Finite true 0%Q));
                      Warp.Num (Warp.PyFloat (Warp.Infinite false))];
            Warp.Seq []].

Definition suppressed_message : string :=
  "Reprojection failed, err = -14, further errors will be suppressed on the transform object.".

(** The geotransform of a north-up raster that covers the bounds. *)
Definition from_bounds (left bottom right top : Q) (width height : Z)
  : outcome (list Q) :=
  if (width =? 0) || (height =? 0)
  then Raise (ZeroDivisionError "float division by zero")
  else Return [left; (right - left) / inject_Z width; 0;
               top; 0; (bottom - top) / inject_Z height]%Q.

(** An extent suggestion that writes its outputs and reports [msg] as an
    application-defined error. *)
Definition partial_suggester (msg : string) : Warp.suggester :=
  {| Warp.sg_osr_from_crs := fun _ => Return 7;
     Warp.sg_OSRExportToWkt := fun _ => "WKT";
     Warp.from_bounds_to_gdal := from_bounds;
     Warp.InMemoryRaster := fun _ _ _ _ _ => Return 201;
     Warp.GDALCreateGenImgProjTransformer := fun _ _ => (301, None);
     Warp.GDALSuggestedWarpOutput2 := fun _ _ =>
       (((10, 2, 0, 20, 0, -2)%Q, 5, 6), Some (AppDefined, msg)) |}.

End Samples.

(** ** Further predicates on traces *)

(** A transfer of mask data: a single-band transfer in the given mode
    whose buffer type is the byte code 1. *)
Definition is_mask_transfer (mode : Z) (c : Shim.native_call) : Prop :=
  match c with
  | Shim.RasterIO _ m _ _ _ _ _ _ _ buftype _ _ => m = mode /\ buftype = 1
  | Shim.DatasetRasterIO _ _ _ _ _ _ _ _ _ _ _ _ _ _ _ => False
  end.


(** The warp entry point fits the thread count, and the window starts at
    the origin. *)
Definition entry_point_for (num_threads : Z) (e : Warp.event) : Prop :=
  match e with
  | Warp.ChunkAndWarpMulti xoff yoff _ _ =>
      1 < num_threads /\ xoff = 0 /\ yoff = 0
  | Warp.ChunkAndWarpImage xoff yoff _ _ =>
      num_threads <= 1 /\ xoff = 0 /\ yoff = 0
  | _ => True
  end.

(** No dataset is created, written, read back, georeferenced or
    closed. *)
Definition leaves_datasets_alone (e : Warp.event) : Prop :=
  match e with
  | Warp.Create _ _ _ _ _ | Warp.Close _ | Warp.IoAuto _ _ _
  | Warp.SetGeoTransform _ _ | Warp.SetProjection _ _
  | Warp.SetGCPs _ _ => False
  | _ => True
  end.

Definition sets_no_gcps (e : Warp.event) : Prop :=
  match e with
  | Warp.SetGCPs _ _ => False
  | _ => True
  end.

(** What every options structure handed to the warper holds. *)
Definition warper_options_ok (a : Warp.arguments)
    (o : Warp.GDALWarpOptions) : Prop :=
  Warp.eResampleAlg o = Warp.resampling a /\
  Warp.pfnTransformer o = Some "GDALApproxTransform" /\
  Warp.pTransformerArg o
  = Warp.ApproxTransformer
      (Warp.GenImgProjTransformer (Warp.hSrcDS o) (Warp.hDstDS o)
         (Warp.copy_kwargs (Warp.kwargs a) []))
      Warp.tolerance true /\
  length (Warp.panSrcBands o) = Z.to_nat (Warp.nBandCount o) /\
  length (Warp.panDstBands o) = Z.to_nat (Warp.nBandCount o) /\
  Warp.padfDstNoDataImag o
  = Some (replicate (Z.to_nat (Warp.nBandCount o)) 0) /\
  (exists d, Warp.padfDstNoDataReal o
             = Some (replicate (Z.to_nat (Warp.nBandCount o)) d)) /\
  match Warp.padfSrcNoDataReal o with
  | Some re =>
      (exists s, re = replicate (Z.to_nat (Warp.nBandCount o)) s) /\
      Warp.padfSrcNoDataImag o
      = Some (replicate (Z.to_nat (Warp.nBandCount o)) 0) /\
      Warp.CSLFetchNameValue (Warp.papszWarpOptions o) "UNIFIED_SRC_NODATA"
      = Some "YES"
  | None => Warp.padfSrcNoDataImag o = None
  end /\
  (Warp.init_dest_nodata a = true ->
   Warp.CSLFetchNameValue (Warp.papszWarpOptions o) "INIT_DEST"
   = Some "NO_DATA").

(** Text made of ASCII characters only. *)
Definition ascii_text (s : string) : bool :=
  forallb (fun c => (nat_of_ascii c <? 128)%nat) (list_ascii_of_string s).

(** How many of the four bounds are given. *)
Definition given (bound : option Q) : nat :=
  match bound with Some _ => 1 | None => 0 end.

(** The releases that end [_transform_geom]. *)
Definition geometry_releases : list Warp.event :=
  [Warp.Release "factory"; Warp.Release "dst_geom";
   Warp.Release "src_geom"; Warp.Release "transform";
   Warp.Release "options"; Warp.Release "src"; Warp.Release "dst"].



(** What [apply_nodata] hands on, given options without nodata arrays. *)
Definition nodata_applied (l : Warp.locals)
    (r : Warp.GDALWarpOptions * Warp.csl) : Prop :=
  let n := Z.to_nat (Warp.src_count l) in
  Warp.eResampleAlg r.1 = Warp.eResampleAlg (Warp.psWOptions l) /\
  Warp.padfDstNoDataImag r.1 = Some (replicate n 0) /\
  (exists d, Warp.padfDstNoDataReal r.1 = Some (replicate n d)) /\
  match Warp.padfSrcNoDataReal r.1 with
  | Some re =>
      (exists s, re = replicate n s) /\
      Warp.padfSrcNoDataImag r.1 = Some (replicate n 0) /\
      Warp.CSLFetchNameValue r.2 "UNIFIED_SRC_NODATA" = Some "YES"
  | None => Warp.padfSrcNoDataImag r.1 = None
  end.

(** Further sample inputs. *)
Module MoreSamples.
Import Samples.

(** Band 1 of a stored dataset with handle [h] and no nodata value. *)
Definition stored_band (h : Z) : Warp.Band :=
  {| Warp.ds := {| Warp.handle := h; Warp.nodata := None |};
     Warp.bidx := Warp.OneIndex 1;
     Warp.band_dtype := uint8;
     Warp.band_shape := (4, 4) |}.

(** From a band of one dataset to a band of another. *)
Definition band_call : Warp.arguments :=
  call (Warp.BandOf (stored_band 11)) (Warp.BandOf (stored_band 12))
       None None [].

(** A 2 x 4 x 4 array of unsigned bytes. *)
Definition two_bands_4x4 : ndarray :=
  {| shape := [2; 4; 4]; strides := [16; 4; 1]; dtype_of := uint8;
     PyArray_DATA := 8192; fill_value := None |}.

(** One band on the source side, two on the destination side. *)
Definition mismatched_call : Warp.arguments :=
  call (Warp.Array (band_4x4 None)) (Warp.Array two_bands_4x4)
       None None [].

(** A native layer without the in-memory driver. *)
Definition driverless_gdal : Warp.gdal :=
  {| Warp.dtype_rev := type_codes;
     Warp.in_dtype_range := within_dtype_range;
     Warp.io_auto := Warp.io_auto quiet_gdal;
     Warp.GetDriverByName_MEM := fun _ => Some (OtherCPLE 1, "no driver");
     Warp.GDALCreate := Warp.GDALCreate quiet_gdal;
     Warp.GDALSetGeoTransform := Warp.GDALSetGeoTransform quiet_gdal;
     Warp.GDALSetProjection := Warp.GDALSetProjection quiet_gdal;
     Warp.osr_from_crs := Warp.osr_from_crs quiet_gdal;
     Warp.OSRExportToWkt := Warp.OSRExportToWkt quiet_gdal;
     Warp.transformer_report := Warp.transformer_report quiet_gdal;
     Warp.warp_options_report := Warp.warp_options_report quiet_gdal;
     Warp.default_warp_options := Warp.default_warp_options quiet_gdal;
     Warp.Initialize_report := Warp.Initialize_report quiet_gdal;
     Warp.ChunkAndWarp_report := Warp.ChunkAndWarp_report quiet_gdal |}.

(** A native layer that refuses every projection with status 3. *)
Definition unprojectable_gdal : Warp.gdal :=
  {| Warp.dtype_rev := type_codes;
     Warp.in_dtype_range := within_dtype_range;
     Warp.io_auto := Warp.io_auto quiet_gdal;
     Warp.GetDriverByName_MEM := Warp.GetDriverByName_MEM quiet_gdal;
     Warp.GDALCreate := Warp.GDALCreate quiet_gdal;
     Warp.GDALSetGeoTransform := Warp.GDALSetGeoTransform quiet_gdal;
     Warp.GDALSetProjection := fun _ _ => 3;
     Warp.osr_from_crs := Warp.osr_from_crs quiet_gdal;
     Warp.OSRExportToWkt := Warp.OSRExportToWkt quiet_gdal;
     Warp.transformer_report := Warp.transformer_report quiet_gdal;
     Warp.warp_options_report := Warp.warp_options_report quiet_gdal;
     Warp.default_warp_options := Warp.default_warp_options quiet_gdal;
     Warp.Initialize_report := Warp.Initialize_report quiet_gdal;
     Warp.ChunkAndWarp_report := Warp.ChunkAndWarp_report quiet_gdal |}.

(** Coordinates that hold integers only. *)
Definition integers : Warp.coord Warp.pyfloat :=
  Warp.Seq [Warp.Num (Warp.PyInt 3);
            Warp.Seq [Warp.Num (Warp.PyInt (-7))]].

(** An extent suggestion with given answers: entering the scratch
    raster, making the transformer, and the report of the suggestion. *)
Definition scripted_suggester (mem : outcome Z) (created : Z * report)
    (suggested : report) : Warp.suggester :=
  {| Warp.sg_osr_from_crs := fun _ => Return 7;
     Warp.sg_OSRExportToWkt := fun _ => "WKT";
     Warp.from_bounds_to_gdal := from_bounds;
     Warp.InMemoryRaster := fun _ _ _ _ _ => mem;
     Warp.GDALCreateGenImgProjTransformer := fun _ _ => created;
     Warp.GDALSuggestedWarpOutput2 := fun _ _ =>
       (((10, 2, 0, 20, 0, -2)%Q, 5, 6), suggested) |}.

End MoreSamples.

(** * Properties *)

Ltac unfold_monad :=
  unfold mbind, M_bind, mret, M_ret, bind, ret, raise, modify, get,
         try_finally, try_except, answer, check in *.

(** ** Reasoning about computations *)

Section Computations.
Context {S : Type}.

Lemma bind_run {A B} (m : M S A) (k : A -> M S B) (s : S) :
  (m ≫= k) s = match m s with
               | (Return a, s') => k a s'
               | (Raise e, s') => (Raise e, s')
               end.
Proof. reflexivity. Qed.

Lemma bind_returns {A B} (m : M S A) (k : A -> M S B) (s s1 : S) (a : A) :
  m s = (Return a, s1) -> (m ≫= k) s = k a s1.
Proof. intros H. rewrite bind_run. by rewrite H. Qed.

Lemma bind_raises {A B} (m : M S A) (k : A -> M S B) (s s1 : S)
    (e : exn) :
  m s = (Raise e, s1) -> (m ≫= k) s = (Raise e, s1).
Proof. intros H. rewrite bind_run. by rewrite H. Qed.

Lemma bind_inv {A B} (m : M S A) (k : A -> M S B) (s s' : S) (b : B) :
  (m ≫= k) s = (Return b, s') ->
  exists a s1, m s = (Return a, s1) /\ k a s1 = (Return b, s').
Proof.
  rewrite bind_run. destruct (m s) as [[a|e] s1]; [eauto | discriminate].
Qed.

Lemma returns_ret {A} (a : A) (Q : A -> Prop) :
  Q a -> returns (S:=S) (mret a) Q.
Proof. intros H s a' s' [= <- _]. exact H. Qed.

Lemma returns_raise {A} (e : exn) (Q : A -> Prop) :
  returns (S:=S) (raise e) Q.
Proof. intros s a s' [=]. Qed.

Lemma returns_bind {A B} (m : M S A) (k : A -> M S B) (Q : B -> Prop) :
  (forall a, returns (k a) Q) -> returns (m ≫= k) Q.
Proof.
  intros H s b s' E. apply bind_inv in E as (a & s1 & _ & E).
  exact (H a s1 b s' E).
Qed.

Lemma returns_bind_with {A B} (m : M S A) (k : A -> M S B)
    (Q1 : A -> Prop) (Q : B -> Prop) :
  returns m Q1 -> (forall a, Q1 a -> returns (k a) Q) ->
  returns (m ≫= k) Q.
Proof.
  intros Hm H s b s' E. apply bind_inv in E as (a & s1 & Em & E).
  exact (H a (Hm s a s1 Em) s1 b s' E).
Qed.

Lemma returns_try_finally {A} (m : M S A) (fin : M S unit)
    (Q : A -> Prop) :
  returns m Q -> returns (try_finally m fin) Q.
Proof.
  intros H s a s'. unfold try_finally.
  destruct (m s) as [r s1] eqn:E.
  destruct (fin s1) as [[[]|e] s2]; [|discriminate].
  intros [= -> _]. exact (H s a s1 E).
Qed.

Lemma returns_try_except {A} (m : M S A) (h : exn -> M S A)
    (Q : A -> Prop) :
  returns m Q -> (forall e, returns (h e) Q) -> returns (try_except m h) Q.
Proof.
  intros Hm Hh s a s'. unfold try_except.
  destruct (m s) as [[a'|e] s1] eqn:E.
  - intros [= <- _]. exact (Hm s a' s1 E).
  - apply Hh.
Qed.

End Computations.

Ltac returns_step :=
  match goal with
  | |- returns (_ ≫= _) _ => apply returns_bind; intros
  | |- returns (mret _) _ => apply returns_ret
  | |- returns (ret _) _ => apply (returns_ret (S:=_))
  | |- returns (raise _) _ => apply returns_raise
  | |- returns (try_finally _ _) _ => apply returns_try_finally
  | |- returns (try_except _ _) _ => apply returns_try_except; intros
  | |- returns (match ?x with _ => _ end) _ => destruct x
  | |- returns (let _ := _ in _) _ => cbv zeta
  end.

(** ** Band transfer functions *)

Section ShimLemmas.
Import Shim.
Variable g : gdal.

Lemma read_int_run {S} (t : list Z) (i : nat) (v : Z) (s : S) :
  read_int t i = Some v -> (item t i ≫= as_int) s = (Return v, s).
Proof.
  unfold read_int, item, as_int. unfold_monad.
  destruct (t !! i) as [z|]; [|discriminate].
  destruct (in_int z); [|discriminate]. by intros [= ->].
Qed.

Lemma as_int_run {S} (z : Z) (s : S) :
  in_int z = true -> as_int z s = (Return z, s).
Proof. intros H. unfold as_int. by rewrite H. Qed.

Lemma cast_int_run {S} (x : Q) (z : Z) (s : S) :
  c_int x = Some z -> cast_int x s = (Return z, s).
Proof. intros H. unfold cast_int. by rewrite H. Qed.

Lemma window_casts (x0 y0 width height : Q) (xoff yoff xsize ysize : Z) :
  window x0 y0 width height = Some (xoff, yoff, xsize, ysize) ->
  c_int x0 = Some xoff /\ c_int y0 = Some yoff /\
  c_int width = Some xsize /\ c_int height = Some ysize.
Proof.
  unfold window.
  destruct (c_int x0), (c_int y0), (c_int width), (c_int height);
    try discriminate.
  by intros [= -> -> -> ->].
Qed.

Lemma Resampling_of_member (n : Z) (name : string) (w : world) :
  Resampling_name g n = Some name ->
  Resampling_of g n w = (Return name, w).
Proof. intros H. unfold Resampling_of. by rewrite H. Qed.

Lemma world_eta (w : world) :
  {| memory := memory w; options := options w; calls := calls w;
     unraisable := unraisable w |} = w.
Proof. by destruct w. Qed.

Lemma print_nothing (w : world) : print_unraisable [] w = w.
Proof. unfold print_unraisable. rewrite app_nil_r. apply world_eta. Qed.

(** What [cdef_int] makes of a body that raised, and of one that
    returned. *)
Lemma cdef_int_raise (cy : cdef_errors) (body : M world Z) (w w' : world)
    (e : exn) :
  body w = (Raise e, w') -> is_exception e = true ->
  cdef_int cy body w = (unraised cy e, print_unraisable (printed cy e) w').
Proof.
  intros H He. unfold cdef_int. rewrite H.
  destruct cy; destruct e; try discriminate; cbn [unraised printed];
    by rewrite ?print_nothing.
Qed.

Lemma cdef_int_return (cy : cdef_errors) (body : M world Z) (w w' : world)
    (r : Z) :
  body w = (Return r, w') -> cdef_int cy body w = (Return r, w').
Proof. intros H. unfold cdef_int. by rewrite H. Qed.

Lemma cdef_int_undefined (cy : cdef_errors) (body : M world Z)
    (w w' : world) (what : string) :
  body w = (Raise (UndefinedBehaviour what), w') ->
  cdef_int cy body w = (Raise (UndefinedBehaviour what), w').
Proof. intros H. unfold cdef_int. by rewrite H. Qed.

(** A value stored and freed again leaves the options as they were. *)
Lemma config_round_trip (w : world) (cs : list native_call)
    (es : list exn) :
  config {| memory := memory w ++ [None]; options := options w;
            calls := cs; unraisable := es |} = config w.
Proof.
  unfold config. cbn [memory options]. apply map_eq. intros k.
  rewrite !lookup_omap. destruct (options w !! k) as [p|]; [|reflexivity].
  cbn. destruct (decide (p < length (memory w))%nat) as [Hlt|Hge].
  - by rewrite lookup_app_l.
  - rewrite (lookup_ge_None_2 (memory w)) by lia.
    destruct (decide (p = length (memory w))) as [->|Hne].
    + by rewrite list_lookup_middle.
    + rewrite lookup_ge_None_2; [done|]. rewrite length_app. cbn. lia.
Qed.

Lemma config_print (es : list exn) (w : world) :
  config (print_unraisable es w) = config w.
Proof. reflexivity. Qed.

(** The override, when the option was not set before. *)
Lemma override_unset (val : string) (w : world) :
  options w !! option_name = None ->
  CPLSetConfigOption option_name (Bytes val) w
  = (Return tt,
     {| memory := memory w ++ [Some val];
        options := <[option_name := length (memory w)]> (options w);
        calls := calls w; unraisable := unraisable w |}).
Proof.
  intros H. unfold CPLSetConfigOption, read. unfold_monad.
  by rewrite H.
Qed.

(** The override never fails, and leaves calls and printed exceptions
    alone. *)
Lemma override_runs (val : string) (w : world) :
  exists w1, CPLSetConfigOption option_name (Bytes val) w = (Return tt, w1)
             /\ calls w1 = calls w /\ unraisable w1 = unraisable w.
Proof.
  unfold CPLSetConfigOption, read. unfold_monad.
  destruct (options w !! option_name); eexists; by split.
Qed.

Lemma restore_unset (w : world) (val : string) (cs : list native_call)
    (es : list exn) :
  options w !! option_name = None ->
  CPLSetConfigOption option_name NULL
    {| memory := memory w ++ [Some val];
       options := <[option_name := length (memory w)]> (options w);
       calls := cs; unraisable := es |}
  = (Return tt,
     {| memory := memory w ++ [None]; options := options w;
        calls := cs; unraisable := es |}).
Proof.
  intros H. unfold CPLSetConfigOption, read. unfold_monad.
  cbn [options memory calls unraisable]. rewrite lookup_insert_eq.
  cbn [options memory calls unraisable].
  rewrite delete_insert_id by done.
  f_equal. f_equal.
  rewrite <- (Nat.add_0_r (length (memory w))). by rewrite insert_app_r.
Qed.

(** The restore, whatever the pointer: it returns or its behaviour is
    undefined, and it leaves calls and printed exceptions alone. *)
Lemma restore_runs (stored : char_p) (retval : Z) (w : world) :
  exists o w1,
    (CPLSetConfigOption option_name stored;; CPLFree stored;; mret retval) w
    = (o, w1) /\
    raised_exception o = false /\
    calls w1 = calls w /\ unraisable w1 = unraisable w.
Proof.
  unfold CPLSetConfigOption, CPLFree, read. unfold_monad.
  destruct stored as [|s|p]; destruct (options w !! option_name);
    cbn [memory options calls unraisable];
    try (do 2 eexists; by repeat split).
  - destruct (_ !! p) as [[s|]|]; do 2 eexists; by repeat split.
  - destruct (_ !! p) as [[s|]|]; do 2 eexists; by repeat split.
Qed.

(** The scoped override around [m], when the option was not set
    before. *)
Lemma scoped_unset (val : string) (m : M world Z) (w : world) :
  options w !! option_name = None -> only_transfers m ->
  let w1 := {| memory := memory w ++ [Some val];
               options := <[option_name := length (memory w)]> (options w);
               calls := calls w; unraisable := unraisable w |} in
  scoped NULL val m w
  = match m w1 with
    | (Return retval, w2) =>
        (Return retval,
         {| memory := memory w ++ [None]; options := options w;
            calls := calls w2; unraisable := unraisable w |})
    | (Raise e, w2) => (Raise e, w2)
    end.
Proof.
  intros Hopt Hm w1. unfold scoped.
  rewrite (bind_returns _ _ _ _ _ (override_unset val w Hopt)).
  fold w1. rewrite bind_run.
  destruct (Hm w1) as (Hmem & Hopts & Hun).
  destruct (m w1) as [[retval|e] w2]; [|reflexivity].
  cbn [snd] in Hmem, Hopts, Hun.
  destruct w2 as [mem2 opts2 cs2 es2].
  cbn [memory options calls unraisable] in *. subst mem2 opts2 es2.
  rewrite (bind_returns _ _ _ _ _ (restore_unset w val cs2 _ Hopt)).
  reflexivity.
Qed.

(** The scoped override around [m], whatever was set before: only [m]
    adds transfer calls; a Python exception can only come from [m]. *)
Lemma scoped_runs (stored : char_p) (val : string) (m : M world Z)
    (w : world) :
  only_transfers m ->
  exists w1,
    calls w1 = calls w /\ unraisable w1 = unraisable w /\
    calls (scoped stored val m w).2 = calls (m w1).2 /\
    unraisable (scoped stored val m w).2 = unraisable w /\
    match (m w1).1 with
    | Return _ => raised_exception (scoped stored val m w).1 = false
    | Raise e => scoped stored val m w = (Raise e, (m w1).2)
    end.
Proof.
  intros Hm. unfold scoped.
  destruct (override_runs val w) as (w1 & E1 & Hc1 & Hu1).
  exists w1. rewrite (bind_returns _ _ _ _ _ E1), bind_run.
  destruct (Hm w1) as (_ & _ & Hun).
  destruct (m w1) as [[retval|e] w2]; cbn [fst snd] in *;
    [|by rewrite Hun, Hu1].
  destruct (restore_runs stored retval w2)
    as (o & w3 & E3 & Ho & Hc3 & Hu3).
  rewrite E3. cbn [fst snd]. rewrite Hc3, Hu3, Hun, Hu1. by repeat split.
Qed.

Lemma transfer_only_transfers (c : native_call) :
  only_transfers (transfer g c).
Proof. intros w. by repeat split. Qed.


(** Each transfer function either stops in its first lines, with the
    process untouched, or goes through the scoped override. *)
Ltac prelude_cases :=
  unfold item, as_int, cast_int, Resampling_of, CPLGetConfigOption, scoped,
    stored_pointer, prelude_error;
  unfold_monad;
  repeat match goal with
         | |- context [match ?t !! ?i with _ => _ end] =>
             destruct (t !! i); [|left; eexists; split; [reflexivity|by left]]
         | |- context [if in_int ?z then _ else _] =>
             destruct (in_int z);
             [|left; eexists; split; [reflexivity|by left]]
         | |- context [match c_int ?x with _ => _ end] =>
             destruct (c_int x);
             [|left; eexists; split; [reflexivity|by right]]
         | |- context [match Resampling_name g ?n with _ => _ end] =>
             destruct (Resampling_name g n);
             [|left; eexists; split; [reflexivity|by left]]
         end.

Lemma io_band_cases (cy : cdef_errors) (band mode : Z)
    (x0 y0 width height : Q) (data : ndarray) (resampling : Z)
    (w : world) :
  exists r,
    io_band g cy band mode x0 y0 width height data resampling w
    = cdef_int cy (fun _ => r) w /\
    ((exists e, r = (Raise e, w) /\ prelude_error e) \/
     (exists val c, r = scoped (stored_pointer w) val (transfer g c) w)).
Proof.
  eexists. split; [reflexivity|]. cbv beta.
  prelude_cases. right. by do 2 eexists.
Qed.

Lemma io_multi_band_cases (cy : cdef_errors) (hds mode : Z)
    (x0 y0 width height : Q) (data : ndarray) (indexes : list Z)
    (resampling : Z) (w : world) :
  exists r,
    io_multi_band g cy hds mode x0 y0 width height data indexes
                  resampling w
    = cdef_int cy (fun _ => r) w /\
    ((exists e, r = (Raise e, w) /\ prelude_error e) \/
     (exists val c, r = scoped (stored_pointer w) val (transfer g c) w)).
Proof.
  eexists. split; [reflexivity|]. cbv beta.
  prelude_cases. right. by do 2 eexists.
Qed.

Lemma io_multi_mask_cases (cy : cdef_errors) (hds mode : Z)
    (x0 y0 width height : Q) (data : ndarray) (indexes : list Z)
    (resampling : Z) (w : world) :
  exists r,
    io_multi_mask g cy hds mode x0 y0 width height data indexes
                  resampling w
    = cdef_int cy (fun _ => r) w /\
    ((exists e, r = (Raise e, w) /\ prelude_error e) \/
     (exists val xoff yoff xsize ysize bx by_ ps ls,
        r = scoped (stored_pointer w) val
              (mask_loop g hds mode xoff yoff xsize ysize data bx by_ ps ls
                         0 (take (Z.to_nat (count_of indexes)) indexes) 3)
              w)).
Proof.
  eexists. split; [reflexivity|]. cbv beta.
  prelude_cases. right. by do 9 eexists.
Qed.

(** The outcome of a function whose body stopped in its first lines. *)
Lemma prelude_stop (cy : cdef_errors) (w : world) (e : exn) :
  prelude_error e ->
  cdef_int cy (fun _ => (Raise e, w)) w
  = (if is_exception e then unraised cy e else Raise e,
     print_unraisable (if is_exception e then printed cy e else []) w).
Proof.
  intros [He| ->].
  - rewrite He. by apply cdef_int_raise.
  - cbn. by rewrite print_nothing.
Qed.

End ShimLemmas.

Section ShimTheorems.
Import Shim.
Variable g : gdal.

Lemma cdef_int_returned (cy : cdef_errors) (r : outcome Z * world)
    (w w' : world) (v : Z) :
  r = (Return v, w') -> cdef_int cy (fun _ => r) w = (Return v, w').
Proof. intros ->. reflexivity. Qed.

Lemma stored_pointer_unset (w : world) :
  options w !! option_name = None -> stored_pointer w = NULL.
Proof. intros H. unfold stored_pointer. by rewrite H. Qed.

(** C3, as amended: [io_band] hands the status of the native transfer
    back to its caller as the result of the call, zero or not, and
    raises nothing itself. *)
Theorem io_band_returns_status (cy : cdef_errors)
    (band mode : Z) (x0 y0 width height : Q) (data : ndarray)
    (resampling : Z) (w : world) (ys xs ls ps : Z) (name : string)
    (xoff yoff xsize ysize : Z) :
  read_int (shape data) 0 = Some ys -> read_int (shape data) 1 = Some xs ->
  read_int (strides data) 0 = Some ls ->
  read_int (strides data) 1 = Some ps ->
  in_int (dtype_rev g (dtype_of data)) = true ->
  window x0 y0 width height = Some (xoff, yoff, xsize, ysize) ->
  Resampling_name g resampling = Some name ->
  options w !! option_name = None ->
  let call := RasterIO band mode xoff yoff xsize ysize (PyArray_DATA data)
                xs ys (dtype_rev g (dtype_of data)) ps ls in
  io_band g cy band mode x0 y0 width height data resampling w
  = (Return (status g call),
     {| memory := memory w ++ [None]; options := options w;
        calls := calls w ++ [call]; unraisable := unraisable w |}).
Proof.
  intros Hys Hxs Hls Hps Ht Hwin Hr Hopt call.
  apply window_casts in Hwin as (Hx & Hy & Hw & Hh).
  unfold io_band. apply cdef_int_return.
  rewrite (bind_returns _ _ _ _ _ (read_int_run _ _ _ _ Hxs)).
  rewrite (bind_returns _ _ _ _ _ (read_int_run _ _ _ _ Hys)).
  rewrite (bind_returns _ _ _ _ _ (as_int_run _ _ Ht)).
  rewrite (bind_returns _ _ _ _ _ (read_int_run _ _ _ _ Hps)).
  rewrite (bind_returns _ _ _ _ _ (read_int_run _ _ _ _ Hls)).
  rewrite (bind_returns _ _ _ _ _ (cast_int_run _ _ _ Hx)).
  rewrite (bind_returns _ _ _ _ _ (cast_int_run _ _ _ Hy)).
  rewrite (bind_returns _ _ _ _ _ (cast_int_run _ _ _ Hw)).
  rewrite (bind_returns _ _ _ _ _ (cast_int_run _ _ _ Hh)).
  rewrite bind_run. unfold CPLGetConfigOption at 1. rewrite Hopt.
  rewrite (bind_returns _ _ _ _ _ (Resampling_of_member g _ _ _ Hr)).
  fold call.
  exact (scoped_unset (upper name) (transfer g call) w Hopt
           (transfer_only_transfers g call)).
Qed.

(** X1: when the option was not set before the call, [io_band] leaves
    the configuration as it found it, whatever the outcome. *)
Theorem io_band_restores_option (cy : cdef_errors)
    (band mode : Z) (x0 y0 width height : Q) (data : ndarray)
    (resampling : Z) (w : world) :
  options w !! option_name = None ->
  config (io_band g cy band mode x0 y0 width height data resampling w).2
  = config w.
Proof.
  intros Hopt.
  destruct (io_band_cases g cy band mode x0 y0 width height data
              resampling w) as (r & -> & [(e & -> & He)|(val & c & ->)]).
  - by rewrite (prelude_stop cy w e He).
  - rewrite (stored_pointer_unset w Hopt).
    rewrite (cdef_int_returned cy _ w _ _
               (scoped_unset val (transfer g c) w Hopt
                  (transfer_only_transfers g c))).
    apply config_round_trip.
Qed.

(** X2: when the option was not set before the call, [io_multi_band]
    leaves the configuration as it found it, whatever the outcome. *)
Theorem io_multi_band_restores_option (cy : cdef_errors)
    (hds mode : Z) (x0 y0 width height : Q) (data : ndarray)
    (indexes : list Z) (resampling : Z) (w : world) :
  options w !! option_name = None ->
  config (io_multi_band g cy hds mode x0 y0 width height data indexes
                        resampling w).2
  = config w.
Proof.
  intros Hopt.
  destruct (io_multi_band_cases g cy hds mode x0 y0 width height data
              indexes resampling w)
    as (r & -> & [(e & -> & He)|(val & c & ->)]).
  - by rewrite (prelude_stop cy w e He).
  - rewrite (stored_pointer_unset w Hopt).
    rewrite (cdef_int_returned cy _ w _ _
               (scoped_unset val (transfer g c) w Hopt
                  (transfer_only_transfers g c))).
    apply config_round_trip.
Qed.

(** X4: [io_multi_band] makes one dataset transfer for the whole
    selection, with the selection reduced to [int] as band map in its
    own order and its length as band count, and returns the status of
    that transfer. *)
Theorem io_multi_band_returns_status (cy : cdef_errors)
    (hds mode : Z) (x0 y0 width height : Q) (data : ndarray)
    (indexes : list Z) (resampling : Z) (w : world)
    (ys xs bs ls ps : Z) (name : string) (xoff yoff xsize ysize : Z) :
  read_int (shape data) 1 = Some ys -> read_int (shape data) 2 = Some xs ->
  read_int (strides data) 0 = Some bs ->
  read_int (strides data) 1 = Some ls ->
  read_int (strides data) 2 = Some ps ->
  in_int (dtype_rev g (dtype_of data)) = true ->
  window x0 y0 width height = Some (xoff, yoff, xsize, ysize) ->
  Resampling_name g resampling = Some name ->
  options w !! option_name = None ->
  Z.of_nat (length indexes) < 2 ^ 31 ->
  let call := DatasetRasterIO hds mode xoff yoff xsize ysize
                (PyArray_DATA data) xs ys (dtype_rev g (dtype_of data))
                (Z.of_nat (length indexes)) (wrap_int <$> indexes)
                ps ls bs in
  io_multi_band g cy hds mode x0 y0 width height data indexes resampling w
  = (Return (status g call),
     {| memory := memory w ++ [None]; options := options w;
        calls := calls w ++ [call]; unraisable := unraisable w |}).
Proof.
  intros Hys Hxs Hbs Hls Hps Ht Hwin Hr Hopt Hlen call.
  apply window_casts in Hwin as (Hx & Hy & Hw & Hh).
  assert (Hcount : count_of indexes = Z.of_nat (length indexes)).
  { unfold count_of, wrap_int. rewrite Z.mod_small; lia. }
  unfold io_multi_band. apply cdef_int_return.
  rewrite (bind_returns _ _ _ _ _ (read_int_run _ _ _ _ Hxs)).
  rewrite (bind_returns _ _ _ _ _ (read_int_run _ _ _ _ Hys)).
  rewrite (bind_returns _ _ _ _ _ (as_int_run _ _ Ht)).
  rewrite (bind_returns _ _ _ _ _ (read_int_run _ _ _ _ Hps)).
  rewrite (bind_returns _ _ _ _ _ (read_int_run _ _ _ _ Hls)).
  rewrite (bind_returns _ _ _ _ _ (read_int_run _ _ _ _ Hbs)).
  rewrite (bind_returns _ _ _ _ _ (cast_int_run _ _ _ Hx)).
  rewrite (bind_returns _ _ _ _ _ (cast_int_run _ _ _ Hy)).
  rewrite (bind_returns _ _ _ _ _ (cast_int_run _ _ _ Hw)).
  rewrite (bind_returns _ _ _ _ _ (cast_int_run _ _ _ Hh)).
  rewrite bind_run. unfold CPLGetConfigOption at 1. rewrite Hopt.
  rewrite (bind_returns _ _ _ _ _ (Resampling_of_member g _ _ _ Hr)).
  rewrite Hcount, Nat2Z.id, firstn_all. fold call.
  exact (scoped_unset (upper name) (transfer g call) w Hopt
           (transfer_only_transfers g call)).
Qed.

(** X5: whenever [io_band] or [io_multi_band] raises, it has made no
    transfer and has not touched the configuration: every [raise] of
    theirs comes before the option is overridden.  This holds when the
    exception is propagated, and when it is printed instead. *)
Theorem band_transfer_raises_untouched (cy : cdef_errors)
    (h mode : Z) (x0 y0 width height : Q) (data : ndarray)
    (indexes : list Z) (resampling : Z) (w : world) :
  let band := io_band g cy h mode x0 y0 width height data resampling w in
  let multi := io_multi_band g cy h mode x0 y0 width height data indexes
                             resampling w in
  (raised_exception band.1 = true -> band.2 = w) /\
  (unraisable band.2 <> unraisable w ->
   band.1 = Return 0 /\ memory band.2 = memory w /\
   options band.2 = options w /\ calls band.2 = calls w) /\
  (raised_exception multi.1 = true -> multi.2 = w) /\
  (unraisable multi.2 <> unraisable w ->
   multi.1 = Return 0 /\ memory multi.2 = memory w /\
   options multi.2 = options w /\ calls multi.2 = calls w).
Proof.
  assert (Hstop : forall e, prelude_error e ->
    let run := cdef_int cy (fun _ => (Raise e, w)) w in
    (raised_exception run.1 = true -> run.2 = w) /\
    (unraisable run.2 <> unraisable w ->
     run.1 = Return 0 /\ memory run.2 = memory w /\
     options run.2 = options w /\ calls run.2 = calls w)).
  { intros e He run. subst run. rewrite (prelude_stop cy w e He).
    destruct He as [He| ->]; [rewrite He|cbn [is_exception]].
    - destruct cy; cbn [unraised printed fst snd raised_exception].
      + by split.
      + rewrite print_nothing. split; [done|intros H; exfalso; by apply H].
    - rewrite print_nothing. split; [discriminate|intros H; exfalso; by apply H]. }
  assert (Hscoped : forall val c,
    let run := cdef_int cy
                 (fun _ => scoped (stored_pointer w) val (transfer g c) w)
                 w in
    (raised_exception run.1 = true -> run.2 = w) /\
    (unraisable run.2 <> unraisable w ->
     run.1 = Return 0 /\ memory run.2 = memory w /\
     options run.2 = options w /\ calls run.2 = calls w)).
  { intros val c run. subst run.
    destruct (scoped_runs (stored_pointer w) val (transfer g c) w
                (transfer_only_transfers g c))
      as (w1 & _ & _ & _ & Hun & Ho).
    cbn [transfer fst] in Ho. unfold cdef_int.
    destruct (scoped _ _ _ w) as [[r|e] w2]; cbn [fst snd] in *.
    - split; [discriminate|intros H; exfalso; by apply H].
    - destruct e; cbn in Ho; try discriminate Ho.
      cbn [fst snd raised_exception is_exception].
      split; [discriminate|intros H; exfalso; by apply H]. }
  intros band multi. subst band multi.
  destruct (io_band_cases g cy h mode x0 y0 width height data
              resampling w) as (r & -> & [(e & -> & He)|(val & c & ->)]);
  destruct (io_multi_band_cases g cy h mode x0 y0 width height data
              indexes resampling w)
    as (r' & -> & [(e' & -> & He')|(val' & c' & ->)]).
  - destruct (Hstop e He), (Hstop e' He'). repeat (split; [assumption|]); assumption.
  - destruct (Hstop e He), (Hscoped val' c'). repeat (split; [assumption|]); assumption.
  - destruct (Hscoped val c), (Hstop e' He'). repeat (split; [assumption|]); assumption.
  - destruct (Hscoped val c), (Hscoped val' c'). repeat (split; [assumption|]); assumption.
Qed.

End ShimTheorems.

Section MaskLoop.
Import Shim.
Variable g : gdal.

Lemma slice_of_raises (data : ndarray) (i : Z) (e : exn) :
  slice_of data i = Raise e -> is_exception e = true.
Proof.
  unfold slice_of.
  destruct (shape data), (strides data); try by intros [= <-].
  destruct (_ && _); [discriminate|by intros [= <-]].
Qed.

Lemma cdef_int_calls (cy : cdef_errors) (body : M world Z) (w : world) :
  calls (cdef_int cy body w).2 = calls (body w).2.
Proof.
  unfold cdef_int. destruct (body w) as [[r|e] w']; [reflexivity|].
  by destruct e, cy.
Qed.

(** The loop of [io_multi_mask] only adds transfer calls. *)
Lemma mask_loop_only_transfers hds mode xoff yoff xsize ysize data bx by_
    ps ls (rest : list Z) : forall (i retval : Z),
  only_transfers (mask_loop g hds mode xoff yoff xsize ysize data bx by_
                            ps ls i rest retval).
Proof.
  induction rest as [|j rest IH]; intros i retval w; [by repeat split|].
  cbn [mask_loop]. unfold getitem. unfold_monad.
  destruct (GDALGetRasterBand g hds _ =? 0); [by repeat split|].
  destruct (GDALGetMaskBand g _ =? 0); [by repeat split|].
  destruct (slice_of data i) as [slice|e]; [|by repeat split].
  destruct (_ =? 0); [by repeat split|].
  unfold transfer.
  destruct (status g _ =? 0); [|by repeat split].
  match goal with
  | |- context [mask_loop g _ _ _ _ _ _ _ _ _ _ _ ?i' rest ?rv ?w'] =>
      destruct (IH i' rv w') as (A & B & C)
  end.
  rewrite A, B, C. by repeat split.
Qed.

(** The transfers of the loop are mask transfers, at most one for each
    index. *)
Lemma mask_loop_transfers hds mode xoff yoff xsize ysize data bx by_ ps ls
    (rest : list Z) : forall (i retval : Z) (w : world),
  exists cs,
    calls (mask_loop g hds mode xoff yoff xsize ysize data bx by_ ps ls
                     i rest retval w).2 = calls w ++ cs /\
    Forall (is_mask_transfer mode) cs /\
    (length cs <= length rest)%nat.
Proof.
  induction rest as [|j rest IH]; intros i retval w.
  - exists []. cbn. rewrite app_nil_r. repeat split; [constructor|lia].
  - cbn [mask_loop]. unfold getitem. unfold_monad.
    assert (Hnone : exists cs : list native_call,
              calls w = calls w ++ cs /\ Forall (is_mask_transfer mode) cs /\
              (length cs <= length (j :: rest))%nat).
    { exists []. rewrite app_nil_r. repeat split; [constructor|cbn; lia]. }
    destruct (GDALGetRasterBand g hds _ =? 0); [exact Hnone|].
    destruct (GDALGetMaskBand g _ =? 0); [exact Hnone|].
    destruct (slice_of data i) as [slice|e]; [|exact Hnone].
    destruct (_ =? 0); [exact Hnone|].
    unfold transfer.
    set (c := RasterIO _ _ _ _ _ _ _ _ _ _ _ _).
    destruct (status g c =? 0).
    + destruct (IH (i + 1) (status g c)
                   {| memory := memory w; options := options w;
                      calls := calls w ++ [c];
                      unraisable := unraisable w |})
        as (cs & E & F & L).
      exists (c :: cs). rewrite E. cbn [calls length].
      rewrite <- app_assoc. repeat split; [|lia].
      constructor; [by split|exact F].
    + exists [c]. cbn. repeat split; [|lia].
      constructor; [by split|constructor].
Qed.

(** A clean prefix of the selection is walked through in order: the
    loop makes its transfers one after the other and goes on with what
    follows. *)
Lemma mask_loop_prefix hds mode xoff yoff xsize ysize data bx by_ ps ls
    (rest : list Z) (pre : list Z) :
  forall (i retval : Z) (w : world) (cs : list native_call),
  clean_prefix g hds mode xoff yoff xsize ysize data bx by_ ps ls i pre
  = Some cs ->
  mask_loop g hds mode xoff yoff xsize ysize data bx by_ ps ls i
            (pre ++ rest) retval w
  = mask_loop g hds mode xoff yoff xsize ysize data bx by_ ps ls
              (i + Z.of_nat (length pre)) rest
              (match pre with [] => retval | _ => 0 end)
              {| memory := memory w; options := options w;
                 calls := calls w ++ cs; unraisable := unraisable w |}.
Proof.
  induction pre as [|j pre IH]; intros i retval w cs H.
  - injection H as <-. cbn [length app]. rewrite Z.add_0_r, app_nil_r.
    by rewrite world_eta.
  - cbn [clean_prefix] in H. unfold mask_transfer in H.
    cbn [app mask_loop]. unfold getitem. unfold_monad.
    destruct (slice_of data i) as [slice|e]; [|discriminate].
    destruct (GDALGetRasterBand g hds _ =? 0); [discriminate|].
    destruct (GDALGetMaskBand g _ =? 0); [discriminate|].
    destruct (PyArray_DATA slice =? 0); [discriminate|].
    cbn [orb] in H. unfold transfer.
    destruct (status g _ =? 0) eqn:Est; [|discriminate].
    destruct (clean_prefix _ _ _ _ _ _ _ _ _ _ _ _ _ pre) as [cs'|] eqn:Ecs;
      [|discriminate].
    injection H as <-.
    rewrite (IH _ _ _ cs' Ecs). cbn [memory options calls unraisable length].
    apply Z.eqb_eq in Est. rewrite Est.
    replace (i + 1 + Z.of_nat (length pre)) with (i + Z.of_nat (S (length pre)))
      by lia.
    rewrite <- app_assoc. cbn [app].
    by destruct pre.
Qed.

Lemma clean_prefix_length hds mode xoff yoff xsize ysize data bx by_ ps ls
    (pre : list Z) : forall (i : Z) (cs : list native_call),
  clean_prefix g hds mode xoff yoff xsize ysize data bx by_ ps ls i pre
  = Some cs ->
  length cs = length pre.
Proof.
  induction pre as [|j rest IH]; intros i cs H; cbn in H.
  - by injection H as <-.
  - destruct (mask_transfer _ _ _ _ _ _ _ _ _ _ _ _ _ _) as [c|];
      [|discriminate].
    destruct (status g c =? 0); [|discriminate].
    destruct (clean_prefix _ _ _ _ _ _ _ _ _ _ _ _ _ rest) as [cs'|] eqn:E;
      [|discriminate].
    injection H as <-. cbn. f_equal. by apply (IH (i + 1)).
Qed.

Lemma count_of_small (indexes : list Z) :
  Z.of_nat (length indexes) < 2 ^ 31 ->
  take (Z.to_nat (count_of indexes)) indexes = indexes.
Proof.
  intros H. unfold count_of, wrap_int.
  rewrite Z.mod_small by lia.
  replace (Z.of_nat (length indexes) + 2 ^ 31 - 2 ^ 31)
    with (Z.of_nat (length indexes)) by lia.
  rewrite Nat2Z.id. apply firstn_all.
Qed.

(** The first lines of [io_multi_mask], when nothing stops them. *)
Lemma io_multi_mask_run (cy : cdef_errors)
    (hds mode : Z) (x0 y0 width height : Q) (data : ndarray)
    (indexes : list Z) (resampling : Z) (w : world) (ys xs ls ps : Z)
    (name : string) (xoff yoff xsize ysize : Z) :
  read_int (shape data) 1 = Some ys -> read_int (shape data) 2 = Some xs ->
  read_int (strides data) 1 = Some ls ->
  read_int (strides data) 2 = Some ps ->
  in_int (dtype_rev g (dtype_of data)) = true ->
  window x0 y0 width height = Some (xoff, yoff, xsize, ysize) ->
  Resampling_name g resampling = Some name ->
  Z.of_nat (length indexes) < 2 ^ 31 ->
  io_multi_mask g cy hds mode x0 y0 width height data indexes resampling w
  = cdef_int cy
      (scoped (stored_pointer w) (upper name)
         (mask_loop g hds mode xoff yoff xsize ysize data xs ys ps ls 0
                    indexes 3)) w.
Proof.
  intros Hys Hxs Hls Hps Ht Hwin Hr Hlen.
  apply window_casts in Hwin as (Hx & Hy & Hw & Hh).
  unfold io_multi_mask, cdef_int.
  rewrite (bind_returns _ _ _ _ _ (read_int_run _ _ _ _ Hxs)).
  rewrite (bind_returns _ _ _ _ _ (read_int_run _ _ _ _ Hys)).
  rewrite (bind_returns _ _ _ _ _ (as_int_run _ _ Ht)).
  rewrite (bind_returns _ _ _ _ _ (read_int_run _ _ _ _ Hps)).
  rewrite (bind_returns _ _ _ _ _ (read_int_run _ _ _ _ Hls)).
  rewrite (bind_returns _ _ _ _ _ (cast_int_run _ _ _ Hx)).
  rewrite (bind_returns _ _ _ _ _ (cast_int_run _ _ _ Hy)).
  rewrite (bind_returns _ _ _ _ _ (cast_int_run _ _ _ Hw)).
  rewrite (bind_returns _ _ _ _ _ (cast_int_run _ _ _ Hh)).
  rewrite bind_run. unfold CPLGetConfigOption at 1. cbv beta iota.
  rewrite (bind_returns _ _ _ _ _ (Resampling_of_member g _ _ _ Hr)).
  rewrite (count_of_small _ Hlen). reflexivity.
Qed.

End MaskLoop.

Section MaskTheorems.
Import Shim.
Variable g : gdal.

(** C5, as amended: with an empty selection the loop body never runs;
    the call raises nothing, prints nothing, makes no transfer and
    returns the initial status 3. *)
Theorem io_multi_mask_empty_selection (cy : cdef_errors)
    (hds mode : Z) (x0 y0 width height : Q) (data : ndarray)
    (resampling : Z) (w : world) (ys xs ls ps : Z) (name : string)
    (xoff yoff xsize ysize : Z) :
  read_int (shape data) 1 = Some ys -> read_int (shape data) 2 = Some xs ->
  read_int (strides data) 1 = Some ls ->
  read_int (strides data) 2 = Some ps ->
  in_int (dtype_rev g (dtype_of data)) = true ->
  window x0 y0 width height = Some (xoff, yoff, xsize, ysize) ->
  Resampling_name g resampling = Some name ->
  options w !! option_name = None ->
  let run := io_multi_mask g cy hds mode x0 y0 width height data []
                           resampling w in
  run.1 = Return 3 /\ calls run.2 = calls w /\
  unraisable run.2 = unraisable w.
Proof.
  intros Hys Hxs Hls Hps Ht Hwin Hr Hopt run. subst run.
  rewrite (io_multi_mask_run g cy hds mode x0 y0 width height data []
             resampling w ys xs ls ps name xoff yoff xsize ysize)
    by (try assumption; cbn; lia).
  rewrite (stored_pointer_unset w Hopt).
  unfold cdef_int.
  rewrite (scoped_unset _ _ w Hopt
             (mask_loop_only_transfers g hds mode xoff yoff xsize ysize
                data xs ys ps ls [] 0 3)).
  by cbn.
Qed.

(** X3: when the option was not set before the call and
    [io_multi_mask] returns a status without having printed an
    exception, the configuration is as the call found it. *)
Theorem io_multi_mask_restores_on_return (cy : cdef_errors)
    (hds mode : Z) (x0 y0 width height : Q) (data : ndarray)
    (indexes : list Z) (resampling : Z) (w w' : world) (retval : Z) :
  options w !! option_name = None ->
  io_multi_mask g cy hds mode x0 y0 width height data indexes resampling w
  = (Return retval, w') ->
  unraisable w' = unraisable w ->
  config w' = config w.
Proof.
  intros Hopt.
  assert (Hgrow : forall (e : exn) (es : list exn), es ++ [e] <> es).
  { intros e es H. apply (f_equal length) in H.
    rewrite length_app in H. cbn in H. lia. }
  destruct (io_multi_mask_cases g cy hds mode x0 y0 width height data
              indexes resampling w)
    as (r & -> & [(e & -> & He)|
                  (val & xoff & yoff & xsize & ysize & bx & by_ & ps & ls
                   & ->)]).
  - rewrite (prelude_stop cy w e He).
    destruct (is_exception e); [|discriminate].
    destruct cy; cbn [unraised printed]; [|discriminate].
    intros [= _ <-] H. cbn in H. by apply Hgrow in H.
  - rewrite (stored_pointer_unset w Hopt).
    rewrite (scoped_unset val _ w Hopt
               (mask_loop_only_transfers g hds mode xoff yoff xsize ysize
                  data bx by_ ps ls _ 0 3)).
    match goal with
    | |- context [mask_loop g ?a1 ?a2 ?a3 ?a4 ?a5 ?a6 ?a7 ?a8 ?a9 ?a10 ?a11
                             ?a12 ?a13 ?a14 ?s] =>
        destruct (mask_loop_only_transfers g a1 a2 a3 a4 a5 a6 a7 a8 a9
                    a10 a11 a13 a12 a14 s) as (_ & _ & Hun);
        destruct (mask_loop g a1 a2 a3 a4 a5 a6 a7 a8 a9 a10 a11 a12 a13
                            a14 s) as [[rv|e] w2]
    end; cbn [snd unraisable] in Hun.
    + intros [= _ <-] _. apply config_round_trip.
    + unfold cdef_int. destruct e, cy; try discriminate;
        intros [= _ <-] H; cbn in H; rewrite Hun in H; by apply Hgrow in H.
Qed.

(** X6: a resampling value that the enumeration does not have stops
    each of the three transfer functions before anything is overridden
    or transferred: the [ValueError] is propagated, or printed with 0
    returned. *)
Theorem invalid_resampling_rejected (cy : cdef_errors)
    (h mode : Z) (x0 y0 width height : Q) (data : ndarray)
    (indexes : list Z) (resampling : Z) (w : world)
    (bands ys xs bs ls ps : Z) (xoff yoff xsize ysize : Z) :
  read_int (shape data) 0 = Some bands ->
  read_int (shape data) 1 = Some ys -> read_int (shape data) 2 = Some xs ->
  read_int (strides data) 0 = Some bs ->
  read_int (strides data) 1 = Some ls ->
  read_int (strides data) 2 = Some ps ->
  in_int (dtype_rev g (dtype_of data)) = true ->
  window x0 y0 width height = Some (xoff, yoff, xsize, ysize) ->
  Resampling_name g resampling = None ->
  let e := ValueError "not a valid Resampling" in
  let stopped := (unraised cy e, print_unraisable (printed cy e) w) in
  io_band g cy h mode x0 y0 width height data resampling w = stopped /\
  io_multi_band g cy h mode x0 y0 width height data indexes resampling w
  = stopped /\
  io_multi_mask g cy h mode x0 y0 width height data indexes resampling w
  = stopped.
Proof.
  intros Hbands Hys Hxs Hbs Hls Hps Ht Hwin Hr e stopped.
  apply window_casts in Hwin as (Hx & Hy & Hw & Hh).
  assert (Hres : forall s : world,
            Resampling_of g resampling s = (Raise e, s)).
  { intros s. unfold Resampling_of. by rewrite Hr. }
  repeat split.
  - unfold io_band. apply cdef_int_raise; [|reflexivity].
    rewrite (bind_returns _ _ _ _ _ (read_int_run _ _ _ _ Hys)).
    rewrite (bind_returns _ _ _ _ _ (read_int_run _ _ _ _ Hbands)).
    rewrite (bind_returns _ _ _ _ _ (as_int_run _ _ Ht)).
    rewrite (bind_returns _ _ _ _ _ (read_int_run _ _ _ _ Hls)).
    rewrite (bind_returns _ _ _ _ _ (read_int_run _ _ _ _ Hbs)).
    rewrite (bind_returns _ _ _ _ _ (cast_int_run _ _ _ Hx)).
    rewrite (bind_returns _ _ _ _ _ (cast_int_run _ _ _ Hy)).
    rewrite (bind_returns _ _ _ _ _ (cast_int_run _ _ _ Hw)).
    rewrite (bind_returns _ _ _ _ _ (cast_int_run _ _ _ Hh)).
    rewrite bind_run. unfold CPLGetConfigOption at 1. cbv beta iota.
    by rewrite (bind_raises _ _ _ _ _ (Hres w)).
  - unfold io_multi_band. apply cdef_int_raise; [|reflexivity].
    rewrite (bind_returns _ _ _ _ _ (read_int_run _ _ _ _ Hxs)).
    rewrite (bind_returns _ _ _ _ _ (read_int_run _ _ _ _ Hys)).
    rewrite (bind_returns _ _ _ _ _ (as_int_run _ _ Ht)).
    rewrite (bind_returns _ _ _ _ _ (read_int_run _ _ _ _ Hps)).
    rewrite (bind_returns _ _ _ _ _ (read_int_run _ _ _ _ Hls)).
    rewrite (bind_returns _ _ _ _ _ (read_int_run _ _ _ _ Hbs)).
    rewrite (bind_returns _ _ _ _ _ (cast_int_run _ _ _ Hx)).
    rewrite (bind_returns _ _ _ _ _ (cast_int_run _ _ _ Hy)).
    rewrite (bind_returns _ _ _ _ _ (cast_int_run _ _ _ Hw)).
    rewrite (bind_returns _ _ _ _ _ (cast_int_run _ _ _ Hh)).
    rewrite bind_run. unfold CPLGetConfigOption at 1. cbv beta iota.
    by rewrite (bind_raises _ _ _ _ _ (Hres w)).
  - unfold io_multi_mask. apply cdef_int_raise; [|reflexivity].
    rewrite (bind_returns _ _ _ _ _ (read_int_run _ _ _ _ Hxs)).
    rewrite (bind_returns _ _ _ _ _ (read_int_run _ _ _ _ Hys)).
    rewrite (bind_returns _ _ _ _ _ (as_int_run _ _ Ht)).
    rewrite (bind_returns _ _ _ _ _ (read_int_run _ _ _ _ Hps)).
    rewrite (bind_returns _ _ _ _ _ (read_int_run _ _ _ _ Hls)).
    rewrite (bind_returns _ _ _ _ _ (cast_int_run _ _ _ Hx)).
    rewrite (bind_returns _ _ _ _ _ (cast_int_run _ _ _ Hy)).
    rewrite (bind_returns _ _ _ _ _ (cast_int_run _ _ _ Hw)).
    rewrite (bind_returns _ _ _ _ _ (cast_int_run _ _ _ Hh)).
    rewrite bind_run. unfold CPLGetConfigOption at 1. cbv beta iota.
    by rewrite (bind_raises _ _ _ _ _ (Hres w)).
Qed.

(** X7: whatever the element type of the buffer, every transfer that
    [io_multi_mask] makes is a single-band transfer in the requested
    mode with the byte type code 1, and it makes at most one for each
    selected index. *)
Theorem io_multi_mask_byte_transfers (cy : cdef_errors)
    (hds mode : Z) (x0 y0 width height : Q) (data : ndarray)
    (indexes : list Z) (resampling : Z) (w : world) :
  exists cs,
    calls (io_multi_mask g cy hds mode x0 y0 width height data indexes
                         resampling w).2 = calls w ++ cs /\
    Forall (is_mask_transfer mode) cs /\
    (length cs <= length indexes)%nat.
Proof.
  destruct (io_multi_mask_cases g cy hds mode x0 y0 width height data
              indexes resampling w)
    as (r & -> & [(e & -> & He)|
                  (val & xoff & yoff & xsize & ysize & bx & by_ & ps & ls
                   & ->)]);
    rewrite cdef_int_calls; cbv beta.
  - exists []. cbn [snd]. rewrite app_nil_r.
    repeat split; [constructor|cbn; lia].
  - destruct (scoped_runs (stored_pointer w) val _ w
                (mask_loop_only_transfers g hds mode xoff yoff xsize ysize
                   data bx by_ ps ls
                   (take (Z.to_nat (count_of indexes)) indexes) 0 3))
      as (w1 & Hc1 & _ & -> & _).
    destruct (mask_loop_transfers g hds mode xoff yoff xsize ysize data
                bx by_ ps ls
                (take (Z.to_nat (count_of indexes)) indexes) 0 3 w1)
      as (cs & -> & F & L).
    exists cs. rewrite Hc1. repeat split; [exact F|].
    rewrite length_take in L. lia.
Qed.

(** X8: when every selected channel resolves and transfers with status
    0, and the option was not set before, [io_multi_mask] returns 0, has
    made one transfer for each index in the order of the selection, and
    has put the options back. *)
Theorem io_multi_mask_all_channels (cy : cdef_errors)
    (hds mode : Z) (x0 y0 width height : Q) (data : ndarray)
    (indexes : list Z) (resampling : Z) (w : world) (ys xs ls ps : Z)
    (name : string) (xoff yoff xsize ysize : Z)
    (cs : list native_call) :
  read_int (shape data) 1 = Some ys -> read_int (shape data) 2 = Some xs ->
  read_int (strides data) 1 = Some ls ->
  read_int (strides data) 2 = Some ps ->
  in_int (dtype_rev g (dtype_of data)) = true ->
  window x0 y0 width height = Some (xoff, yoff, xsize, ysize) ->
  Resampling_name g resampling = Some name ->
  options w !! option_name = None ->
  indexes <> [] -> Z.of_nat (length indexes) < 2 ^ 31 ->
  clean_prefix g hds mode xoff yoff xsize ysize data xs ys ps ls 0 indexes
  = Some cs ->
  io_multi_mask g cy hds mode x0 y0 width height data indexes resampling w
  = (Return 0,
     {| memory := memory w ++ [None]; options := options w;
        calls := calls w ++ cs; unraisable := unraisable w |}) /\
  length cs = length indexes.
Proof.
  intros Hys Hxs Hls Hps Ht Hwin Hr Hopt Hne Hlen Hclean.
  split; [|by apply (clean_prefix_length g) in Hclean].
  rewrite (io_multi_mask_run g cy hds mode x0 y0 width height data indexes
             resampling w ys xs ls ps name xoff yoff xsize ysize)
    by assumption.
  rewrite (stored_pointer_unset w Hopt).
  apply cdef_int_return.
  rewrite (scoped_unset _ _ w Hopt
             (mask_loop_only_transfers g hds mode xoff yoff xsize ysize
                data xs ys ps ls indexes 0 3)).
  rewrite <- (app_nil_r indexes) at 1.
  rewrite (mask_loop_prefix g _ _ _ _ _ _ _ _ _ _ _ _ _ _ _ _ _ Hclean).
  cbn [mask_loop memory options calls unraisable]. unfold_monad.
  by destruct indexes.
Qed.

End MaskTheorems.

Section FailureTheorems.
Import Shim.
Variable g : gdal.

(** X26: the channels are visited in the order of the selection.  At
    the first channel that does not resolve (band, mask band, buffer
    slice or its address) the loop raises at that channel, with the
    override still in place; the exception is propagated, or printed
    with 0 returned.  At the first transfer that reports a non-zero
    status the call stops and returns that status.  In each case the
    transfers recorded are those of the channels before, in order, and
    nothing of the rest of the selection. *)
Theorem io_multi_mask_stops_at_failure (cy : cdef_errors)
    (hds mode : Z) (x0 y0 width height : Q) (data : ndarray)
    (resampling : Z) (w : world) (ys xs ls ps : Z) (name : string)
    (xoff yoff xsize ysize : Z)
    (pre : list Z) (j : Z) (post : list Z) (cs : list native_call) :
  read_int (shape data) 1 = Some ys -> read_int (shape data) 2 = Some xs ->
  read_int (strides data) 1 = Some ls ->
  read_int (strides data) 2 = Some ps ->
  in_int (dtype_rev g (dtype_of data)) = true ->
  window x0 y0 width height = Some (xoff, yoff, xsize, ysize) ->
  Resampling_name g resampling = Some name ->
  options w !! option_name = None ->
  Z.of_nat (length (pre ++ j :: post)) < 2 ^ 31 ->
  clean_prefix g hds mode xoff yoff xsize ysize data xs ys ps ls 0 pre
  = Some cs ->
  let i := Z.of_nat (length pre) in
  let band := GDALGetRasterBand g hds (wrap_int j) in
  let hmask := GDALGetMaskBand g band in
  let run := io_multi_mask g cy hds mode x0 y0 width height data
                           (pre ++ j :: post) resampling w in
  let stopped :=
    {| memory := memory w ++ [Some (upper name)];
       options := <[option_name := length (memory w)]> (options w);
       calls := calls w ++ cs; unraisable := unraisable w |} in
  let fails e :=
    run = (unraised cy e, print_unraisable (printed cy e) stopped) in
  (band = 0 -> fails (ValueError "Null band")) /\
  (band <> 0 -> hmask = 0 -> fails (ValueError "Null mask band")) /\
  (forall e, band <> 0 -> hmask <> 0 ->
   slice_of data i = Raise e -> fails e) /\
  (forall slice, band <> 0 -> hmask <> 0 ->
   slice_of data i = Return slice -> PyArray_DATA slice = 0 ->
   fails (ValueError "NULL data")) /\
  (forall c,
   mask_transfer g hds mode xoff yoff xsize ysize data xs ys ps ls i j
   = Some c ->
   status g c <> 0 ->
   run = (Return (status g c),
          {| memory := memory w ++ [None]; options := options w;
             calls := calls w ++ cs ++ [c];
             unraisable := unraisable w |})).
Proof.
  intros Hys Hxs Hls Hps Ht Hwin Hr Hopt Hlen Hpre i band hmask run
    stopped fails.
  assert (Hrun : run = cdef_int cy (fun _ =>
    match mask_loop g hds mode xoff yoff xsize ysize data xs ys ps ls i
                    (j :: post) (match pre with [] => 3 | _ => 0 end)
                    stopped with
    | (Return retval, w2) =>
        (Return retval,
         {| memory := memory w ++ [None]; options := options w;
            calls := calls w2; unraisable := unraisable w |})
    | (Raise e, w2) => (Raise e, w2)
    end) w).
  { subst run.
    rewrite (io_multi_mask_run g cy hds mode x0 y0 width height data
               (pre ++ j :: post) resampling w ys xs ls ps name
               xoff yoff xsize ysize) by assumption.
    rewrite (stored_pointer_unset w Hopt). unfold cdef_int.
    rewrite (scoped_unset _ _ w Hopt
               (mask_loop_only_transfers g hds mode xoff yoff xsize ysize
                  data xs ys ps ls (pre ++ j :: post) 0 3)).
    rewrite (mask_loop_prefix g _ _ _ _ _ _ _ _ _ _ _ _ _ _ _ _ _ Hpre).
    cbn [memory options calls unraisable]. rewrite Z.add_0_l.
    reflexivity. }
  subst fails. cbv beta. rewrite Hrun. clear Hrun.
  cbn [mask_loop]. unfold getitem. unfold_monad.
  fold band. fold hmask.
  split; [|split; [|split; [|split]]].
  - intros ->. by apply cdef_int_raise.
  - intros Hb ->. apply Z.eqb_neq in Hb. rewrite Hb.
    by apply cdef_int_raise.
  - intros e Hb Hm Hs. apply Z.eqb_neq in Hb, Hm. rewrite Hb, Hm, Hs.
    apply cdef_int_raise; [reflexivity|].
    by apply slice_of_raises in Hs.
  - intros slice Hb Hm Hs Hd. apply Z.eqb_neq in Hb, Hm.
    rewrite Hb, Hm, Hs, Hd. by apply cdef_int_raise.
  - intros c Hc Hst. unfold mask_transfer in Hc. fold band hmask in Hc.
    destruct (slice_of data i) as [slice|e]; [|discriminate].
    destruct (band =? 0); [discriminate|].
    destruct (hmask =? 0); [discriminate|].
    destruct (PyArray_DATA slice =? 0); [discriminate|].
    injection Hc as <-. unfold transfer.
    apply Z.eqb_neq in Hst. rewrite Hst.
    subst stopped. cbn [memory options calls unraisable].
    rewrite <- app_assoc. reflexivity.
Qed.

(** X27: when the option was set before the call, the value that
    [io_band] saved is a pointer into the entry that its own override
    frees; the transfer is made, and putting the value back reads freed
    memory. *)
Theorem io_band_restores_from_freed_value (cy : cdef_errors)
    (band mode : Z) (x0 y0 width height : Q) (data : ndarray)
    (resampling : Z) (w : world) (ys xs ls ps : Z) (name : string)
    (xoff yoff xsize ysize : Z) (p : nat) :
  read_int (shape data) 0 = Some ys -> read_int (shape data) 1 = Some xs ->
  read_int (strides data) 0 = Some ls ->
  read_int (strides data) 1 = Some ps ->
  in_int (dtype_rev g (dtype_of data)) = true ->
  window x0 y0 width height = Some (xoff, yoff, xsize, ysize) ->
  Resampling_name g resampling = Some name ->
  options w !! option_name = Some p ->
  let call := RasterIO band mode xoff yoff xsize ysize (PyArray_DATA data)
                xs ys (dtype_rev g (dtype_of data)) ps ls in
  let run := io_band g cy band mode x0 y0 width height data resampling w in
  run.1 = Raise (UndefinedBehaviour "read of freed memory") /\
  calls run.2 = calls w ++ [call].
Proof.
  intros Hys Hxs Hls Hps Ht Hwin Hr Hopt call run. subst run.
  apply window_casts in Hwin as (Hx & Hy & Hw & Hh).
  assert (Hbody : forall body,
    body w = (Raise (UndefinedBehaviour "read of freed memory"),
              {| memory := <[p := None]> (memory w) ++ [None];
                 options := delete option_name (options w);
                 calls := calls w ++ [call];
                 unraisable := unraisable w |}) ->
    (cdef_int cy body w).1
    = Raise (UndefinedBehaviour "read of freed memory") /\
    calls (cdef_int cy body w).2 = calls w ++ [call]).
  { intros body E. unfold cdef_int. by rewrite E. }
  unfold io_band. apply Hbody.
  rewrite (bind_returns _ _ _ _ _ (read_int_run _ _ _ _ Hxs)).
  rewrite (bind_returns _ _ _ _ _ (read_int_run _ _ _ _ Hys)).
  rewrite (bind_returns _ _ _ _ _ (as_int_run _ _ Ht)).
  rewrite (bind_returns _ _ _ _ _ (read_int_run _ _ _ _ Hps)).
  rewrite (bind_returns _ _ _ _ _ (read_int_run _ _ _ _ Hls)).
  rewrite (bind_returns _ _ _ _ _ (cast_int_run _ _ _ Hx)).
  rewrite (bind_returns _ _ _ _ _ (cast_int_run _ _ _ Hy)).
  rewrite (bind_returns _ _ _ _ _ (cast_int_run _ _ _ Hw)).
  rewrite (bind_returns _ _ _ _ _ (cast_int_run _ _ _ Hh)).
  rewrite bind_run. unfold CPLGetConfigOption at 1. rewrite Hopt.
  rewrite (bind_returns _ _ _ _ _ (Resampling_of_member g _ _ _ Hr)).
  fold call.
  unfold CPLSetConfigOption, CPLFree, read, transfer. unfold_monad.
  rewrite Hopt. cbn [memory options calls unraisable].
  rewrite lookup_insert_eq. cbn [memory options calls unraisable].
  rewrite delete_insert_eq, delete_delete_eq.
  remember (<[p := None]> (memory w)) as m eqn:Em.
  assert (Hm : <[length m := None]> (m ++ [Some (upper name)])
               = m ++ [None]).
  { rewrite <- (Nat.add_0_r (length m)). by rewrite insert_app_r. }
  rewrite Hm.
  assert (Hfreed : forall s, (m ++ [None]) !! p <> Some (Some s)).
  { intros s. destruct (decide (p < length m)%nat) as [Hlt|Hge].
    - rewrite lookup_app_l by exact Hlt. subst m.
      rewrite length_insert in Hlt.
      by rewrite list_lookup_insert_eq.
    - destruct (decide (p = length m)) as [->|Hne].
      + by rewrite list_lookup_middle.
      + rewrite lookup_ge_None_2; [discriminate|].
        rewrite length_app. cbn. lia. }
  destruct ((m ++ [None]) !! p) as [[s|]|] eqn:E; [|reflexivity..].
  by destruct (Hfreed s).
Qed.

End FailureTheorems.

(** ** Traces *)

Section Traces.
Import Warp.

Variable P : event -> Prop.

Lemma emits_only_ret {A} (a : A) : emits_only P (mret a).
Proof. intros t. exists []. by rewrite app_nil_r. Qed.

Lemma emits_only_raise {A} (e : exn) : emits_only P (@raise _ A e).
Proof. intros t. exists []. by rewrite app_nil_r. Qed.

Lemma emits_only_answer {A} (o : outcome A) : emits_only P (answer o).
Proof. intros t. exists []. by rewrite app_nil_r. Qed.

Lemma emits_only_emit (e : event) : P e -> emits_only P (emit e).
Proof. intros H t. exists [e]. split; [reflexivity|]. by constructor. Qed.

Lemma emits_only_bind {A B} (m : M (list event) A)
    (k : A -> M (list event) B) :
  emits_only P m -> (forall a, emits_only P (k a)) ->
  emits_only P (m ≫= k).
Proof.
  intros Hm Hk t. rewrite bind_run.
  destruct (Hm t) as (evs1 & E1 & F1).
  destruct (m t) as [[a|e] t1]; cbn [snd] in E1; subst t1.
  - destruct (Hk a (t ++ evs1)) as (evs2 & E2 & F2).
    exists (evs1 ++ evs2). rewrite E2, app_assoc. split; [reflexivity|].
    by apply Forall_app.
  - by exists evs1.
Qed.

Lemma emits_only_bind_with {A B} (m : M (list event) A)
    (k : A -> M (list event) B) (Q : A -> Prop) :
  emits_only P m -> returns m Q -> (forall a, Q a -> emits_only P (k a)) ->
  emits_only P (m ≫= k).
Proof.
  intros Hm HQ Hk t. rewrite bind_run.
  destruct (Hm t) as (evs1 & E1 & F1).
  destruct (m t) as [[a|e] t1] eqn:Em; cbn [snd] in E1; subst t1.
  - destruct (Hk a (HQ _ _ _ Em) (t ++ evs1)) as (evs2 & E2 & F2).
    exists (evs1 ++ evs2). rewrite E2, app_assoc. split; [reflexivity|].
    by apply Forall_app.
  - by exists evs1.
Qed.

Lemma emits_only_try_finally {A} (m : M (list event) A)
    (fin : M (list event) unit) :
  emits_only P m -> emits_only P fin -> emits_only P (try_finally m fin).
Proof.
  intros Hm Hf t. unfold try_finally.
  destruct (Hm t) as (evs1 & E1 & F1).
  destruct (m t) as [r t1]; cbn [snd] in E1; subst t1.
  destruct (Hf (t ++ evs1)) as (evs2 & E2 & F2).
  exists (evs1 ++ evs2). rewrite app_assoc. split; [|by apply Forall_app].
  destruct (fin (t ++ evs1)) as [[[]|e] t2]; exact E2.
Qed.

Lemma emits_only_try_except {A} (m : M (list event) A)
    (h : exn -> M (list event) A) :
  emits_only P m -> (forall e, emits_only P (h e)) ->
  emits_only P (try_except m h).
Proof.
  intros Hm Hh t. unfold try_except.
  destruct (Hm t) as (evs1 & E1 & F1).
  destruct (m t) as [[a|e] t1]; cbn [snd] in E1; subst t1.
  - by exists evs1.
  - destruct (Hh e (t ++ evs1)) as (evs2 & E2 & F2).
    exists (evs1 ++ evs2). rewrite E2, app_assoc. split; [reflexivity|].
    by apply Forall_app.
Qed.

Lemma emits_only_check (r : report) : emits_only P (check r).
Proof.
  destruct r as [[cls msg]|];
    [apply emits_only_raise | apply (emits_only_ret tt)].
Qed.

Lemma emits_only_item (l : list Z) (i : nat) : emits_only P (item l i).
Proof.
  unfold item.
  destruct (l !! i); [apply emits_only_ret | apply emits_only_raise].
Qed.

Lemma emits_only_index {A} (l : list A) (i : nat) : emits_only P (index l i).
Proof.
  unfold index.
  destruct (l !! i); [apply emits_only_ret | apply emits_only_raise].
Qed.

Lemma emits_only_for_range {A} (f : nat -> M (list event) A) (n : nat) :
  (forall i, emits_only P (f i)) ->
  forall start, emits_only P (for_range f start n).
Proof.
  intros Hf. induction n as [|n IH]; intros start; cbn [for_range].
  - apply (emits_only_ret []).
  - apply emits_only_bind; [apply Hf|]. intros x.
    apply emits_only_bind; [apply IH|]. intros xs. apply emits_only_ret.
Qed.

Lemma emits_only_last_two (r : raster) : emits_only P (last_two r).
Proof.
  destruct r as [d|b|]; cbn [last_two].
  - destruct (rev (shape d)) as [|cols [|rows rest]];
      first [apply emits_only_raise | apply (emits_only_ret (_, _))].
  - apply (emits_only_ret (band_shape b)).
  - apply emits_only_raise.
Qed.

End Traces.

Ltac trace_step :=
  match goal with
  | |- emits_only _ (_ ≫= _) => apply emits_only_bind; [|intros]
  | |- emits_only _ (mret _) => apply emits_only_ret
  | |- emits_only _ (ret _) => apply (emits_only_ret _)
  | |- emits_only _ (raise _) => apply emits_only_raise
  | |- emits_only _ (answer _) => apply emits_only_answer
  | |- emits_only _ (check _) => apply emits_only_check
  | |- emits_only _ (item _ _) => apply emits_only_item
  | |- emits_only _ (Warp.index _ _) => apply emits_only_index
  | |- emits_only _ (Warp.last_two _) => apply emits_only_last_two
  | |- emits_only _ (Warp.for_range _ _ _) =>
      apply emits_only_for_range; intros
  | |- emits_only _ (try_finally _ _) => apply emits_only_try_finally
  | |- emits_only _ (try_except _ _) =>
      apply emits_only_try_except; [|intros]
  | |- emits_only _ (Warp.emit _) => apply emits_only_emit
  | |- emits_only _ (match ?x with _ => _ end) => destruct x
  | |- emits_only _ (let _ := _ in _) => cbv zeta
  end.

(** ** Rounding to integers, to binary floating point and to decimals *)

Section RoundingToIntegers.
Local Open Scope Q_scope.

Lemma rne_proper (q q' : Q) : q == q' -> rne q = rne q'.
Proof. intros H. unfold rne. by rewrite (Qred_complete q q' H). Qed.

(** The integer [rne q] is within one half of [q], and is even when
    [q] is half-way between two integers. *)
Lemma rne_spec (q : Q) :
  let n := Qnum (Qred q) in
  let d := Z.pos (Qden (Qred q)) in
  let k := rne q in
  (- d <= 2 * (k * d - n) <= d)%Z /\
  ((2 * (k * d - n) = d \/ 2 * (k * d - n) = - d)%Z -> Z.even k = true).
Proof.
  intros n d k. subst k. unfold rne. fold n. fold d.
  assert (Hd : (0 < d)%Z) by (unfold d; lia).
  pose proof (Z.div_mod n d ltac:(lia)) as Hdm.
  pose proof (Z.mod_pos_bound n d Hd) as Hr.
  set (fl := (n / d)%Z) in *. set (r := (n mod d)%Z) in *.
  destruct (Z.ltb_spec (2 * r) d) as [H1|H1].
  - split; [nia|]. intros [H|H]; nia.
  - destruct (Z.ltb_spec d (2 * r)) as [H2|H2].
    + split; [nia|]. intros [H|H]; nia.
    + assert (H3 : (2 * r = d)%Z) by lia.
      destruct (Z.even fl) eqn:He.
      * split; [nia|]. intros _. exact He.
      * split; [nia|]. intros _.
        rewrite Z.even_add, He. reflexivity.
Qed.

Lemma Qred_fraction (q : Q) :
  q * inject_Z (Z.pos (Qden (Qred q))) == inject_Z (Qnum (Qred q)).
Proof.
  rewrite <- (Qred_correct q) at 1.
  destruct (Qred q) as [n d]. cbn [Qnum Qden].
  unfold Qeq, Qmult, inject_Z. cbn. lia.
Qed.

Lemma rne_error (q : Q) :
  inject_Z (rne q) - q <= 1 # 2 /\ q - inject_Z (rne q) <= 1 # 2.
Proof.
  destruct (rne_spec q) as [[H1 H2] _].
  pose proof (Qred_fraction q) as Hq.
  set (n := Qnum (Qred q)) in *. set (d := Z.pos (Qden (Qred q))) in *.
  set (k := rne q) in *.
  assert (Hd : 0 < inject_Z d).
  { change 0 with (inject_Z 0). rewrite <- Zlt_Qlt. unfold d. lia. }
  assert (A1 : - inject_Z d <= 2 * (inject_Z k * inject_Z d - inject_Z n)).
  { unfold Qle, Qminus, Qplus, Qmult, Qopp, inject_Z. cbn. lia. }
  assert (A2 : 2 * (inject_Z k * inject_Z d - inject_Z n) <= inject_Z d).
  { unfold Qle, Qminus, Qplus, Qmult, Qopp, inject_Z. cbn. lia. }
  clear H1 H2.
  generalize dependent (inject_Z n). generalize dependent (inject_Z d).
  generalize (inject_Z k). clear. intros K D HD N HN H1 H2.
  split; nra.
Qed.

Lemma inject_Z_lt_1 (a b : Z) :
  inject_Z a - inject_Z b < 1 -> (a <= b)%Z.
Proof.
  intros H.
  assert (H' : inject_Z a < inject_Z (b + 1)).
  { rewrite inject_Z_plus. change (inject_Z 1) with 1. lra. }
  rewrite <- Zlt_Qlt in H'. lia.
Qed.

Lemma rne_monotone (q q' : Q) : q <= q' -> (rne q <= rne q')%Z.
Proof.
  intros H.
  destruct (rne_error q) as [H1 _]. destruct (rne_error q') as [_ H2].
  destruct (Z_le_gt_dec (rne q) (rne q')) as [|Hgt]; [assumption|].
  assert (Hk : inject_Z (rne q') + 1 <= inject_Z (rne q)).
  { change 1 with (inject_Z 1). rewrite <- inject_Z_plus.
    rewrite <- Zle_Qle. lia. }
  assert (Heq : q == q') by lra.
  apply rne_proper in Heq. lia.
Qed.

Lemma rne_integer (n : Z) : rne (inject_Z n) = n.
Proof.
  destruct (rne_error (inject_Z n)) as [H1 H2].
  apply Z.le_antisymm; apply inject_Z_lt_1; lra.
Qed.

(** [rne q] is a nearest integer. *)
Lemma rne_nearest (q : Q) (m : Z) :
  Qabs (inject_Z (rne q) - q) <= Qabs (inject_Z m - q).
Proof.
  destruct (rne_error q) as [H1 H2].
  destruct (Z.eq_dec m (rne q)) as [->|Hne]; [lra|].
  assert (Hfar : 1 # 2 <= Qabs (inject_Z m - q)).
  { destruct (Z_lt_le_dec m (rne q)) as [Hlt|Hge].
    - assert (inject_Z m + 1 <= inject_Z (rne q)).
      { change 1 with (inject_Z 1). rewrite <- inject_Z_plus.
        rewrite <- Zle_Qle. lia. }
      apply Qabs_case; intros; lra.
    - assert (inject_Z (rne q) + 1 <= inject_Z m).
      { change 1 with (inject_Z 1). rewrite <- inject_Z_plus.
        rewrite <- Zle_Qle. lia. }
      apply Qabs_case; intros; lra. }
  apply Qabs_case; intros; lra.
Qed.

Lemma rne_tie (q : Q) (k : Z) :
  q == inject_Z k + (1 # 2) -> Z.even (rne q) = true.
Proof.
  intros H. destruct (rne_spec q) as [[H1 H2] Heven]. apply Heven.
  pose proof (Qred_fraction q) as Hq.
  set (n := Qnum (Qred q)) in *. set (d := Z.pos (Qden (Qred q))) in *.
  assert (Hz : ((2 * k + 1) * d = 2 * n)%Z).
  { assert (Hz : (2 * inject_Z k + 1) * inject_Z d == 2 * inject_Z n) by nra.
    unfold Qeq, Qplus, Qmult, inject_Z in Hz. cbn in Hz. lia. }
  assert (Hd : (0 < d)%Z) by (unfold d; lia).
  assert (Hk : (rne q = k \/ rne q = k + 1)%Z) by nia.
  destruct Hk as [Hk|Hk]; rewrite Hk in *; [right|left]; nia.
Qed.

End RoundingToIntegers.

Section PowersOfTwo.
Local Open Scope Q_scope.

Lemma pow2_pos (e : Z) : 0 < pow2 e.
Proof. apply Qpower_0_lt. reflexivity. Qed.

Lemma pow2_plus (a b : Z) : pow2 (a + b) == pow2 a * pow2 b.
Proof. apply Qpower_plus. discriminate. Qed.

Lemma pow2_succ (e : Z) : pow2 (e + 1) == 2 * pow2 e.
Proof. rewrite pow2_plus. change (pow2 1) with 2. ring. Qed.

Lemma pow2_le (a b : Z) : (a <= b)%Z -> pow2 a <= pow2 b.
Proof. intros H. apply Qpower_le_compat_l; [assumption|discriminate]. Qed.

Lemma pow2_lt_inv (a b : Z) : pow2 a < pow2 b -> (a < b)%Z.
Proof. intros H. eapply Qpower_lt_compat_l_inv; [exact H|reflexivity]. Qed.

Lemma pow2_natural (e : Z) : (0 <= e)%Z -> pow2 e == inject_Z (2 ^ e).
Proof. intros H. unfold pow2. by rewrite Zpower_Qpower. Qed.

Lemma log2_bounds (n : Z) :
  (0 < n)%Z ->
  pow2 (Z.log2 n) <= inject_Z n /\ inject_Z n < pow2 (Z.log2 n + 1).
Proof.
  intros H. destruct (Z.log2_spec n H) as [H1 H2].
  pose proof (Z.log2_nonneg n) as H0.
  rewrite !pow2_natural by lia.
  rewrite <- Zle_Qle, <- Zlt_Qlt. change (Z.succ (Z.log2 n)) with (Z.log2 n + 1)%Z in H2.
  split; assumption.
Qed.

Lemma ilog2_proper (a a' : Q) : a == a' -> ilog2 a = ilog2 a'.
Proof.
  intros H. unfold ilog2. rewrite (Qred_complete a a' H).
  reflexivity.
Qed.

Lemma ilog2_bounds (a : Q) :
  0 < a -> pow2 (ilog2 a) <= a /\ a < pow2 (ilog2 a + 1).
Proof.
  intros Ha. unfold ilog2.
  pose proof (Qred_fraction a) as Hq.
  pose proof (Qred_correct a) as Hred.
  set (r := Qred a) in *.
  set (n := Qnum r) in *. set (d := Z.pos (Qden r)) in *.
  assert (Hd : (0 < d)%Z) by (unfold d; lia).
  assert (HD : 0 < inject_Z d).
  { change 0 with (inject_Z 0). by rewrite <- Zlt_Qlt. }
  assert (Hn : (0 < n)%Z).
  { assert (HN : 0 < inject_Z n) by nra.
    change 0 with (inject_Z 0) in HN. by rewrite <- Zlt_Qlt in HN. }
  destruct (log2_bounds n Hn) as [N1 N2].
  destruct (log2_bounds d Hd) as [D1 D2].
  rewrite pow2_succ in N2, D2.
  set (e := (Z.log2 n - Z.log2 d)%Z).
  assert (He : pow2 e * pow2 (Z.log2 d) == pow2 (Z.log2 n)).
  { rewrite <- pow2_plus. unfold e.
    by replace (Z.log2 n - Z.log2 d + Z.log2 d)%Z with (Z.log2 n) by lia. }
  pose proof (pow2_pos e) as E0.
  pose proof (pow2_pos (Z.log2 d)) as B0.
  assert (Hup : a < 2 * pow2 e).
  { destruct (Qlt_le_dec a (2 * pow2 e)) as [|Hge]; [assumption|].
    exfalso.
    assert (2 * pow2 e * inject_Z d <= a * inject_Z d) by nra.
    assert (2 * pow2 e * pow2 (Z.log2 d) <= 2 * pow2 e * inject_Z d) by nra.
    lra. }
  assert (Hlow : pow2 e < 2 * a).
  { destruct (Qlt_le_dec (pow2 e) (2 * a)) as [|Hge]; [assumption|].
    exfalso.
    assert (2 * a * inject_Z d <= pow2 e * inject_Z d) by nra.
    assert (pow2 e * inject_Z d < pow2 e * (2 * pow2 (Z.log2 d))) by nra.
    lra. }
  assert (Hr : Qle_bool (pow2 e) r = Qle_bool (pow2 e) a).
  { destruct (Qle_bool (pow2 e) a) eqn:Hb.
    - rewrite Qle_bool_iff in *. by rewrite Hred.
    - destruct (Qle_bool (pow2 e) r) eqn:Hb'; [|reflexivity].
      rewrite Qle_bool_iff in Hb'. rewrite Hred in Hb'.
      rewrite <- Qle_bool_iff in Hb'. congruence. }
  rewrite Hr.
  destruct (Qle_bool (pow2 e) a) eqn:Hb.
  - rewrite Qle_bool_iff in Hb. rewrite pow2_succ. split; assumption.
  - assert (Hlt : a < pow2 e).
    { destruct (Qlt_le_dec a (pow2 e)) as [|Hge]; [assumption|].
      rewrite <- Qle_bool_iff in Hge. congruence. }
    replace (e - 1 + 1)%Z with e by lia.
    assert (Hhalf : 2 * pow2 (e - 1) == pow2 e).
    { rewrite <- pow2_succ. by replace (e - 1 + 1)%Z with e by lia. }
    split; [lra|assumption].
Qed.

Lemma ilog2_unique (a : Q) (e : Z) :
  pow2 e <= a -> a < pow2 (e + 1) -> ilog2 a = e.
Proof.
  intros H1 H2.
  assert (Ha : 0 < a) by (pose proof (pow2_pos e); lra).
  destruct (ilog2_bounds a Ha) as [L1 L2].
  assert (ilog2 a < e + 1)%Z by (apply pow2_lt_inv; lra).
  assert (e < ilog2 a + 1)%Z by (apply pow2_lt_inv; lra).
  lia.
Qed.

Lemma ilog2_monotone (a b : Q) : 0 < a -> a <= b -> (ilog2 a <= ilog2 b)%Z.
Proof.
  intros Ha Hab.
  destruct (ilog2_bounds a Ha) as [A1 A2].
  destruct (ilog2_bounds b ltac:(lra)) as [B1 B2].
  assert (ilog2 a < ilog2 b + 1)%Z by (apply pow2_lt_inv; lra).
  lia.
Qed.

End PowersOfTwo.

Section BinaryRounding.
Local Open Scope Q_scope.

Variables prec emin : Z.
Hypothesis prec_positive : (1 <= prec)%Z.

Local Abbreviation fl := (round_binary prec emin).
Local Abbreviation step a := (pow2 (grid prec emin a)).
Local Abbreviation mantissa a := (rne (a / step a)).

Lemma fl_eq (a : Q) : fl a == inject_Z (mantissa a) * step a.
Proof. unfold round_binary. apply Qred_correct. Qed.

Lemma fl_proper (a a' : Q) : a == a' -> fl a = fl a'.
Proof.
  intros H. unfold round_binary. rewrite (ilog2_proper a a' H).
  apply Qred_complete.
  set (s := (Z.max (ilog2 a') emin - (prec - 1))%Z).
  rewrite (rne_proper (a / pow2 s) (a' / pow2 s)); [reflexivity|].
  by rewrite H.
Qed.

Lemma fl_canonical (a : Q) (q : Q) : fl a == q -> fl a = Qred q.
Proof.
  intros H. unfold round_binary in *. apply Qred_complete.
  by rewrite <- H, Qred_correct.
Qed.

Lemma fl_reduced (a : Q) : Qred (fl a) = fl a.
Proof. symmetry. by apply fl_canonical. Qed.

Lemma fl_zero : fl 0 = 0.
Proof.
  rewrite (fl_canonical 0 0); [reflexivity|].
  rewrite fl_eq.
  rewrite (rne_proper _ (inject_Z 0)).
  - rewrite rne_integer. change (inject_Z 0) with 0. ring.
  - change (inject_Z 0) with 0. unfold Qdiv. ring.
Qed.

Lemma scaled (a : Q) (s : Z) : a / pow2 s * pow2 s == a.
Proof. pose proof (pow2_pos s). field. lra. Qed.

Lemma pow2_integer : pow2 prec == inject_Z (2 ^ prec).
Proof. apply pow2_natural. lia. Qed.

Lemma pow2_half_integer : pow2 (prec - 1) == inject_Z (2 ^ (prec - 1)).
Proof. apply pow2_natural. lia. Qed.

Lemma binade_top (e : Z) :
  pow2 (e + 1) == pow2 prec * pow2 (e - (prec - 1)).
Proof. rewrite <- pow2_plus. by replace (prec + (e - (prec - 1)))%Z with (e + 1)%Z by lia. Qed.

Lemma binade_bottom (e : Z) :
  pow2 e == pow2 (prec - 1) * pow2 (e - (prec - 1)).
Proof. rewrite <- pow2_plus. by replace (prec - 1 + (e - (prec - 1)))%Z with e by lia. Qed.

(** The mantissa of a positive number lies between [0] and [2^prec], and
    is at least [2^(prec-1)] above the subnormal range. *)
Lemma mantissa_range (a : Q) :
  0 < a ->
  (0 <= mantissa a <= 2 ^ prec)%Z /\
  ((emin <= ilog2 a)%Z -> (2 ^ (prec - 1) <= mantissa a)%Z).
Proof.
  intros Ha. destruct (ilog2_bounds a Ha) as [L U].
  unfold grid. set (e := Z.max (ilog2 a) emin).
  set (s := (e - (prec - 1))%Z).
  pose proof (pow2_pos s) as Hs. pose proof (scaled a s) as Hx.
  set (x := a / pow2 s) in *.
  assert (Htop : a <= pow2 (e + 1)).
  { apply Qle_trans with (pow2 (ilog2 a + 1)); [lra|]. apply pow2_le. lia. }
  rewrite binade_top in Htop. fold s in Htop.
  pose proof (pow2_pos prec) as Hp.
  assert (X1 : x <= pow2 prec) by nra.
  assert (X0 : inject_Z 0 <= x) by (change (inject_Z 0) with 0; nra).
  rewrite pow2_integer in X1.
  apply rne_monotone in X1, X0. rewrite rne_integer in X1, X0.
  split; [lia|]. intros Hn.
  assert (He : e = ilog2 a) by lia.
  rewrite <- He in L. rewrite binade_bottom in L. fold s in L.
  pose proof (pow2_pos (prec - 1)) as Hp'.
  assert (X2 : pow2 (prec - 1) <= x) by nra.
  rewrite pow2_half_integer in X2.
  apply rne_monotone in X2. by rewrite rne_integer in X2.
Qed.

Lemma fl_nonneg (a : Q) : 0 <= a -> 0 <= fl a.
Proof.
  intros Ha. destruct (Qle_lt_or_eq _ _ Ha) as [Hpos|Hz].
  - destruct (mantissa_range a Hpos) as [[H0 _] _].
    rewrite fl_eq. pose proof (pow2_pos (grid prec emin a)).
    rewrite Zle_Qle in H0. change (inject_Z 0) with 0 in H0. nra.
  - rewrite (fl_proper a 0) by (symmetry; exact Hz). rewrite fl_zero. lra.
Qed.

(** A number on the grid of its own binade is its own rounding. *)
Lemma fl_on_grid (y : Q) (m : Z) :
  y == inject_Z m * step y -> fl y == y.
Proof.
  intros H. rewrite fl_eq.
  rewrite (rne_proper _ (inject_Z m)).
  - rewrite rne_integer. by symmetry.
  - pose proof (pow2_pos (grid prec emin y)) as Hs.
    rewrite H at 1. field. lra.
Qed.

Lemma fl_grid_point (e : Z) (m : Z) :
  (emin <= e)%Z -> (0 <= m <= 2 ^ prec)%Z ->
  ((2 ^ (prec - 1) <= m)%Z \/ e = emin) ->
  fl (inject_Z m * pow2 (e - (prec - 1))) == inject_Z m * pow2 (e - (prec - 1)).
Proof.
  intros He Hm Hlow.
  set (s := (e - (prec - 1))%Z). set (y := inject_Z m * pow2 s).
  pose proof (pow2_pos s) as Hs.
  pose proof (pow2_pos prec) as Hp. pose proof (pow2_pos (prec - 1)) as Hp'.
  pose proof (binade_top e) as Htop. pose proof (binade_bottom e) as Hbot.
  fold s in Htop, Hbot.
  assert (Hhalf : 2 * pow2 (prec - 1) == pow2 prec).
  { rewrite <- pow2_succ. by replace (prec - 1 + 1)%Z with prec by lia. }
  assert (M0 : 0 <= inject_Z m).
  { change 0 with (inject_Z 0). rewrite <- Zle_Qle. lia. }
  assert (M1 : inject_Z m <= pow2 prec).
  { rewrite pow2_integer, <- Zle_Qle. lia. }
  destruct (Z.eq_dec m 0%Z) as [->|Hm0].
  { rewrite (fl_proper y 0); [rewrite fl_zero|]; unfold y;
      change (inject_Z 0) with 0; ring. }
  assert (M0' : 1 <= inject_Z m).
  { change 1 with (inject_Z 1). rewrite <- Zle_Qle. lia. }
  assert (Hy : 0 < y) by (unfold y; nra).
  destruct (Z.eq_dec m (2 ^ prec)%Z) as [Hmax|Hmax].
  { assert (Hyv : y == pow2 (e + 1)).
    { unfold y. rewrite Hmax, <- pow2_integer. by rewrite Htop. }
    assert (Hl : ilog2 y = (e + 1)%Z).
    { apply ilog2_unique; rewrite Hyv; [lra|].
      rewrite (pow2_succ (e + 1)). pose proof (pow2_pos (e + 1)). lra. }
    apply (fl_on_grid y (2 ^ (prec - 1))%Z).
    unfold grid. rewrite Hl.
    replace (Z.max (e + 1) emin - (prec - 1))%Z with (s + 1)%Z by (unfold s; lia).
    rewrite pow2_succ, <- pow2_half_integer, Hyv, Htop, <- Hhalf. ring. }
  assert (M1' : inject_Z m + 1 <= pow2 prec).
  { rewrite pow2_integer. change 1 with (inject_Z 1).
    rewrite <- inject_Z_plus, <- Zle_Qle. lia. }
  assert (Hup : y < pow2 (e + 1)) by (unfold y; nra).
  apply (fl_on_grid y m).
  assert (Hg : Z.max (ilog2 y) emin = e); [|unfold grid; by rewrite Hg].
  destruct (Z_le_gt_dec (2 ^ (prec - 1))%Z m) as [Hn|Hsub].
  - assert (M2 : pow2 (prec - 1) <= inject_Z m).
    { rewrite pow2_half_integer, <- Zle_Qle. lia. }
    rewrite (ilog2_unique y e); [lia| |assumption].
    unfold y. nra.
  - destruct Hlow as [Hlow|Hlow]; [lia|]. subst e.
    assert (M2 : inject_Z m + 1 <= pow2 (prec - 1)).
    { rewrite pow2_half_integer. change 1 with (inject_Z 1).
      rewrite <- inject_Z_plus, <- Zle_Qle. lia. }
    assert (Hlt : y < pow2 emin) by (unfold y; nra).
    destruct (ilog2_bounds y Hy) as [L _].
    assert (ilog2 y < emin)%Z by (apply pow2_lt_inv; lra).
    lia.
Qed.

(** Rounding twice is rounding once. *)
Lemma fl_idempotent (a : Q) : 0 <= a -> fl (fl a) = fl a.
Proof.
  intros Ha.
  rewrite <- (fl_reduced a) at 2. apply fl_canonical.
  destruct (Qle_lt_or_eq _ _ Ha) as [Hpos|Hz].
  - destruct (mantissa_range a Hpos) as [Hr Hn].
    rewrite (fl_proper _ _ (fl_eq a)).
    apply Qeq_trans with (inject_Z (mantissa a) * step a);
      [|symmetry; apply fl_eq].
    unfold grid. apply fl_grid_point; [lia|assumption|].
    destruct (Z_le_gt_dec emin (ilog2 a)); [left; auto|right; lia].
  - rewrite (fl_proper a 0) by (symmetry; exact Hz).
    by rewrite !fl_zero.
Qed.

(** Bounds of the rounding of a positive number by its binade. *)
Lemma fl_bounds (a : Q) :
  0 < a ->
  fl a <= pow2 (Z.max (ilog2 a) emin + 1) /\
  ((emin <= ilog2 a)%Z -> pow2 (ilog2 a) <= fl a).
Proof.
  intros Ha. destruct (mantissa_range a Ha) as [[H0 H1] Hn].
  rewrite fl_eq. unfold grid in *. set (e := Z.max (ilog2 a) emin) in *.
  pose proof (pow2_pos (e - (prec - 1))) as Hs.
  rewrite Zle_Qle in H1. rewrite <- pow2_integer in H1.
  split.
  - rewrite binade_top. nra.
  - intros Hge. specialize (Hn Hge).
    rewrite Zle_Qle in Hn. rewrite <- pow2_half_integer in Hn.
    replace (ilog2 a) with e at 1 by lia.
    rewrite (binade_bottom e). nra.
Qed.

Lemma fl_monotone (a b : Q) : 0 <= a -> a <= b -> fl a <= fl b.
Proof.
  intros Ha Hab. destruct (Qle_lt_or_eq _ _ Ha) as [Hpos|Hz].
  2:{ rewrite (fl_proper a 0) by (symmetry; exact Hz). rewrite fl_zero.
      apply fl_nonneg. lra. }
  assert (Hb : 0 < b) by lra.
  pose proof (ilog2_monotone a b Hpos Hab) as Hl.
  destruct (Z.eq_dec (Z.max (ilog2 a) emin) (Z.max (ilog2 b) emin)) as [He|He].
  - rewrite !fl_eq. unfold grid. rewrite <- He.
    set (s := (Z.max (ilog2 a) emin - (prec - 1))%Z).
    pose proof (pow2_pos s) as Hs.
    assert (Hx : a / pow2 s <= b / pow2 s).
    { pose proof (scaled a s). pose proof (scaled b s). nra. }
    apply rne_monotone in Hx. rewrite Zle_Qle in Hx. nra.
  - destruct (fl_bounds a Hpos) as [A _].
    destruct (fl_bounds b Hb) as [_ B]. specialize (B ltac:(lia)).
    apply Qle_trans with (pow2 (ilog2 b)); [|assumption].
    apply Qle_trans with (pow2 (Z.max (ilog2 a) emin + 1)); [assumption|].
    apply pow2_le. lia.
Qed.

(** The rounding is as near as any multiple of the step of the binade. *)
Lemma fl_nearest_on_grid (q : Q) (m : Z) :
  Qabs (fl q - q) <= Qabs (inject_Z m * step q - q).
Proof.
  rewrite fl_eq. set (s := grid prec emin q).
  pose proof (pow2_pos s) as Hs. pose proof (scaled q s) as Hx.
  pose proof (rne_nearest (q / pow2 s) m) as Hn.
  set (x := q / pow2 s) in *. set (k := rne x) in *.
  assert (Hscale : forall n : Z,
    Qabs (inject_Z n * pow2 s - q) == Qabs (inject_Z n - x) * pow2 s).
  { intros n. rewrite <- (Qabs_pos (pow2 s)) at 2 by lra.
    rewrite <- Qabs_Qmult. apply Qabs_wd. rewrite <- Hx at 1. ring. }
  rewrite !Hscale. apply Qmult_le_compat_r; [exact Hn|lra].
Qed.

(** The rounding is as near as any number that is its own rounding. *)
Lemma fl_nearest (q x : Q) :
  0 <= q -> 0 <= x -> fl x == x -> Qabs (fl q - q) <= Qabs (x - q).
Proof.
  intros Hq Hx Hfix. destruct (Qle_lt_or_eq _ _ Hq) as [Hpos|Hz].
  2:{ rewrite (fl_proper q 0) by (symmetry; exact Hz). rewrite fl_zero.
      apply Qabs_case; intros; apply Qabs_case; intros; lra. }
  destruct (ilog2_bounds q Hpos) as [L U].
  set (e := Z.max (ilog2 q) emin).
  set (s := (e - (prec - 1))%Z).
  assert (Hs : grid prec emin q = s) by reflexivity.
  pose proof (pow2_pos s) as Hs0.
  assert (Htop : q <= pow2 (e + 1)).
  { apply Qle_trans with (pow2 (ilog2 q + 1)); [lra|]. apply pow2_le. lia. }
  destruct (Qlt_le_dec x (pow2 (e + 1))) as [Hlt|Hge].
  2:{ pose proof (fl_nearest_on_grid q (2 ^ prec)%Z) as Hn.
      assert (Hg : inject_Z (2 ^ prec) * step q == pow2 (e + 1)).
      { rewrite Hs, <- pow2_integer. symmetry. apply binade_top. }
      rewrite Hg in Hn.
      eapply Qle_trans; [exact Hn|].
      apply Qabs_case; intros; apply Qabs_case; intros; lra. }
  assert (Hcase : (emin <= ilog2 q)%Z /\ x < pow2 e \/
                  Z.max (ilog2 x) emin = e \/ x == 0).
  { destruct (Qle_lt_or_eq _ _ Hx) as [Hxpos|Hxz]; [|right; right; by symmetry].
    destruct (ilog2_bounds x Hxpos) as [Lx Ux].
    assert (ilog2 x < e + 1)%Z by (apply pow2_lt_inv; lra).
    destruct (Z_le_gt_dec emin (ilog2 q)) as [Hn|Hsub].
    - destruct (Qlt_le_dec x (pow2 e)) as [Hlow|Hhigh]; [left; by split|].
      right; left. rewrite (ilog2_unique x e); [lia|assumption..].
    - right; left. lia. }
  destruct Hcase as [[Hn Hlow]|[Hsame|Hxz]].
  - pose proof (fl_nearest_on_grid q (2 ^ (prec - 1))%Z) as Hnear.
    assert (Hg : inject_Z (2 ^ (prec - 1)) * step q == pow2 e).
    { rewrite Hs, <- pow2_half_integer. symmetry. apply binade_bottom. }
    rewrite Hg in Hnear.
    eapply Qle_trans; [exact Hnear|].
    assert (He : e = ilog2 q) by lia. rewrite <- He in L.
    apply Qabs_case; intros; apply Qabs_case; intros; lra.
  - pose proof (fl_nearest_on_grid q (mantissa x)) as Hnear.
    rewrite Hs in Hnear.
    assert (Hxg : inject_Z (mantissa x) * pow2 s == x).
    { rewrite <- Hfix at 3. rewrite fl_eq. unfold grid. by rewrite Hsame. }
    by rewrite Hxg in Hnear.
  - pose proof (fl_nearest_on_grid q 0%Z) as Hnear.
    assert (Hxg : inject_Z 0 * step q == x).
    { rewrite Hxz. change (inject_Z 0) with 0. ring. }
    by rewrite Hxg in Hnear.
Qed.

End BinaryRounding.

Section DecimalRounding.
Import Warp.
Local Open Scope Q_scope.

Local Abbreviation fl := (round_binary 53 (-1022)).

Lemma inject_Z_pred (k : Z) : inject_Z (k - 1) == inject_Z k - 1.
Proof. unfold Qeq, Qminus, Qplus, Qopp, inject_Z. cbn. lia. Qed.

Lemma ten_pos (p : Z) : 0 < ten p.
Proof. apply Qpower_0_lt. reflexivity. Qed.

Lemma ten_natural (p : Z) : (0 <= p)%Z -> ten p == inject_Z (10 ^ p).
Proof. intros H. unfold ten. by rewrite Zpower_Qpower. Qed.

Lemma to_decimal_error (a : Q) (p : Z) :
  Qabs (a - to_decimal a p) <= (1 # 2) / ten p.
Proof.
  unfold to_decimal. pose proof (ten_pos p) as Hs.
  destruct (rne_error (a * ten p)) as [H1 H2].
  set (k := inject_Z (rne (a * ten p))) in *.
  assert (Hk : k / ten p * ten p == k) by (field; lra).
  assert (Hh : (1 # 2) / ten p * ten p == 1 # 2) by (field; lra).
  set (d := k / ten p) in *. set (h := (1 # 2) / ten p) in *.
  apply Qabs_case; intros _; apply Qnot_lt_le; intros Hlt; nra.
Qed.

Lemma max_float_double : fl max_float = max_float.
Proof. by vm_compute. Qed.

Lemma max_float_finite : max_float < pow2 1024.
Proof. by vm_compute. Qed.

(** Rounding a double to [p >= 0] decimals does not leave the range of
    the doubles. *)
Lemma to_decimal_range (a : Q) (p : Z) :
  (0 <= p)%Z -> 0 <= a -> a <= max_float ->
  0 <= to_decimal a p /\ to_decimal a p <= max_float.
Proof.
  intros Hp H0 H1. unfold to_decimal. pose proof (ten_pos p) as Hs.
  assert (Hlow : inject_Z 0 <= a * ten p) by (change (inject_Z 0) with 0; nra).
  assert (Hup : a * ten p <= inject_Z ((2 ^ 53 - 1) * 2 ^ 971 * 10 ^ p)).
  { rewrite (inject_Z_mult _ (10 ^ p)), <- ten_natural by assumption.
    fold max_float. nra. }
  apply rne_monotone in Hlow, Hup. rewrite rne_integer in Hlow, Hup.
  rewrite Zle_Qle in Hlow, Hup.
  rewrite (inject_Z_mult _ (10 ^ p)), <- ten_natural in Hup by assumption.
  fold max_float in Hup. change (inject_Z 0) with 0 in Hlow.
  set (k := inject_Z (rne (a * ten p))) in *.
  assert (Hk : k / ten p * ten p == k) by (field; lra).
  set (d := k / ten p) in *.
  split; apply Qnot_lt_le; intros Hlt; nra.
Qed.

(** The decimal rounding of the double nearest to a decimal rounding of
    a double is that decimal again. *)
Lemma to_decimal_stable (a : Q) (p : Z) :
  (0 <= p)%Z -> 0 <= a -> fl a == a -> a <= max_float ->
  rne (fl (to_decimal a p) * ten p) = rne (a * ten p).
Proof.
  intros Hp H0 Hfix H1. pose proof (ten_pos p) as Hs.
  destruct (to_decimal_range a p Hp H0 H1) as [D0 D1].
  pose proof (to_decimal_error a p) as Herr.
  pose proof (fl_nearest 53 (-1022) ltac:(lia) (to_decimal a p) a D0 H0 Hfix)
    as Hnear.
  unfold to_decimal in *.
  set (X := a * ten p) in *. set (K := rne X) in *.
  assert (Hk : inject_Z K / ten p * ten p == inject_Z K) by (field; lra).
  assert (Hh : (1 # 2) / ten p * ten p == 1 # 2) by (field; lra).
  set (d := inject_Z K / ten p) in *. set (h := (1 # 2) / ten p) in *.
  set (y := fl d) in *. set (Y := y * ten p).
  destruct (rne_error Y) as [E1 E2].
  destruct (rne_error X) as [E3 E4]. fold K in E3, E4.
  assert (Hscale : forall u,
    Qabs (u * ten p - inject_Z K) == Qabs (u - d) * ten p).
  { intros u. rewrite <- (Qabs_pos (ten p)) at 2 by lra.
    rewrite <- Qabs_Qmult. apply Qabs_wd. rewrite <- Hk. ring. }
  (* the double is within half a unit of the decimal *)
  assert (Hy : Qabs (Y - inject_Z K) <= 1 # 2).
  { assert (Hyd : Qabs (y - d) <= h) by (eapply Qle_trans; eassumption).
    unfold Y. rewrite Hscale, <- Hh.
    apply Qmult_le_compat_r; [exact Hyd|lra]. }
  assert (Hx : Qabs (Y - inject_Z K) <= Qabs (X - inject_Z K)).
  { unfold Y, X. rewrite !Hscale.
    apply Qmult_le_compat_r; [exact Hnear|lra]. }
  destruct (Z.eq_dec (rne Y) K) as [|Hne]; [assumption|exfalso].
  assert (Hcases : (rne Y = (K + 1)%Z /\ Y == inject_Z K + (1 # 2)) \/
                   (rne Y = (K - 1)%Z /\ Y == inject_Z (K - 1) + (1 # 2))).
  { destruct (Z_lt_le_dec K (rne Y)) as [Hgt|Hle].
    - assert (G : inject_Z K + 1 <= inject_Z (rne Y)).
      { change 1 with (inject_Z 1). rewrite <- inject_Z_plus, <- Zle_Qle. lia. }
      assert (G' : Y - inject_Z K <= 1 # 2).
      { revert Hy. apply Qabs_case; intros; lra. }
      assert (T : inject_Z (rne Y) - inject_Z K < 2) by lra.
      left. split; [|lra].
      assert (rne Y <= K + 1)%Z; [|lia].
      apply inject_Z_lt_1. rewrite inject_Z_plus.
      change (inject_Z 1) with 1. lra.
    - assert (G : inject_Z (rne Y) + 1 <= inject_Z K).
      { change 1 with (inject_Z 1). rewrite <- inject_Z_plus, <- Zle_Qle. lia. }
      assert (G' : inject_Z K - Y <= 1 # 2).
      { revert Hy. apply Qabs_case; intros; lra. }
      right.
      assert (Hk1 : rne Y = (K - 1)%Z).
      { assert (K - 1 <= rne Y)%Z; [|lia].
        apply inject_Z_lt_1. rewrite inject_Z_pred. lra. }
      split; [assumption|].
      rewrite inject_Z_pred. lra. }
  assert (Hhalf : Qabs (Y - inject_Z K) == 1 # 2).
  { destruct Hcases as [[_ Hv]|[_ Hv]]; rewrite Hv.
    - apply Qabs_case; intros; lra.
    - rewrite inject_Z_pred. apply Qabs_case; intros; lra. }
  assert (Htie : X == inject_Z K + (1 # 2) \/ X == inject_Z (K - 1) + (1 # 2)).
  { rewrite Hhalf in Hx. revert Hx.
    rewrite inject_Z_pred.
    apply Qabs_case; intros; [left|right]; lra. }
  assert (Heven : Z.even K = true).
  { destruct Htie as [Ht|Ht]; apply rne_tie in Ht; exact Ht. }
  assert (Hodd : Z.even (rne Y) = true).
  { destruct Hcases as [[_ Hv]|[_ Hv]]; apply rne_tie in Hv; exact Hv. }
  destruct Hcases as [[Hv _]|[Hv _]]; rewrite Hv in Hodd.
  - rewrite Z.even_add, Heven in Hodd. discriminate.
  - rewrite Z.even_sub, Heven in Hodd. discriminate.
Qed.

End DecimalRounding.

(** ** [recursive_round] *)

Section RoundingFacts.
Import Warp.
Context {float : Type}.
Variable round_float : float -> Z -> outcome float.

(** Induction on coordinates, with the hypothesis for every part of a
    sequence. *)
Lemma coord_ind (P : coord float -> Prop) :
  (forall x, P (Num x)) ->
  (forall parts, Forall P parts -> P (Seq parts)) ->
  forall val, P val.
Proof.
  intros Hnum Hseq.
  fix IH 1. intros [x|parts]; [apply Hnum|].
  apply Hseq. induction parts as [|part parts IHparts]; constructor.
  - apply IH.
  - exact IHparts.
Qed.

Lemma round_int_idempotent (n p : Z) :
  round_int (round_int n p) p = round_int n p.
Proof.
  destruct (0 <=? p) eqn:Hp.
  - unfold round_int. by rewrite Hp.
  - set (m := 10 ^ (- p)).
    assert (Hm : 0 < m) by (apply Z.pow_pos_nonneg; lia).
    assert (Hk : exists k, round_int n p = k * m).
    { unfold round_int. rewrite Hp. fold m.
      repeat match goal with |- context [if ?b then _ else _] =>
        destruct b end; eauto. }
    destruct Hk as [k ->].
    unfold round_int. rewrite Hp. fold m.
    rewrite Z.div_mul, Z.mod_mul by lia.
    assert (H0 : (2 * 0 <? m) = true) by (apply Z.ltb_lt; lia).
    by rewrite H0.
Qed.

Lemma outcome_map_returns {A B} (f : A -> B) (o : outcome A) (b : B) :
  outcome_map f o = Return b -> exists a, o = Return a /\ b = f a.
Proof. destruct o as [a|e]; [|discriminate]. intros [= <-]. eauto. Qed.

(** A list of outcomes gives a list of values exactly when each outcome
    is a value. *)
Lemma in_order_returns {A B} (f : A -> outcome B) (l : list A)
    (r : list B) :
  in_order (map f l) = Return r <-> Forall2 (fun a b => f a = Return b) l r.
Proof.
  revert r. induction l as [|a l IH]; intros r; cbn.
  - split; [intros [= <-]; constructor|by inversion 1].
  - destruct (f a) as [b|e] eqn:Ea.
    + split.
      * intros H. apply outcome_map_returns in H as (r' & Hr & ->).
        constructor; [assumption|]. by apply IH.
      * intros H. inversion H as [|a' b' l' r' Hb Hr]; subst.
        apply IH in Hr. rewrite Hr. cbn. congruence.
    + split; [discriminate|].
      intros H. inversion H; subst. congruence.
Qed.

(** The nesting structure is kept by [recursive_round]. *)
Lemma recursive_round_skeleton (val rounded : coord float) (p : Z) :
  recursive_round round_float val p = Return rounded ->
  skeleton_of rounded = skeleton_of val.
Proof.
  revert rounded.
  induction val as [x|parts IH] using coord_ind; intros rounded H.
  - cbn in H. apply outcome_map_returns in H as (y & _ & ->). reflexivity.
  - cbn [recursive_round] in H.
    apply outcome_map_returns in H as (rs & Hrs & ->).
    apply in_order_returns in Hrs. cbn [skeleton_of]. f_equal.
    induction Hrs as [|part r parts rs Hr _ IHrs]; [reflexivity|].
    inversion IH as [|? ? Hpart Hparts]; subst. cbn.
    rewrite (Hpart r Hr). f_equal. by apply IHrs.
Qed.

(** Every component of the result is the rounded component at the same
    place of the argument, and the result has no other component. *)
Lemma recursive_round_component (val rounded : coord float) (p : Z) :
  recursive_round round_float val p = Return rounded ->
  forall path,
    match component val path with
    | Some x =>
        exists y, round round_float x p = Return y /\
                  component rounded path = Some y
    | None => component rounded path = None
    end.
Proof.
  revert rounded.
  induction val as [x|parts IH] using coord_ind; intros rounded H path.
  - cbn in H. apply outcome_map_returns in H as (y & Hy & ->).
    destruct path; cbn; eauto.
  - cbn [recursive_round] in H.
    apply outcome_map_returns in H as (rs & Hrs & ->).
    apply in_order_returns in Hrs.
    destruct path as [|i path]; [reflexivity|]. cbn [component].
    revert i. induction Hrs as [|part r parts rs Hr _ IHrs]; intros i.
    + by destruct i.
    + inversion IH as [|? ? Hpart Hparts]; subst.
      destruct i as [|i]; cbn [nth_error].
      * apply (Hpart r Hr).
      * by apply IHrs.
Qed.

(** Where the rounding of floats is stable on a class of floats, the
    rounding of coordinates over that class returns, and is stable. *)
Lemma recursive_round_stable (P : float -> Prop) (val : coord float)
    (p : Z) :
  (forall x, P x ->
     exists y, round_float x p = Return y /\
               round_float y p = Return y /\ P y) ->
  Forall P (floats_of val) ->
  exists rounded,
    recursive_round round_float val p = Return rounded /\
    recursive_round round_float rounded p = Return rounded /\
    Forall P (floats_of rounded).
Proof.
  intros Hfloat.
  induction val as [[z|x]|parts IH] using coord_ind; intros HP.
  - exists (Num (PyInt (round_int z p))). cbn.
    by rewrite round_int_idempotent.
  - cbn in HP. apply Forall_cons in HP as [HP _].
    destruct (Hfloat x HP) as (y & Hy & Hyy & Py).
    exists (Num (PyFloat y)). cbn. rewrite Hy, Hyy. cbn.
    repeat split. by constructor.
  - cbn [floats_of] in HP.
    assert (Hparts : exists rs,
      in_order (map (fun part => recursive_round round_float part p) parts)
      = Return rs /\
      in_order (map (fun part => recursive_round round_float part p) rs)
      = Return rs /\
      Forall P (flat_map floats_of rs)).
    { induction IH as [|part parts Hpart _ IHparts].
      - exists []. cbn. by repeat split.
      - cbn in HP. apply Forall_app in HP as [HP1 HP2].
        destruct (Hpart HP1) as (r & Hr & Hrr & Pr).
        destruct (IHparts HP2) as (rs & Hrs & Hrrs & Prs).
        exists (r :: rs). cbn. rewrite Hr, Hrs, Hrr, Hrrs. cbn.
        repeat split. apply Forall_app. by split. }
    destruct Hparts as (rs & Hrs & Hrrs & Prs).
    exists (Seq rs). cbn [recursive_round floats_of].
    rewrite Hrs, Hrrs. by cbn.
Qed.

End RoundingFacts.

Section FloatRounding.
Import Warp.
Local Open Scope Q_scope.

Lemma is_double_finite (s : bool) (a : Q) :
  is_double (Finite s a) = true ->
  0 <= a /\ binary64 a == a /\ a <= max_float.
Proof.
  cbn. rewrite !andb_true_iff, !Qle_bool_iff, Qeq_bool_iff. tauto.
Qed.

Lemma finite_is_double (s : bool) (a : Q) :
  0 <= a -> binary64 a == a -> a <= max_float ->
  is_double (Finite s a) = true.
Proof.
  intros. cbn. rewrite !andb_true_iff, !Qle_bool_iff, Qeq_bool_iff. tauto.
Qed.

(** Rounding a double to [p >= 0] decimals gives a double. *)
Lemma float_round_returns (s : bool) (a : Q) (p : Z) :
  (0 <= p)%Z -> is_double (Finite s a) = true ->
  float_round (Finite s a) p
  = Return (Finite s (binary64 (to_decimal a p))) /\
  is_double (Finite s (binary64 (to_decimal a p))) = true.
Proof.
  intros Hp Ha. apply is_double_finite in Ha as (H0 & Hfix & H1).
  destruct (to_decimal_range a p Hp H0 H1) as [D0 D1].
  assert (Hy : binary64 (to_decimal a p) <= max_float).
  { rewrite <- max_float_double. unfold binary64.
    apply fl_monotone; [lia|assumption..]. }
  split.
  - unfold float_round.
    destruct (Qle_bool (pow2 1024) (binary64 (to_decimal a p))) eqn:Hb;
      [|reflexivity].
    apply Qle_bool_iff in Hb. pose proof max_float_finite. lra.
  - apply finite_is_double.
    + apply fl_nonneg; [lia|assumption].
    + unfold binary64. rewrite fl_idempotent; [reflexivity|lia|assumption].
    + assumption.
Qed.

(** Rounding the rounded double again gives it back. *)
Lemma float_round_stable (x : pyfloat) (p : Z) :
  (0 <= p)%Z -> is_double x = true ->
  exists y, float_round x p = Return y /\ float_round y p = Return y /\
            is_double y = true.
Proof.
  intros Hp Hx. destruct x as [s a| |]; [|by eexists..].
  destruct (float_round_returns s a p Hp Hx) as [Hy Hd].
  exists (Finite s (binary64 (to_decimal a p))).
  split; [assumption|]. split; [|assumption].
  destruct (float_round_returns s _ p Hp Hd) as [Hyy _].
  rewrite Hyy. do 2 f_equal.
  apply is_double_finite in Hx as (H0 & Hfix & H1).
  unfold to_decimal at 1.
  unfold binary64 at 2.
  by rewrite (to_decimal_stable a p Hp H0 Hfix H1).
Qed.

(** The result is the argument rounded to [p] decimal digits, in the
    specification's words. *)
Lemma float_round_rounds (x : pyfloat) (p : Z) :
  (0 <= p)%Z -> is_double x = true ->
  exists y, float_round x p = Return y /\
            rounded_to p (PyFloat x) (PyFloat y).
Proof.
  intros Hp Hx. destruct x as [s a|s|]; [|by eexists..].
  destruct (float_round_returns s a p Hp Hx) as [Hy _].
  eexists; split; [exact Hy|]. cbn. split; [reflexivity|].
  exists (rne (a * ten p)). split; [apply to_decimal_error|reflexivity].
Qed.

End FloatRounding.

Section RecursiveRoundTheorems.
Import Warp.

(** C10: for a non-negative precision, [recursive_round] on
    coordinates of integers and floats returns coordinates of the same
    nesting structure and lengths, and rounding these again gives them
    back. *)
Theorem recursive_round_structure_idempotent (val : coord pyfloat) (p : Z) :
  0 <= p -> forallb is_double (floats_of val) = true ->
  exists rounded,
    recursive_round float_round val p = Return rounded /\
    skeleton_of rounded = skeleton_of val /\
    recursive_round float_round rounded p = Return rounded.
Proof.
  intros Hp Hval.
  destruct (recursive_round_stable float_round
              (fun x => is_double x = true) val p) as (r & Hr & Hrr & _).
  - intros x. by apply float_round_stable.
  - apply List.Forall_forall. intros x Hx.
    rewrite forallb_forall in Hval. by apply Hval.
  - exists r. split; [assumption|]. split; [|assumption].
    by apply (recursive_round_skeleton float_round val r p).
Qed.

(** On doubles and a non-negative precision, [recursive_round] returns,
    and each number of the result is the number at its place rounded to
    [p] decimal digits. *)
Lemma recursive_round_rounds (val : coord pyfloat) (p : Z) :
  0 <= p -> forallb is_double (floats_of val) = true ->
  exists rounded,
    recursive_round float_round val p = Return rounded /\
    skeleton_of rounded = skeleton_of val /\
    rounded_componentwise p val rounded.
Proof.
  intros Hp Hval.
  destruct (recursive_round_stable float_round
              (fun x => is_double x = true) val p) as (r & Hr & _ & _).
  - intros x. by apply float_round_stable.
  - apply List.Forall_forall. intros x Hx.
    rewrite forallb_forall in Hval. by apply Hval.
  - exists r. split; [assumption|].
    split; [by apply (recursive_round_skeleton float_round val r p)|].
    intros path.
    pose proof (recursive_round_component float_round val r p Hr path) as H.
    destruct (component val path) as [x|] eqn:Ex; [|assumption].
    destruct H as (y & Hy & Hc). exists y. split; [assumption|].
    destruct x as [z|x].
    + cbn in Hy. injection Hy as <-. cbn. unfold round_int.
      apply Z.leb_le in Hp. by rewrite Hp.
    + assert (Hd : is_double x = true).
      { rewrite forallb_forall in Hval. apply Hval.
        clear -Ex. revert path Ex.
        induction val as [n|parts IH] using coord_ind; intros path Ex.
        - destruct path; [|discriminate]. injection Ex as ->. by left.
        - destruct path as [|i path]; [discriminate|]. cbn in Ex.
          destruct (nth_error parts i) as [part|] eqn:Ei; [|discriminate].
          cbn. apply in_flat_map. exists part.
          split; [by apply nth_error_In in Ei|].
          rewrite List.Forall_forall in IH.
          exact (IH part (nth_error_In _ _ Ei) path Ex). }
      destruct (float_round_rounds x p Hp Hd) as (y' & Hy' & Hround).
      cbn in Hy. rewrite Hy' in Hy. cbn in Hy. by injection Hy as <-.
Qed.

End RecursiveRoundTheorems.

(** ** [_reproject] *)

Section ReprojectFacts.
Import Warp.
Variable g : gdal.

Lemma warp_executed_app (t evs : list event) :
  Forall not_warp evs -> warp_executed (t ++ evs) = warp_executed t.
Proof.
  intros H. unfold warp_executed. rewrite existsb_app.
  replace (existsb is_warp evs) with false; [apply orb_false_r|].
  symmetry. induction H as [|e evs He _ IH]; [reflexivity|].
  cbn [existsb]. by rewrite He, IH.
Qed.

Lemma release_all_emits (P : event -> Prop) h o :
  P (DestroyApproxTransformer h) -> P (DestroyWarpOptions o) ->
  P FreeImgProjOptions -> emits_only P (release_all h o).
Proof.
  intros H1 H2 H3. unfold release_all. repeat trace_step; assumption.
Qed.

Lemma get_mem_driver_emits (P : event -> Prop) which :
  emits_only P (get_mem_driver g which).
Proof. unfold get_mem_driver. repeat trace_step. Qed.

(** Resolving the two sides and building the transformer never runs the
    warp. *)
Lemma prepare_no_warp (a : arguments) : emits_only not_warp (prepare g a).
Proof.
  unfold prepare, open_source, open_destination, create_transformer,
    release_all.
  repeat first [apply get_mem_driver_emits | trace_step | reflexivity].
Qed.

Lemma reshape_keeps (a0 : ndarray) (b : bool) :
  fill_value (if b then reshape1 a0 else a0) = fill_value a0 /\
  dtype_of (if b then reshape1 a0 else a0) = dtype_of a0.
Proof. by destruct b. Qed.

Lemma open_source_returns (a : arguments) :
  returns (open_source g a) (fun r =>
    r.2 = resolvable_nodata (src_nodata a) (source a) /\
    raster_dtype r.1.1.1.1 = raster_dtype (source a)).
Proof.
  unfold open_source, resolvable_nodata.
  destruct (source a) as [src|b|] eqn:Esrc; cbn [inherited_nodata].
  - destruct (reshape_keeps src (length (shape src) =? 2)%nat) as [Ef Ed].
    repeat returns_step;
      cbn [fst snd raster_dtype]; rewrite ?Ef, ?Ed;
      by destruct (src_nodata a), (fill_value src).
  - repeat returns_step. cbn [fst snd raster_dtype].
    by destruct (src_nodata a).
  - repeat returns_step.
Qed.

Lemma open_destination_returns (a : arguments) (n : Z) (bidx : list Z) :
  returns (open_destination g a n bidx) (fun r =>
    r.2 = resolvable_nodata (dst_nodata a) (destination a) /\
    raster_dtype r.1.1.1 = raster_dtype (destination a)).
Proof.
  unfold open_destination, resolvable_nodata.
  destruct (destination a) as [dst|b|] eqn:Edst; cbn [inherited_nodata].
  - destruct (reshape_keeps dst (length (shape dst) =? 2)%nat) as [Ef Ed].
    repeat returns_step;
      cbn [fst snd raster_dtype]; rewrite ?Ef, ?Ed;
      by destruct (dst_nodata a), (fill_value dst).
  - repeat returns_step. cbn [fst snd raster_dtype].
    by destruct (dst_nodata a).
  - repeat returns_step.
Qed.

Lemma create_transformer_returns (a : arguments) (src dst : Z) :
  returns (create_transformer g a src dst) (fun r =>
    r.1.1 = ApproxTransformer
              (GenImgProjTransformer src dst (copy_kwargs (kwargs a) []))
              tolerance true /\
    r.1.2 = copy_kwargs (kwargs a) [] /\
    r.2 = new_warp_options (default_warp_options g)).
Proof.
  unfold create_transformer. repeat returns_step. by cbn.
Qed.

(** What the local variables hold once [prepare] has returned. *)
Lemma prepare_returns (a : arguments) :
  returns (prepare g a) (fun l =>
    l_src_nodata l = resolvable_nodata (src_nodata a) (source a) /\
    l_dst_nodata l = resolvable_nodata (dst_nodata a) (destination a) /\
    raster_dtype (l_source l) = raster_dtype (source a) /\
    raster_dtype (l_destination l) = raster_dtype (destination a) /\
    hTransformArg l
    = ApproxTransformer
        (GenImgProjTransformer (src_dataset l) (dst_dataset l)
                               (copy_kwargs (kwargs a) []))
        tolerance true).
Proof.
  unfold prepare.
  eapply returns_bind_with; [apply open_source_returns|].
  intros [[[[src n] bidx] hds] nod] [Hn Hd]. cbn [fst snd] in Hn, Hd.
  eapply returns_bind_with; [apply open_destination_returns|].
  intros [[[dst dbidx] dhds] dnod] [Hn' Hd']. cbn [fst snd] in Hn', Hd'.
  eapply returns_bind_with; [apply create_transformer_returns|].
  intros [[h opts] ps] (Hh & Ho & Hp). cbn [fst snd] in Hh, Ho, Hp.
  apply returns_ret. cbn. auto.
Qed.

Lemma reproject_after_prepare (a : arguments) (t t1 : list event)
    (l : locals) :
  prepare g a t = (Return l, t1) ->
  _reproject g a t
  = (apply_nodata g a l ≫= fun r => run_warp g a l r.1 r.2) t1.
Proof.
  intros H. unfold _reproject. rewrite (bind_returns _ _ _ _ _ H).
  rewrite !bind_run. destruct (apply_nodata g a l t1) as [[[ps ex]|e] t2];
    reflexivity.
Qed.

End ReprojectFacts.

Section ReprojectTheorems.
Import Warp.
Variable g : gdal.

Lemma initialized_with_Forall (Q : GDALWarpOptions -> Prop)
    (evs : list event) :
  Forall (initialized_as Q) evs ->
  forall o, In o (initialized_with evs) -> Q o.
Proof.
  induction 1 as [|e evs He _ IH]; intros o; cbn; [tauto|].
  unfold initialized_with in *. cbn [omap].
  destruct e; cbn in *; auto. intros [<-|Hin]; auto.
Qed.

Lemma apply_nodata_emits (Q : GDALWarpOptions -> Prop) a l :
  emits_only (initialized_as Q) (apply_nodata g a l).
Proof.
  unfold apply_nodata, release_all.
  repeat first [trace_step | exact I].
Qed.

Lemma run_warp_emits (Q : GDALWarpOptions -> Prop) a l ps extras :
  (forall ex h s d n bands, Q (set_warp_fields ex h s d n bands ps)) ->
  emits_only (initialized_as Q) (run_warp g a l ps extras).
Proof.
  intros HQ. unfold run_warp, release_all, close_if_array.
  repeat first [trace_step | exact I | apply HQ].
Qed.

Lemma apply_nodata_returns_dst a l :
  returns (apply_nodata g a l) (fun r =>
    exists s d, resolve_nodata (l_src_nodata l) (l_dst_nodata l)
                = Return (s, d) /\
    padfDstNoDataReal r.1 = Some (replicate (Z.to_nat (src_count l)) d)).
Proof.
  unfold apply_nodata.
  destruct (resolve_nodata _ _) as [[s d]|e].
  - repeat returns_step; cbn; eauto.
  - repeat returns_step.
Qed.

(** C1, as amended: once both sides are resolved and the transformer
    exists, a destination nodata value (given, or inherited from a masked
    destination array or from the destination dataset) without a
    resolvable source nodata value makes the call fail with the
    [ValueError] that asks for [src_nodata]; when no destination value is
    given or inherited, the destination nodata is the source nodata if
    one is resolvable and 0 otherwise, and this is the value every
    options structure handed to the warper carries. *)
Theorem destination_nodata_policy (a : arguments) (t t1 : list event)
    (l : locals) :
  prepare g a t = (Return l, t1) ->
  let s := resolvable_nodata (src_nodata a) (source a) in
  let d := resolvable_nodata (dst_nodata a) (destination a) in
  (s = None -> d <> None ->
   (_reproject g a t).1 = Raise (ValueError missing_src_message)) /\
  (d = None ->
   let effective := match s with Some v => v | None => 0 end in
   resolve_nodata s d = Return (s, effective) /\
   exists evs, (_reproject g a t).2 = t1 ++ evs /\
     forall o, In o (initialized_with evs) ->
       padfDstNoDataReal o
       = Some (replicate (Z.to_nat (src_count l)) effective)).
Proof.
  intros Hprep s d.
  destruct (prepare_returns g a _ _ _ Hprep) as (Hs & Hd & _).
  fold s in Hs. fold d in Hd.
  rewrite (reproject_after_prepare g a t t1 l Hprep).
  split.
  - intros Es Ed. rewrite bind_run. unfold apply_nodata.
    rewrite Hs, Hd, Es. destruct d as [v|]; [|congruence].
    cbn [resolve_nodata]. unfold release_all, emit. unfold_monad.
    reflexivity.
  - intros Ed effective. split.
    { rewrite Ed. subst effective. by destruct s. }
    set (Q := fun o : GDALWarpOptions =>
           padfDstNoDataReal o
           = Some (replicate (Z.to_nat (src_count l)) effective)).
    assert (He : emits_only (initialized_as Q)
              (apply_nodata g a l ≫= fun r => run_warp g a l r.1 r.2)).
    { eapply emits_only_bind_with;
        [apply apply_nodata_emits | apply apply_nodata_returns_dst|].
      intros [ps extras] (s' & d' & Hres & Hps). cbn [fst snd] in *.
      apply run_warp_emits. intros. unfold Q.
      cbn [padfDstNoDataReal set_warp_fields].
      rewrite Hps. rewrite Hs, Hd, Ed in Hres. subst effective.
      destruct s; cbn in Hres; injection Hres as <- <-; reflexivity. }
    destruct (He t1) as (evs & Eevs & Hall).
    exists evs. split; [exact Eevs|].
    apply (initialized_with_Forall Q). exact Hall.
Qed.

(** C2: once the effective nodata values are resolved, a source value
    outside the range of the source element type, or a destination value
    outside the range of the destination element type, makes the call
    fail with the [ValueError] about the valid range, and the call adds
    no execution of the warp to the trace. *)
Theorem nodata_out_of_range (a : arguments) (t t1 : list event)
    (l : locals) (s : option Z) (d : Z) :
  prepare g a t = (Return l, t1) ->
  resolve_nodata (resolvable_nodata (src_nodata a) (source a))
                 (resolvable_nodata (dst_nodata a) (destination a))
  = Return (s, d) ->
  let src_ok := match s with
                | Some v => in_dtype_range g v (raster_dtype (source a))
                | None => true
                end in
  let dst_ok := in_dtype_range g d (raster_dtype (destination a)) in
  (src_ok = false ->
   (_reproject g a t).1 = Raise (ValueError src_range_message)) /\
  (src_ok = true -> dst_ok = false ->
   (_reproject g a t).1 = Raise (ValueError dst_range_message)) /\
  (src_ok && dst_ok = false ->
   warp_executed (_reproject g a t).2 = warp_executed t).
Proof.
  intros Hprep Hres src_ok dst_ok.
  destruct (prepare_returns g a _ _ _ Hprep) as (Hs & Hd & Hsd & Hdd & _).
  rewrite (reproject_after_prepare g a t t1 l Hprep).
  destruct (prepare_no_warp g a t) as (evs & Et1 & Hevs).
  rewrite Hprep in Et1. cbn [snd] in Et1.
  assert (Ht1 : warp_executed t1 = warp_executed t).
  { rewrite Et1. by apply warp_executed_app. }
  rewrite bind_run. unfold apply_nodata.
  rewrite Hs, Hd, Hres, Hsd, Hdd. subst src_ok dst_ok.
  unfold release_all, emit. unfold_monad.
  destruct s as [v|].
  - destruct (in_dtype_range g v _) eqn:Ev; cbn [negb].
    + destruct (in_dtype_range g d _) eqn:Ed; cbn [negb fst snd].
      * repeat split; discriminate.
      * repeat split; try discriminate. intros _.
        rewrite <- Ht1. rewrite <- !app_assoc.
        apply warp_executed_app. repeat constructor.
    + cbn [fst snd]. repeat split; try discriminate. intros _.
      rewrite <- Ht1. rewrite <- !app_assoc.
      apply warp_executed_app. repeat constructor.
  - destruct (in_dtype_range g d _) eqn:Ed; cbn [negb fst snd].
    + repeat split; discriminate.
    + repeat split; try discriminate. intros _.
      rewrite <- Ht1. rewrite <- !app_assoc.
      apply warp_executed_app. repeat constructor.
Qed.

(** The options of the exact transformer are the keyword arguments in
    upper case, copied into an empty list: the list that received
    [GCPS_OK] is not the one that is passed on. *)
Lemma reproject_projection_options (a : arguments) :
  emits_only (built_from (copy_kwargs (kwargs a) [])) (_reproject g a).
Proof.
  unfold _reproject, prepare, open_source, open_destination,
    create_transformer, apply_nodata, run_warp, release_all, close_if_array.
  repeat first [apply get_mem_driver_emits | trace_step | exact I
               | reflexivity].
Qed.

End ReprojectTheorems.

Section OptionLists.
Import Warp.

Lemma upper_ascii_idempotent (c : ascii) :
  upper_ascii (upper_ascii c) = upper_ascii c.
Proof. by destruct c as [[] [] [] [] [] [] [] []]. Qed.

Lemma upper_idempotent (s : string) : upper (upper s) = upper s.
Proof.
  induction s as [|c s IH]; [reflexivity|].
  cbn [upper]. by rewrite upper_ascii_idempotent, IH.
Qed.

Lemma fetch_after_set (l : csl) (name value key : string) :
  CSLFetchNameValue (CSLSetNameValue l name value) key
  = if String.eqb (upper name) (upper key) then Some value
    else CSLFetchNameValue l key.
Proof.
  unfold CSLFetchNameValue.
  induction l as [|[n v] l IH]; cbn [CSLSetNameValue List.find fst snd].
  - by destruct (String.eqb (upper name) (upper key)).
  - destruct (String.eqb (upper n) (upper name)) eqn:En.
    + apply String.eqb_eq in En. cbn [List.find fst]. rewrite En.
      by destruct (String.eqb (upper name) (upper key)).
    + cbn [List.find fst].
      destruct (String.eqb (upper n) (upper key)) eqn:Ek.
      * apply String.eqb_eq in Ek. rewrite <- Ek. rewrite String.eqb_sym.
        by rewrite En.
      * exact IH.
Qed.

(** Unless a keyword argument spells it, the copied keywords do not
    contain [GCPS_OK]. *)
Lemma copy_kwargs_lacks (key : string) (kw : list (string * pyvalue)) :
  (forall k v, In (k, v) kw -> upper k <> upper key) ->
  forall l, CSLFetchNameValue l key = None ->
  CSLFetchNameValue (copy_kwargs kw l) key = None.
Proof.
  unfold copy_kwargs.
  induction kw as [|[k v] kw IH]; intros Hkw l Hl; [exact Hl|].
  cbn [fold_left fst snd]. apply IH.
  - intros k' v' Hin. apply (Hkw k' v'). by right.
  - rewrite fetch_after_set, upper_idempotent.
    destruct (String.eqb (upper k) (upper key)) eqn:E; [|exact Hl].
    apply String.eqb_eq in E. exfalso. apply (Hkw k v); [by left|exact E].
Qed.

End OptionLists.

Section TransformerOptions.
Import Warp.
Variable g : gdal.

(** In no call that does not itself pass a [gcps_ok] keyword does the
    construction of the exact transformer receive [GCPS_OK]. *)
Lemma reproject_never_passes_gcps_ok (a : arguments) :
  (forall k v, In (k, v) (kwargs a) -> upper k <> "GCPS_OK") ->
  emits_only
    (fun e => match e with
              | CreateGenImgProjTransformer2 _ _ options =>
                  CSLFetchNameValue options "GCPS_OK" = None
              | _ => True
              end)
    (_reproject g a).
Proof.
  intros Hkw t.
  destruct (reproject_projection_options g a t) as (evs & E & Hall).
  exists evs. split; [exact E|].
  eapply Forall_impl; [exact Hall|].
  intros [] He; try exact I. cbn in He. subst.
  apply copy_kwargs_lacks; [exact Hkw | reflexivity].
Qed.

End TransformerOptions.

Section TransformGeomFacts.
Import Warp.
Variable o : ogr (float:=pyfloat).

(** C8: with a non-negative precision, and a native layer that
    transforms the geometry, the call returns the transformed geometry
    with its coordinates rounded: the nesting is that of the transformed
    coordinates, and every number in the coordinates returned is the
    number at the same place of the transformed coordinates, rounded to
    [precision] decimal digits. *)
Theorem transform_geom_rounds (src_crs dst_crs : string)
    (geom : geometry pyfloat) (antimeridian_cutting : bool)
    (antimeridian_offset : string) (precision : Z) (t : list event)
    (src dst src_geom dst_geom : Z) (result : geometry pyfloat)
    (c : coord pyfloat) :
  0 <= precision ->
  ogr_osr_from_crs o src_crs = Return src ->
  ogr_osr_from_crs o dst_crs = Return dst ->
  OGRGeomBuilder_build o geom = Return src_geom ->
  (let options :=
     CSLSetNameValue [] "DATELINEOFFSET" antimeridian_offset in
   let options :=
     if antimeridian_cutting
     then CSLSetNameValue options "WRAPDATELINE" "YES"
     else options in
   transformWithOptions o src_geom
     (OCTNewCoordinateTransformation o src dst) options
   = (dst_geom, None)) ->
  GeomBuilder_build o dst_geom = Return result ->
  coordinates result = Some c ->
  forallb is_double (floats_of c) = true ->
  exists rounded,
    (_transform_geom float_round o src_crs dst_crs geom
       antimeridian_cutting antimeridian_offset precision t).1
    = Return {| geom_type := geom_type result;
                coordinates := Some rounded |} /\
    skeleton_of rounded = skeleton_of c /\
    rounded_componentwise precision c rounded.
Proof.
  intros Hp Hsrc Hdst Hbuild Htr Hres Hc Hdouble.
  destruct (recursive_round_rounds c precision Hp Hdouble)
    as (rounded & Hr & Hs & Hround).
  exists rounded. split; [|by split].
  unfold _transform_geom. unfold_monad. unfold emit, modify.
  rewrite Hsrc, Hdst, Hbuild, Htr, Hres, Hc.
  apply Z.leb_le in Hp. rewrite Hp, Hr. reflexivity.
Qed.

End TransformGeomFacts.

Section DefaultTransformFacts.
Import Warp.
Variable sg : suggester.

(** C9: when the extent suggestion reports an application-defined
    error whose text contains "Reprojection failed", the call does not
    raise: it logs the condition and returns the geotransform and the
    pixel dimensions the native call has written; any other
    application-defined error is raised again. *)
Theorem reprojection_failed_is_logged (src_crs dst_crs : string)
    (width height : Z) (left bottom right top : option Q)
    (gcps : list gcp) (t : list event) (transform : option (list Q))
    (osr temp h : Z) (geotransform : double6) (npixels nlines : Z)
    (errmsg : string) :
  seed_transform sg width height left bottom right top
  = Return transform ->
  0 <= height -> 0 <= width ->
  sg_osr_from_crs sg dst_crs = Return osr ->
  InMemoryRaster sg width height transform gcps src_crs = Return temp ->
  GDALCreateGenImgProjTransformer sg temp (sg_OSRExportToWkt sg osr)
  = (h, None) ->
  GDALSuggestedWarpOutput2 sg temp h
  = ((geotransform, npixels, nlines), Some (AppDefined, errmsg)) ->
  let run := _calculate_default_transform sg src_crs dst_crs width height
               left bottom right top gcps (new_frame t) in
  (contains "Reprojection failed" errmsg = true ->
   run.1 = Return (Affine_from_gdal geotransform, npixels, nlines) /\
   In (LogDebug points_outside_message) (fr_trace run.2)) /\
  (contains "Reprojection failed" errmsg = false ->
   run.1 = Raise (CPLError AppDefined errmsg)).
Proof.
  intros Hseed Hh Hw Hosr Hmem Hcreate Hsuggest run. subst run.
  unfold _calculate_default_transform. unfold_monad.
  rewrite Hseed, Hosr, Hmem, Hcreate, Hsuggest.
  replace ((height <? 0) || (width <? 0)) with false
    by (symmetry; apply orb_false_iff; split; apply Z.ltb_ge; lia).
  unfold set_hTransformArg, set_outputs, note, modify.
  cbn [fr_hTransformArg fr_trace fr_geotransform fr_npixels fr_nlines
       new_frame fst snd].
  unfold ret, raise.
  cbn [fr_hTransformArg fr_trace fr_geotransform fr_npixels fr_nlines].
  split; intros Hc; rewrite Hc.
  - cbn -[Z.eqb]. destruct (h =? 0); cbn [negb fst snd fr_trace];
      (split; [reflexivity|]); rewrite !in_app_iff; cbn [In]; tauto.
  - cbn -[Z.eqb]. by destruct (h =? 0).
Qed.

End DefaultTransformFacts.

(** ** The properties at sample inputs *)

Section ShimSampleFacts.
Import Samples.

(** C3 as stated fails: the transfer reports status 3 and the call
    returns 3 instead of raising, under either treatment of exceptions
    in [cdef int] functions. *)
Lemma io_band_nonzero_status_returned :
  let call := Shim.RasterIO 7 1 0 0 2 2 4096 2 2 1 1 2 in
  let run cy := Shim.io_band failing_gdal cy 7 1 0 0 2 2 image2d 0
                             quiet_world in
  Shim.status failing_gdal call <> 0 /\
  (run Shim.Propagated).1 = Return 3 /\
  (run Shim.Printed).1 = Return 3 /\
  Shim.unraisable (run Shim.Printed).2 = [].
Proof. repeat split; [discriminate | vm_compute; reflexivity..]. Qed.

Lemma io_band_returns_status_witness :
  Shim.io_band failing_gdal Shim.Printed 7 1 0 0 2 2 image2d 0 quiet_world
  = (Return 3,
     {| Shim.memory := [None]; Shim.options := ∅;
        Shim.calls := [Shim.RasterIO 7 1 0 0 2 2 4096 2 2 1 1 2];
        Shim.unraisable := [] |}).
Proof.
  apply (io_band_returns_status failing_gdal Shim.Printed 7 1 0 0 2 2
           image2d 0 quiet_world 2 2 2 1 "nearest" 0 0 2 2);
    reflexivity.
Defined.

(** C4 fails on [io_multi_mask]: the band does not resolve, the call
    raises, and the option that was unset before the call is left at
    the value the call gave it.  Where the exception cannot leave the
    function it is printed, the call returns 0, and the option is left
    the same. *)
Theorem io_multi_mask_leaves_override :
  let before := quiet_world in
  let run cy := Shim.io_multi_mask failing_gdal cy 9 1 0 0 2 2 image3d [1] 0
                                   before in
  (run Shim.Propagated).1 = Raise (ValueError "Null band") /\
  (run Shim.Printed).1 = Return 0 /\
  Shim.unraisable (run Shim.Printed).2 = [ValueError "Null band"] /\
  Shim.config before !! Shim.option_name = None /\
  Shim.config (run Shim.Propagated).2 !! Shim.option_name = Some "NEAREST" /\
  Shim.config (run Shim.Printed).2 !! Shim.option_name = Some "NEAREST".
Proof. repeat split; vm_compute; reflexivity. Qed.

(** C5 as stated fails: with an empty selection the call returns status
    3 and raises nothing, under either treatment of exceptions. *)
Lemma empty_selection_not_raised :
  let run cy := Shim.io_multi_mask failing_gdal cy 9 1 0 0 2 2 image3d [] 0
                                   quiet_world in
  (run Shim.Propagated).1 = Return 3 /\
  (run Shim.Printed).1 = Return 3 /\
  Shim.unraisable (run Shim.Printed).2 = [].
Proof. repeat split; vm_compute; reflexivity. Qed.

Lemma io_multi_mask_empty_selection_witness :
  let run := Shim.io_multi_mask two_band_gdal Shim.Propagated 9 1 0 0 2 2
                                image3d [] 0 quiet_world in
  run.1 = Return 3 /\ Shim.calls run.2 = [] /\ Shim.unraisable run.2 = [].
Proof.
  apply (io_multi_mask_empty_selection two_band_gdal Shim.Propagated 9 1
           0 0 2 2 image3d 0 quiet_world 2 2 2 1 "nearest" 0 0 2 2);
    reflexivity.
Defined.

(** C6 fails where an exception cannot leave a [cdef int] function
    that has no [except] clause: band 2 does not resolve, the
    [ValueError] is printed, and the call returns 0, the status of
    success.  The channels after it are not attempted. *)
Theorem null_band_returns_success :
  let run := Shim.io_multi_mask two_band_gdal Shim.Printed 9 1 0 0 2 2
                                image3d [1; 2; 3] 0 quiet_world in
  Shim.GDALGetRasterBand two_band_gdal 9 2 = 0 /\
  run.1 = Return 0 /\
  Shim.unraisable run.2 = [ValueError "Null band"] /\
  Shim.calls run.2 = [Shim.RasterIO 111 1 0 0 2 2 4096 2 2 1 1 2].
Proof. repeat split; vm_compute; reflexivity. Qed.

Lemma io_band_restores_option_witness :
  Shim.config
    (Shim.io_band two_band_gdal Shim.Printed 7 1 0 0 2 2 image2d 0
                  quiet_world).2
  = Shim.config quiet_world.
Proof.
  apply (io_band_restores_option two_band_gdal Shim.Printed 7 1 0 0 2 2
           image2d 0 quiet_world).
  reflexivity.
Defined.

Lemma io_multi_band_restores_option_witness :
  Shim.config
    (Shim.io_multi_band two_band_gdal Shim.Printed 7 1 0 0 2 2 image3d
                        [3; 1] 0 quiet_world).2
  = Shim.config quiet_world.
Proof.
  apply (io_multi_band_restores_option two_band_gdal Shim.Printed 7 1
           0 0 2 2 image3d [3; 1] 0 quiet_world).
  reflexivity.
Defined.

Lemma io_multi_mask_restores_on_return_witness :
  Shim.config
    (Shim.io_multi_mask two_band_gdal Shim.Printed 7 1 0 0 2 2 image3d
                        [1; 3] 0 quiet_world).2
  = Shim.config quiet_world.
Proof.
  apply (io_multi_mask_restores_on_return two_band_gdal Shim.Printed 7 1
           0 0 2 2 image3d [1; 3] 0 quiet_world _ 0); reflexivity.
Defined.

Lemma io_multi_band_returns_status_witness :
  Shim.io_multi_band two_band_gdal Shim.Printed 7 1 0 0 2 2 image3d [3; 1]
                     0 quiet_world
  = (Return 0,
     {| Shim.memory := [None]; Shim.options := ∅;
        Shim.calls :=
          [Shim.DatasetRasterIO 7 1 0 0 2 2 4096 2 2 1 2 [3; 1] 1 2 4];
        Shim.unraisable := [] |}).
Proof.
  apply (io_multi_band_returns_status two_band_gdal Shim.Printed 7 1
           0 0 2 2 image3d [3; 1] 0 quiet_world 2 2 4 2 1 "nearest"
           0 0 2 2);
    reflexivity.
Defined.

Lemma band_transfer_raises_untouched_witness :
  let band := Shim.io_band two_band_gdal Shim.Printed 7 1 0 0 2 2 image3d 99
                           quiet_world in
  band.1 = Return 0 /\ Shim.memory band.2 = [] /\
  Shim.options band.2 = ∅ /\ Shim.calls band.2 = [].
Proof.
  destruct (band_transfer_raises_untouched two_band_gdal Shim.Printed 7 1
              0 0 2 2 image3d [1] 99 quiet_world) as (_ & Hband & _).
  apply Hband. vm_compute. discriminate.
Defined.

Lemma invalid_resampling_rejected_witness :
  let e := ValueError "not a valid Resampling" in
  let stopped :=
    (Return 0,
     {| Shim.memory := []; Shim.options := ∅; Shim.calls := [];
        Shim.unraisable := [e] |}) in
  Shim.io_band two_band_gdal Shim.Printed 7 1 0 0 2 2 image3d 99
               quiet_world = stopped /\
  Shim.io_multi_band two_band_gdal Shim.Printed 7 1 0 0 2 2 image3d [1] 99
                     quiet_world = stopped /\
  Shim.io_multi_mask two_band_gdal Shim.Printed 7 1 0 0 2 2 image3d [1] 99
                     quiet_world = stopped.
Proof.
  apply (invalid_resampling_rejected two_band_gdal Shim.Printed 7 1
           0 0 2 2 image3d [1] 99 quiet_world 3 2 2 4 2 1 0 0 2 2);
    reflexivity.
Defined.

Lemma io_multi_mask_all_channels_witness :
  let transfers := [Shim.RasterIO 111 1 0 0 2 2 4096 2 2 1 1 2;
                    Shim.RasterIO 113 1 0 0 2 2 4100 2 2 1 1 2] in
  Shim.io_multi_mask two_band_gdal Shim.Printed 7 1 0 0 2 2 image3d [1; 3]
                     0 quiet_world
  = (Return 0,
     {| Shim.memory := [None]; Shim.options := ∅;
        Shim.calls := transfers; Shim.unraisable := [] |}) /\
  length transfers = 2%nat.
Proof.
  apply (io_multi_mask_all_channels two_band_gdal Shim.Printed 7 1
           0 0 2 2 image3d [1; 3] 0 quiet_world 2 2 2 1 "nearest"
           0 0 2 2);
    [reflexivity.. | discriminate | reflexivity | reflexivity].
Defined.

Lemma io_multi_mask_stops_at_failure_witness :
  Shim.io_multi_mask two_band_gdal Shim.Printed 9 1 0 0 2 2 image3d
                     [1; 2; 3] 0 quiet_world
  = (Return 0,
     {| Shim.memory := [Some "NEAREST"];
        Shim.options := {[ Shim.option_name := 0%nat ]};
        Shim.calls := [Shim.RasterIO 111 1 0 0 2 2 4096 2 2 1 1 2];
        Shim.unraisable := [ValueError "Null band"] |}).
Proof.
  pose proof (io_multi_mask_stops_at_failure two_band_gdal Shim.Printed 9 1
                0 0 2 2 image3d 0 quiet_world 2 2 2 1 "nearest" 0 0 2 2
                [1] 2 [3] [Shim.RasterIO 111 1 0 0 2 2 4096 2 2 1 1 2])
    as H.
  cbv zeta in H. destruct H as [Hband _]; [reflexivity..|].
  apply Hband. reflexivity.
Defined.

Lemma io_band_restores_from_freed_value_witness :
  let run := Shim.io_band two_band_gdal Shim.Propagated 7 1 0 0 2 2 image2d
                          0 cubic_world in
  run.1 = Raise (UndefinedBehaviour "read of freed memory") /\
  Shim.calls run.2 = [Shim.RasterIO 7 1 0 0 2 2 4096 2 2 1 1 2].
Proof.
  apply (io_band_restores_from_freed_value two_band_gdal Shim.Propagated
           7 1 0 0 2 2 image2d 0 cubic_world 2 2 2 1 "nearest" 0 0 2 2
           0%nat);
    reflexivity.
Defined.

End ShimSampleFacts.

Section SampleFacts.
Import Samples.

(** The caller in [_reproject] does not look at the status: with every
    transfer reporting 3 the call still returns normally. *)
Lemma reproject_ignores_transfer_status :
  let run := Warp._reproject failing_transfer_gdal source_only_call [] in
  run.1 = Return tt /\
  In (Warp.IoAuto 101 1 3) run.2 /\ In (Warp.IoAuto 102 0 3) run.2.
Proof. vm_compute. repeat split; tauto. Qed.

(** C1 as stated fails: no destination nodata is given and the source
    nodata is 5, yet the warper receives 255, the fill value of the
    masked destination; and with no nodata given at all the same
    destination makes the call fail instead of using 0. *)
Lemma destination_nodata_inherited :
  Warp.dst_nodata masked_destination_call = None /\
  Warp.resolvable_nodata (Warp.src_nodata masked_destination_call)
                         (Warp.source masked_destination_call) = Some 5 /\
  Warp.padfDstNoDataReal
    <$> Warp.initialized_with
          (Warp._reproject quiet_gdal masked_destination_call []).2
  = [Some [255]] /\
  Warp.dst_nodata masked_destination_only_call = None /\
  (Warp._reproject quiet_gdal masked_destination_only_call []).1
  = Raise (ValueError missing_src_message).
Proof. repeat split; vm_compute; reflexivity. Qed.

Lemma destination_nodata_policy_witness :
  (Warp._reproject quiet_gdal missing_source_call []).1
  = Raise (ValueError missing_src_message) /\
  Warp.resolve_nodata (Some 5) None = Return (Some 5, 5).
Proof.
  split.
  - refine (proj1 (destination_nodata_policy quiet_gdal
                     missing_source_call [] _ _ eq_refl) eq_refl _).
    discriminate.
  - exact (proj1 (proj2 (destination_nodata_policy quiet_gdal
                           source_only_call [] _ _ eq_refl) eq_refl)).
Defined.

Lemma nodata_out_of_range_witness :
  (Warp._reproject quiet_gdal negative_nodata_call []).1
  = Raise (ValueError dst_range_message) /\
  Warp.warp_executed (Warp._reproject quiet_gdal negative_nodata_call []).2
  = false.
Proof.
  pose proof (nodata_out_of_range quiet_gdal negative_nodata_call [] _ _
                (Some 5) (-1) eq_refl eq_refl) as (_ & Hdst & Hwarp).
  split; [apply Hdst | apply Hwarp]; reflexivity.
Defined.

(** C7 fails on every call: the exact transformer is built from the
    keywords alone, and [GCPS_OK] is not among its options. *)
Theorem gcps_ok_not_passed :
  let run := Warp._reproject quiet_gdal keyword_call [] in
  run.1 = Return tt /\
  Warp.projection_options run.2 = [[("MAX_GCP_ORDER", "2")]] /\
  Forall (fun options => Warp.CSLFetchNameValue options "GCPS_OK" = None)
         (Warp.projection_options run.2).
Proof.
  repeat split; [vm_compute; reflexivity..|].
  vm_compute. repeat constructor.
Qed.

Lemma reprojection_failed_is_logged_witness :
  let run := Warp._calculate_default_transform
               (partial_suggester suppressed_message) "EPSG:4326"
               "EPSG:3857" 10 10 None None None None []
               (Warp.new_frame []) in
  run.1 = Return (Warp.Affine_from_gdal (10, 2, 0, 20, 0, -2)%Q, 5, 6) /\
  In (Warp.LogDebug points_outside_message) (Warp.fr_trace run.2).
Proof.
  apply (proj1 (reprojection_failed_is_logged
                  (partial_suggester suppressed_message) "EPSG:4326"
                  "EPSG:3857" 10 10 None None None None [] [] None
                  7 201 301 (10, 2, 0, 20, 0, -2)%Q 5 6 suppressed_message
                  eq_refl ltac:(lia) ltac:(lia) eq_refl eq_refl eq_refl
                  eq_refl)).
  reflexivity.
Defined.

End SampleFacts.

Section RoundingSampleFacts.
Import Samples MoreSamples.

Lemma transform_geom_rounds_witness :
  exists rounded,
    (Warp._transform_geom Warp.float_round (same_crs_ogr point) "EPSG:4326"
       "EPSG:4326" point false "10.0" 2 []).1
    = Return {| Warp.geom_type := "Point";
                Warp.coordinates := Some rounded |} /\
    Warp.skeleton_of rounded
    = Warp.Node [Warp.Leaf; Warp.Leaf] /\
    rounded_componentwise 2
      (Warp.Seq [Warp.Num (Warp.PyFloat (Warp.decimal_literal 125 3));
                 Warp.Num (Warp.PyFloat (Warp.decimal_literal (-2675) 3))])
      rounded.
Proof.
  apply (transform_geom_rounds (same_crs_ogr point) "EPSG:4326"
           "EPSG:4326" point false "10.0" 2 [] 1 1 3 3 point
           (Warp.Seq
              [Warp.Num (Warp.PyFloat (Warp.decimal_literal 125 3));
               Warp.Num (Warp.PyFloat (Warp.decimal_literal (-2675) 3))]));
    (reflexivity || (vm_compute; congruence)).
Defined.

(** The point [(0.125, -2.675)] with precision 2 becomes
    [(0.12, -2.67)]: the tie [0.125] goes to the even digit, and the
    double written [2.675] lies below the tie. *)
Lemma transform_geom_sample :
  (Warp._transform_geom Warp.float_round (same_crs_ogr point) "EPSG:4326"
     "EPSG:4326" point false "10.0" 2 []).1
  = Return
      {| Warp.geom_type := "Point";
         Warp.coordinates :=
           Some (Warp.Seq
                   [Warp.Num (Warp.PyFloat (Warp.decimal_literal 12 2));
                    Warp.Num (Warp.PyFloat
                                (Warp.decimal_literal (-267) 2))]) |}.
Proof. vm_compute. reflexivity. Qed.

(** The spec's example: the point at the origin with precision 2 comes
    back as it is. *)
Lemma transform_geom_origin :
  (Warp._transform_geom Warp.float_round (same_crs_ogr origin) "EPSG:4326"
     "EPSG:4326" origin false "10.0" 2 []).1
  = Return origin.
Proof. vm_compute. reflexivity. Qed.

Lemma recursive_round_structure_idempotent_witness :
  exists rounded,
    Warp.recursive_round Warp.float_round nested 2 = Return rounded /\
    Warp.skeleton_of rounded = Warp.skeleton_of nested /\
    Warp.recursive_round Warp.float_round rounded 2 = Return rounded.
Proof.
  apply (recursive_round_structure_idempotent nested 2);
    [lia | vm_compute; reflexivity].
Defined.

(** [[[1.005, 3, -0.0, inf], []]] with precision 2 becomes
    [[[1.0, 3, -0.0, inf], []]]: the double written [1.005] lies below
    the tie. *)
Lemma recursive_round_sample :
  Warp.recursive_round Warp.float_round nested 2
  = Return
      (Warp.Seq
         [Warp.Seq [Warp.Num (Warp.PyFloat (Warp.decimal_literal 1 0));
                    Warp.Num (Warp.PyInt 3);
                    Warp.Num (Warp.PyFloat (Warp.Finite true 0%Q));
                    Warp.Num (Warp.PyFloat (Warp.Infinite false))];
          Warp.Seq []]).
Proof. vm_compute. reflexivity. Qed.

End RoundingSampleFacts.

(** * Further properties *)

(** ** [_reproject] *)

Section MoreReprojectFacts.
Import Warp.
Variable g : gdal.

(** X9: the warp runs through the parallel entry point only when more
    than one thread is asked for, through the sequential one otherwise,
    and always on a window that starts at the origin. *)
Theorem reproject_entry_point (a : arguments) :
  emits_only (entry_point_for (num_threads a)) (_reproject g a).
Proof.
  unfold _reproject, prepare, open_source, open_destination,
    create_transformer, apply_nodata, run_warp, release_all, close_if_array.
  repeat first
    [ apply get_mem_driver_emits
    | match goal with
      | |- emits_only _ (if 1 <? ?n then _ else _) =>
          destruct (Z.ltb_spec 1 n)
      end
    | trace_step
    | exact I
    | (cbn; repeat split; lia) ].
Qed.

(** X10: with a source transform given, the ground control points are
    never handed to the native layer. *)
Theorem transform_precedes_gcps (a : arguments) (x : Q) (xs : list Q) :
  src_transform a = Some (x :: xs) ->
  emits_only sets_no_gcps (_reproject g a).
Proof.
  intros H.
  unfold _reproject, prepare, open_source, open_destination,
    create_transformer, apply_nodata, run_warp, release_all, close_if_array.
  rewrite H.
  repeat first [apply get_mem_driver_emits | trace_step | exact I].
Qed.

Lemma prepare_keeps_bands (a : arguments) (b b' : Band) :
  source a = BandOf b -> destination a = BandOf b' ->
  returns (prepare g a) (fun l =>
    l_source l = BandOf b /\ l_destination l = BandOf b').
Proof.
  intros Hs Hd t l t' E.
  unfold prepare, open_source, open_destination in E.
  rewrite Hs, Hd in E. unfold_monad.
  destruct (create_transformer g a _ _ t) as [[[[h opts] ps]|e] t1];
    [|discriminate].
  injection E as <- _. by cbn.
Qed.

(** X11: when both sides are bands of existing datasets, the call
    creates no dataset, copies nothing in or out, sets no
    georeferencing and closes nothing. *)
Theorem band_to_band_leaves_datasets (a : arguments) (b b' : Band) :
  source a = BandOf b -> destination a = BandOf b' ->
  emits_only leaves_datasets_alone (_reproject g a).
Proof.
  intros Hs Hd. unfold _reproject.
  eapply emits_only_bind_with;
    [|apply (prepare_keeps_bands a b b' Hs Hd)|].
  - unfold prepare, open_source, open_destination, create_transformer,
      release_all.
    rewrite Hs, Hd.
    repeat first [trace_step | exact I].
  - intros l [Hls Hld].
    unfold apply_nodata, run_warp, release_all, close_if_array.
    rewrite Hls, Hld.
    repeat first [trace_step | exact I].
Qed.

End MoreReprojectFacts.

Section WarperOptions.
Import Warp.
Variable g : gdal.

Lemma for_range_length {S A} (f : nat -> M S A) (n : nat) :
  forall start, returns (for_range f start n) (fun l => length l = n).
Proof.
  induction n as [|n IH]; intros start; cbn [for_range].
  - by apply returns_ret.
  - apply returns_bind. intros x.
    eapply returns_bind_with; [apply IH|].
    intros xs Hxs. apply returns_ret. cbn. by rewrite Hxs.
Qed.

Lemma prepare_returns_options (a : arguments) :
  returns (prepare g a) (fun l =>
    psWOptions l
    = set_eResampleAlg (resampling a)
        (new_warp_options (default_warp_options g))).
Proof.
  unfold prepare.
  apply returns_bind. intros [[[[src n] bidx] hds] nod].
  apply returns_bind. intros [[[dst dbidx] dhds] dnod].
  eapply returns_bind_with; [apply create_transformer_returns|].
  intros [[h opts] ps] (_ & _ & Hp). cbn [fst snd] in Hp. subst ps.
  by apply returns_ret.
Qed.

Lemma apply_nodata_returns (a : arguments) (l : locals) :
  padfSrcNoDataReal (psWOptions l) = None ->
  padfSrcNoDataImag (psWOptions l) = None ->
  returns (apply_nodata g a l) (nodata_applied l).
Proof.
  intros Hre Him t r t' E.
  unfold apply_nodata, release_all, emit in E. unfold_monad.
  unfold nodata_applied.
  destruct (resolve_nodata _ _) as [[[v|] d]|e]; [| |discriminate].
  - destruct (in_dtype_range g v _); cbn [negb] in E; [|discriminate].
    destruct (in_dtype_range g d _); cbn [negb] in E; [|discriminate].
    injection E as <- _.
    cbn [fst snd set_padfDstNoData set_padfSrcNoData eResampleAlg
         padfDstNoDataImag padfDstNoDataReal padfSrcNoDataReal
         padfSrcNoDataImag].
    repeat split; eauto. rewrite fetch_after_set. reflexivity.
  - destruct (in_dtype_range g d _); cbn [negb] in E; [|discriminate].
    injection E as <- _.
    cbn [fst snd set_padfDstNoData eResampleAlg padfDstNoDataImag
         padfDstNoDataReal padfSrcNoDataReal padfSrcNoDataImag].
    rewrite Hre. repeat split; eauto.
Qed.

Lemma run_warp_options (a : arguments) (l : locals)
    (ps : GDALWarpOptions) (extras : csl) :
  hTransformArg l
  = ApproxTransformer
      (GenImgProjTransformer (src_dataset l) (dst_dataset l)
                             (copy_kwargs (kwargs a) []))
      tolerance true ->
  eResampleAlg (psWOptions l) = resampling a ->
  nodata_applied l (ps, extras) ->
  emits_only (initialized_as (warper_options_ok a))
             (run_warp g a l ps extras).
Proof.
  intros Hh Hr (He & Hdi & Hdr & Hsrc). cbn [fst snd] in *.
  unfold run_warp.
  eapply emits_only_bind_with;
    [|apply (for_range_length _ (Z.to_nat (src_count l)) 0%nat)|].
  { repeat trace_step. }
  intros bands Hlen. unfold release_all, close_if_array.
  assert (Hok : warper_options_ok a
            (set_warp_fields
               (if init_dest_nodata a
                then CSLSetNameValue extras "INIT_DEST" "NO_DATA"
                else extras)
               (hTransformArg l) (src_dataset l) (dst_dataset l)
               (src_count l) bands ps)).
  { unfold warper_options_ok.
    cbn [set_warp_fields eResampleAlg pfnTransformer pTransformerArg
         hSrcDS hDstDS nBandCount panSrcBands panDstBands padfDstNoDataImag
         padfDstNoDataReal padfSrcNoDataReal padfSrcNoDataImag
         papszWarpOptions].
    rewrite !length_fmap, Hlen.
    repeat split; try done; try congruence.
    - destruct (padfSrcNoDataReal ps) as [re|]; [|exact Hsrc].
      destruct Hsrc as (Hs1 & Hs2 & Hs3). repeat split; try done.
      destruct (init_dest_nodata a); [|exact Hs3].
      rewrite fetch_after_set. exact Hs3.
    - intros ->. rewrite fetch_after_set. reflexivity. }
  repeat first [trace_step | exact I | exact Hok].
Qed.

(** X12: every options structure handed to the warper holds the
    requested resampling algorithm, the approximate transformer of
    tolerance 0.125 around the exact transformer between its own two
    datasets, band maps as long as its band count, destination nodata
    with zero imaginary parts, source nodata arrays only together with
    [UNIFIED_SRC_NODATA=YES], and [INIT_DEST=NO_DATA] whenever
    [init_dest_nodata] is set, whatever the keywords say. *)
Theorem warper_options_consistent (a : arguments) :
  emits_only (initialized_as (warper_options_ok a)) (_reproject g a).
Proof.
  unfold _reproject.
  apply emits_only_bind_with with (Q := fun l =>
    hTransformArg l
    = ApproxTransformer
        (GenImgProjTransformer (src_dataset l) (dst_dataset l)
                               (copy_kwargs (kwargs a) []))
        tolerance true /\
    psWOptions l
    = set_eResampleAlg (resampling a)
        (new_warp_options (default_warp_options g))).
  - unfold prepare, open_source, open_destination, create_transformer,
      release_all.
    repeat first [apply get_mem_driver_emits | trace_step | exact I].
  - intros t l t' E. split.
    + exact (proj2 (proj2 (proj2 (proj2 (prepare_returns g a t l t' E))))).
    + exact (prepare_returns_options a t l t' E).
  - intros l [Hh Hps].
    eapply emits_only_bind_with.
    + apply apply_nodata_emits.
    + apply apply_nodata_returns; rewrite Hps; reflexivity.
    + intros [ps extras] Hnd. apply run_warp_options; [exact Hh| |exact Hnd].
      rewrite Hps. reflexivity.
Qed.

End WarperOptions.

Section Cleanup.
Import Warp.
Variable g : gdal.








End Cleanup.

Section MoreDestinationFacts.
Import Warp.
Variable g : gdal.

(** X24: a destination array whose number of bands differs from the
    source's is rejected before anything is done for the destination;
    the trace is left as the source side made it, so a temporary source
    dataset created for the call is not closed. *)
Theorem band_count_mismatch_rejected (a : arguments) (t t0 : list event)
    (source : raster) (count : Z) (sbidx : list Z) (shds : Z)
    (snodata : option Z) (dst : ndarray) (n : Z) :
  open_source g a t = (Return (source, count, sbidx, shds, snodata), t0) ->
  destination a = Array dst ->
  shape (if (length (shape dst) =? 2)%nat then reshape1 dst else dst)
    !! 0%nat = Some n ->
  n <> count ->
  _reproject g a t
  = (Raise (ValueError "Destination's shape is invalid"), t0).
Proof.
  intros Hsrc Hdst Hn Hne.
  unfold _reproject, prepare. rewrite bind_run.
  rewrite (bind_returns _ _ _ _ _ Hsrc). cbv beta iota.
  assert (Hd : open_destination g a count sbidx t0
               = (Raise (ValueError "Destination's shape is invalid"), t0)).
  { unfold open_destination. rewrite Hdst. unfold item. unfold_monad.
    rewrite Hn. apply Z.eqb_neq in Hne. by rewrite Hne. }
  by rewrite (bind_raises _ _ _ _ _ Hd).
Qed.

(** X25: when the projection cannot be set on the temporary destination
    dataset, the call raises a [TypeError], not an error that carries
    the message written at that place: the statement raises a string. *)
Theorem projection_failure_is_type_error (a : arguments)
    (t t0 : list event) (source : raster) (sbidx : list Z) (shds : Z)
    (snodata : option Z) (dst : ndarray) (count rows cols hds : Z)
    (gt : list Q) (osr : Z) :
  open_source g a t = (Return (source, count, sbidx, shds, snodata), t0) ->
  destination a = Array dst ->
  shape dst = [count; rows; cols] ->
  GetDriverByName_MEM g TempDestination = None ->
  GDALCreate g TempDestination cols rows count (dtype_rev g (dtype_of dst))
  = (hds, None) ->
  dst_transform a = Some gt -> (6 <= length gt)%nat ->
  GDALSetGeoTransform g hds (take 6 gt) = 0 ->
  osr_from_crs g (dst_crs a) = Return osr ->
  GDALSetProjection g hds (OSRExportToWkt g osr) <> 0 ->
  exists msg, (_reproject g a t).1 = Raise (TypeError msg).
Proof.
  intros Hsrc Hdst Hshape Hdrv Hcreate Hgt Hlen Hset Hosr Hproj.
  unfold _reproject, prepare. rewrite bind_run.
  rewrite (bind_returns _ _ _ _ _ Hsrc). cbv beta iota.
  eexists.
  assert (Hfor : forall s : list event,
            for_range (index gt) 0 6 s = (Return (take 6 gt), s)).
  { intros s. do 6 (destruct gt as [|? gt]; [cbn in Hlen; lia|]).
    reflexivity. }
  assert (Hd : exists t1,
            open_destination g a count sbidx t0
            = (Raise (TypeError "exceptions must derive from BaseException"),
               t1)).
  { unfold open_destination, get_mem_driver.
    rewrite Hdst, Hshape, Hdrv. cbn [length Nat.eqb].
    unfold item. unfold_monad. rewrite !Hshape. cbn [lookup list_lookup].
    rewrite Z.eqb_refl. cbn [negb]. rewrite Hcreate, Hgt.
    unfold emit, modify, ret. cbv beta iota. rewrite Hfor. cbv beta iota.
    rewrite Hset, Hosr. cbn [Z.eqb negb]. cbv beta iota.
    apply Z.eqb_neq in Hproj. rewrite Hproj. cbn [negb]. eauto. }
  destruct Hd as [t1 Hd].
  by rewrite (bind_raises _ _ _ _ _ Hd).
Qed.

End MoreDestinationFacts.

Section MoreOptionLists.
Import Warp.
Variable g : gdal.

Lemma copy_kwargs_app (kw kw' : list (string * pyvalue)) (l : csl) :
  copy_kwargs (kw ++ kw') l = copy_kwargs kw' (copy_kwargs kw l).
Proof. unfold copy_kwargs. apply fold_left_app. Qed.

Lemma copy_kwargs_keeps (key : string) (kw : list (string * pyvalue)) :
  (forall k v, In (k, v) kw -> upper k <> upper key) ->
  forall l, CSLFetchNameValue (copy_kwargs kw l) key
            = CSLFetchNameValue l key.
Proof.
  unfold copy_kwargs.
  induction kw as [|[k v] kw IH]; intros Hkw l; [reflexivity|].
  cbn [fold_left fst snd]. rewrite IH.
  - rewrite fetch_after_set, upper_idempotent.
    destruct (String.eqb (upper k) (upper key)) eqn:E; [|reflexivity].
    apply String.eqb_eq in E. exfalso. apply (Hkw k v); [by left|exact E].
  - intros k' v' Hin. apply (Hkw k' v'). by right.
Qed.

Lemma prepare_trace (a : arguments) (t t0 t1 : list event)
    (source : raster) (count : Z) (sbidx dbidx : list Z)
    (shds dhds : Z) (snodata dnodata : option Z) (destination : raster) :
  open_source g a t = (Return (source, count, sbidx, shds, snodata), t0) ->
  open_destination g a count sbidx t0
  = (Return (destination, dbidx, dhds, dnodata), t1) ->
  exists evs,
    (prepare g a t).2
    = t1 ++ CreateGenImgProjTransformer2 shds dhds
              (copy_kwargs (kwargs a) []) :: evs.
Proof.
  intros Hsrc Hdst. unfold prepare.
  rewrite (bind_returns _ _ _ _ _ Hsrc). cbv beta iota.
  rewrite (bind_returns _ _ _ _ _ Hdst). cbv beta iota.
  assert (Hc : exists evs,
            (create_transformer g a shds dhds t1).2
            = t1 ++ CreateGenImgProjTransformer2 shds dhds
                      (copy_kwargs (kwargs a) []) :: evs).
  { unfold create_transformer, release_all, emit. unfold_monad.
    unfold ret, raise.
    destruct (transformer_report g shds dhds _) as [[cls msg]|];
      [|destruct (warp_options_report g) as [[cls msg]|]];
      cbn [fst snd]; rewrite <- !app_assoc; eexists; reflexivity. }
  destruct Hc as [evs Hc].
  destruct (create_transformer g a shds dhds t1)
    as [[[[h opts] ps]|e] t2] eqn:Ec; cbn [snd] in Hc; subst t2.
  - rewrite (bind_returns _ _ _ _ _ Ec). by exists evs.
  - rewrite (bind_raises _ _ _ _ _ Ec). by exists evs.
Qed.

(** X14: once both sides are resolved, the exact transformer is
    constructed, and a keyword argument whose name and value are ASCII
    text reaches that construction with both in upper case, provided no
    later keyword has the same name up to letter case. *)
Theorem keywords_reach_transformer (a : arguments) (t t0 t1 : list event)
    (source : raster) (count : Z) (sbidx dbidx : list Z)
    (shds dhds : Z) (snodata dnodata : option Z) (destination : raster)
    (pre post : list (string * pyvalue)) (k : string) (v : pyvalue) :
  open_source g a t = (Return (source, count, sbidx, shds, snodata), t0) ->
  open_destination g a count sbidx t0
  = (Return (destination, dbidx, dhds, dnodata), t1) ->
  kwargs a = pre ++ (k, v) :: post ->
  ascii_text k = true -> ascii_text (str v) = true ->
  (forall k' v', In (k', v') post -> upper k' <> upper k) ->
  exists options,
    In (CreateGenImgProjTransformer2 shds dhds options)
       (_reproject g a t).2 /\
    CSLFetchNameValue options k = Some (upper (str v)).
Proof.
  intros Hsrc Hdst Hkw _ _ Hpost.
  exists (copy_kwargs (kwargs a) []). split.
  - destruct (prepare_trace a t t0 t1 _ _ _ _ _ _ _ _ _ Hsrc Hdst)
      as [evs Hp].
    destruct (prepare g a t) as [[l|e] tp] eqn:Ep; cbn [snd] in Hp; subst tp.
    + rewrite (reproject_after_prepare g a _ _ _ Ep).
      assert (Hrest : emits_only (initialized_as (fun _ => True))
                (apply_nodata g a l ≫= fun r => run_warp g a l r.1 r.2)).
      { apply emits_only_bind; [apply apply_nodata_emits|].
        intros r. by apply run_warp_emits. }
      destruct (Hrest (t1 ++ CreateGenImgProjTransformer2 shds dhds
                               (copy_kwargs (kwargs a) []) :: evs))
        as (evs' & -> & _).
      rewrite !in_app_iff. left. right. by left.
    + unfold _reproject. rewrite (bind_raises _ _ _ _ _ Ep). cbn [snd].
      rewrite in_app_iff. right. by left.
  - rewrite Hkw, copy_kwargs_app.
    change (copy_kwargs ((k, v) :: post) ?l)
      with (copy_kwargs post
              (CSLSetNameValue l (upper k) (upper (str v)))).
    rewrite (copy_kwargs_keeps k post Hpost), fetch_after_set.
    by rewrite upper_idempotent, String.eqb_refl.
Qed.

(** X15: when the in-memory driver cannot be looked up for an array
    source, the call fails with [DriverRegistrationError], whatever the
    native error was, before any dataset is created. *)
Theorem missing_driver_stops_source (a : arguments) (src : ndarray)
    (t : list event) (cls : cple_class) (msg : string) :
  source a = Array src ->
  (2 <= length (shape src))%nat ->
  GetDriverByName_MEM g TempSource = Some (cls, msg) ->
  _reproject g a t = (Raise (DriverRegistrationError mem_driver_message), t).
Proof.
  intros Hsrc Hlen Hdrv.
  unfold _reproject, prepare, open_source, get_mem_driver.
  rewrite Hsrc, Hdrv.
  destruct (shape src) as [|r [|c [|z rest]]] eqn:Es; cbn in Hlen; try lia;
    cbn [length Nat.eqb]; unfold reshape1; rewrite ?Es;
    reflexivity.
Qed.

End MoreOptionLists.

(** ** [recursive_round] and [_transform_geom] *)

Section MoreRoundingFacts.
Import Warp.
Context {float : Type}.
Variable round_float : float -> Z -> outcome float.

(** X16: with a non-negative precision, coordinates that hold integers
    only come back unchanged. *)
Theorem recursive_round_keeps_integers (val : coord float) (p : Z) :
  0 <= p -> floats_of val = [] ->
  recursive_round round_float val p = Return val.
Proof.
  intros Hp. induction val as [[z|x]|parts IH] using coord_ind; intros Hf.
  - cbn. unfold round_int. apply Z.leb_le in Hp. by rewrite Hp.
  - discriminate.
  - cbn [recursive_round].
    assert (Hparts :
      in_order (map (fun part => recursive_round round_float part p) parts)
      = Return parts); [|by rewrite Hparts].
    cbn [floats_of] in Hf.
    induction IH as [|part parts Hpart _ IHparts]; [reflexivity|].
    cbn in Hf. apply app_eq_nil in Hf as [Hf1 Hf2].
    cbn. by rewrite (Hpart Hf1), (IHparts Hf2).
Qed.

Variable o : ogr (float:=float).

(** X17: with a negative precision the geometry comes back as the
    geometry builder made it, with no rounding. *)
Theorem transform_geom_unrounded (src_crs dst_crs : string)
    (geom : geometry float) (antimeridian_cutting : bool)
    (antimeridian_offset : string) (precision : Z) (t : list event)
    (src dst src_geom dst_geom : Z) (result : geometry float) :
  precision < 0 ->
  ogr_osr_from_crs o src_crs = Return src ->
  ogr_osr_from_crs o dst_crs = Return dst ->
  OGRGeomBuilder_build o geom = Return src_geom ->
  (let options :=
     CSLSetNameValue [] "DATELINEOFFSET" antimeridian_offset in
   let options :=
     if antimeridian_cutting
     then CSLSetNameValue options "WRAPDATELINE" "YES"
     else options in
   transformWithOptions o src_geom
     (OCTNewCoordinateTransformation o src dst) options
   = (dst_geom, None)) ->
  GeomBuilder_build o dst_geom = Return result ->
  (_transform_geom round_float o src_crs dst_crs geom
     antimeridian_cutting antimeridian_offset precision t).1
  = Return result.
Proof.
  intros Hp Hsrc Hdst Hbuild Htr Hres.
  unfold _transform_geom. unfold_monad. unfold emit, modify.
  rewrite Hsrc, Hdst, Hbuild, Htr, Hres.
  apply Z.leb_gt in Hp. rewrite Hp. reflexivity.
Qed.

(** X18: once both reference systems are resolved, every native
    resource of the call is released, in the same order, whether the
    geometry could be built, transformed and rounded or not. *)
Theorem transform_geom_releases (src_crs dst_crs : string)
    (geom : geometry float) (antimeridian_cutting : bool)
    (antimeridian_offset : string) (precision : Z) (t : list event)
    (src dst : Z) :
  ogr_osr_from_crs o src_crs = Return src ->
  ogr_osr_from_crs o dst_crs = Return dst ->
  (_transform_geom round_float o src_crs dst_crs geom
     antimeridian_cutting antimeridian_offset precision t).2
  = t ++ geometry_releases.
Proof.
  intros Hsrc Hdst.
  unfold _transform_geom. unfold_monad. unfold emit, modify.
  rewrite Hsrc, Hdst.
  destruct (OGRGeomBuilder_build o geom) as [src_geom|e];
    [|cbn; by rewrite <- !List.app_assoc].
  destruct (transformWithOptions o src_geom _ _) as [dst_geom [[cls msg]|]];
    cbn; [by rewrite <- !List.app_assoc|].
  destruct (GeomBuilder_build o dst_geom) as [result|e];
    [|cbn; by rewrite <- !List.app_assoc].
  destruct (0 <=? precision);
    [destruct (coordinates result) as [c|];
       [destruct (recursive_round round_float c precision)|]|];
    cbn; by rewrite <- !List.app_assoc.
Qed.

End MoreRoundingFacts.

(** ** [_calculate_default_transform] *)

Section MoreDefaultTransformFacts.
Import Warp.
Variable sg : suggester.

(** X19: when some of the four bounds are given and some are not, the
    call fails with [ValueError] before it touches anything. *)
Theorem partial_bounds_rejected (src_crs dst_crs : string)
    (width height : Z) (left bottom right top : option Q)
    (gcps : list gcp) (fr : frame) :
  (0 < given left + given bottom + given right + given top < 4)%nat ->
  _calculate_default_transform sg src_crs dst_crs width height
    left bottom right top gcps fr
  = (Raise (ValueError
       "Some, but not all, bounding box parameters were provided."), fr).
Proof.
  intros Hn. unfold _calculate_default_transform.
  destruct left, bottom, right, top; cbn in Hn; try lia; reflexivity.
Qed.

(** X20: once the scratch raster is entered, every path releases, after
    the spatial reference, the exported text, the transformer if one was
    made, and the scratch raster, in this order; the only other event is
    at most one debug message. *)
Theorem default_transform_releases (src_crs dst_crs : string)
    (width height : Z) (left bottom right top : option Q)
    (gcps : list gcp) (t : list event) (transform : option (list Q))
    (osr temp : Z) :
  seed_transform sg width height left bottom right top
  = Return transform ->
  0 <= height -> 0 <= width ->
  sg_osr_from_crs sg dst_crs = Return osr ->
  InMemoryRaster sg width height transform gcps src_crs = Return temp ->
  let h := (GDALCreateGenImgProjTransformer sg temp
              (sg_OSRExportToWkt sg osr)).1 in
  exists logs,
    fr_trace (_calculate_default_transform sg src_crs dst_crs width height
                left bottom right top gcps (new_frame t)).2
    = t ++ [Release "osr"] ++ logs ++ [Release "wkt"]
        ++ (if h =? 0 then [] else [Release "hTransformArg"])
        ++ [Release "InMemoryRaster"] /\
    (length logs <= 1)%nat /\
    Forall (fun e => exists m, e = LogDebug m) logs.
Proof.
  intros Hseed Hh Hw Hosr Hmem h. subst h.
  unfold _calculate_default_transform. unfold_monad.
  rewrite Hseed, Hosr, Hmem.
  replace ((height <? 0) || (width <? 0)) with false
    by (symmetry; apply orb_false_iff; split; apply Z.ltb_ge; lia).
  unfold set_hTransformArg, set_outputs, note, modify, ret, raise.
  cbn [new_frame].
  assert (Hone : forall e : event, (length [e] <= 1)%nat) by (cbn; lia).
  assert (Hnil : (length (@nil event) <= 1)%nat) by (cbn; lia).
  destruct (GDALCreateGenImgProjTransformer sg temp _)
    as [h [[cls msg]|]]; cbn -[Z.eqb contains].
  - destruct cls; [destruct (contains "Reprojection failed" msg)|..];
      cbn -[Z.eqb]; destruct (h =? 0); cbn;
      first [ exists []; split; [by rewrite <- ?List.app_assoc|];
              split; [exact Hnil|constructor]
            | eexists [_]; split; [by rewrite <- ?List.app_assoc|];
              split; [apply Hone|repeat constructor; eauto] ].
  - destruct (GDALSuggestedWarpOutput2 sg temp h)
      as [[[gt np] nl] [[cls msg]|]]; cbn -[Z.eqb contains];
      [destruct cls; [destruct (contains "Reprojection failed" msg)|..]|];
      cbn -[Z.eqb]; destruct (h =? 0); cbn;
      first [ exists []; split; [by rewrite <- ?List.app_assoc|];
              split; [exact Hnil|constructor]
            | eexists [_]; split; [by rewrite <- ?List.app_assoc|];
              split; [apply Hone|repeat constructor; eauto] ].
Qed.

(** X21: an unsupported-operation error of either native call is raised
    as [CRSError] with the same message. *)
Theorem not_supported_is_crs_error (src_crs dst_crs : string)
    (width height : Z) (left bottom right top : option Q)
    (gcps : list gcp) (t : list event) (transform : option (list Q))
    (osr temp : Z) (errmsg : string) :
  seed_transform sg width height left bottom right top
  = Return transform ->
  0 <= height -> 0 <= width ->
  sg_osr_from_crs sg dst_crs = Return osr ->
  InMemoryRaster sg width height transform gcps src_crs = Return temp ->
  let created := GDALCreateGenImgProjTransformer sg temp
                   (sg_OSRExportToWkt sg osr) in
  created.2 = Some (NotSupported, errmsg) \/
  created.2 = None /\
  (GDALSuggestedWarpOutput2 sg temp created.1).2
  = Some (NotSupported, errmsg) ->
  (_calculate_default_transform sg src_crs dst_crs width height
     left bottom right top gcps (new_frame t)).1
  = Raise (CRSError errmsg).
Proof.
  intros Hseed Hh Hw Hosr Hmem created Hrep. subst created.
  unfold _calculate_default_transform. unfold_monad.
  rewrite Hseed, Hosr, Hmem.
  replace ((height <? 0) || (width <? 0)) with false
    by (symmetry; apply orb_false_iff; split; apply Z.ltb_ge; lia).
  unfold set_hTransformArg, set_outputs, note, modify, ret, raise.
  cbn [new_frame].
  destruct (GDALCreateGenImgProjTransformer sg temp _) as [h rep].
  cbn [fst snd] in Hrep.
  destruct Hrep as [->|[-> Hrep]]; cbn -[Z.eqb].
  - by destruct (h =? 0).
  - destruct (GDALSuggestedWarpOutput2 sg temp h) as [[[gt np] nl] rep].
    cbn [snd] in Hrep. subst rep. cbn -[Z.eqb]. by destruct (h =? 0).
Qed.

(** X22: a suppressed reprojection failure while the transformer is
    made leaves the outputs as they were initialised: the call returns
    the all-zero transform and a size of 0 by 0, and never asks for the
    suggested output. *)
Theorem failure_at_creation_returns_zeros (src_crs dst_crs : string)
    (width height : Z) (left bottom right top : option Q)
    (gcps : list gcp) (t : list event) (transform : option (list Q))
    (osr temp h : Z) (errmsg : string) :
  seed_transform sg width height left bottom right top
  = Return transform ->
  0 <= height -> 0 <= width ->
  sg_osr_from_crs sg dst_crs = Return osr ->
  InMemoryRaster sg width height transform gcps src_crs = Return temp ->
  GDALCreateGenImgProjTransformer sg temp (sg_OSRExportToWkt sg osr)
  = (h, Some (AppDefined, errmsg)) ->
  contains "Reprojection failed" errmsg = true ->
  (_calculate_default_transform sg src_crs dst_crs width height
     left bottom right top gcps (new_frame t)).1
  = Return (Affine_from_gdal (0, 0, 0, 0, 0, 0)%Q, 0, 0).
Proof.
  intros Hseed Hh Hw Hosr Hmem Hcreate Hc.
  unfold _calculate_default_transform. unfold_monad.
  rewrite Hseed, Hosr, Hmem, Hcreate.
  replace ((height <? 0) || (width <? 0)) with false
    by (symmetry; apply orb_false_iff; split; apply Z.ltb_ge; lia).
  unfold set_hTransformArg, set_outputs, note, modify, ret, raise.
  cbn [new_frame]. cbn -[Z.eqb contains]. rewrite Hc.
  cbn -[Z.eqb]. by destruct (h =? 0).
Qed.

(** X23: a failure on entering the scratch raster ends the call with
    that exception when only the spatial reference has been released:
    the text exported for the destination reference system is not
    freed. *)
Theorem scratch_failure_leaks_wkt (src_crs dst_crs : string)
    (width height : Z) (left bottom right top : option Q)
    (gcps : list gcp) (fr : frame) (transform : option (list Q))
    (osr : Z) (e : exn) :
  seed_transform sg width height left bottom right top
  = Return transform ->
  0 <= height -> 0 <= width ->
  sg_osr_from_crs sg dst_crs = Return osr ->
  InMemoryRaster sg width height transform gcps src_crs = Raise e ->
  let run := _calculate_default_transform sg src_crs dst_crs width height
               left bottom right top gcps fr in
  run.1 = Raise e /\
  fr_trace run.2 = fr_trace fr ++ [Release "osr"].
Proof.
  intros Hseed Hh Hw Hosr Hmem run. subst run.
  unfold _calculate_default_transform. unfold_monad.
  rewrite Hseed, Hosr.
  replace ((height <? 0) || (width <? 0)) with false
    by (symmetry; apply orb_false_iff; split; apply Z.ltb_ge; lia).
  unfold note, modify. cbn [fst snd]. rewrite Hmem. by split.
Qed.

End MoreDefaultTransformFacts.

(** ** The further properties at sample inputs *)

Section MoreSampleFacts.
Import Samples MoreSamples.

Lemma transform_precedes_gcps_witness :
  emits_only sets_no_gcps (Warp._reproject quiet_gdal keyword_call).
Proof.
  apply (transform_precedes_gcps quiet_gdal keyword_call 0%Q
           [1; 0; 0; 0; -1]%Q).
  reflexivity.
Defined.

Lemma band_to_band_leaves_datasets_witness :
  emits_only leaves_datasets_alone (Warp._reproject quiet_gdal band_call).
Proof.
  apply (band_to_band_leaves_datasets quiet_gdal band_call
           (stored_band 11) (stored_band 12));
    reflexivity.
Defined.


Lemma keywords_reach_transformer_witness :
  let opened := Warp.open_source quiet_gdal keyword_call [] in
  let resolved :=
    Warp.open_destination quiet_gdal keyword_call 1 [1] opened.2 in
  exists options,
    In (Warp.CreateGenImgProjTransformer2 101 102 options)
       (Warp._reproject quiet_gdal keyword_call []).2 /\
    Warp.CSLFetchNameValue options "max_gcp_order" = Some "2".
Proof.
  intros opened resolved.
  apply (keywords_reach_transformer quiet_gdal keyword_call [] opened.2
           resolved.2 (Warp.Array (band_4x4 None)) 1 [1] [1] 101 102
           None None (Warp.Array (band_4x4 None)) [] []
           "max_gcp_order" (Warp.PInt 2));
    [reflexivity.. | intros k' v' []].
Defined.
Lemma missing_driver_stops_source_witness :
  Warp._reproject driverless_gdal keyword_call []
  = (Raise (DriverRegistrationError Warp.mem_driver_message), []).
Proof.
  apply (missing_driver_stops_source driverless_gdal keyword_call
           (band_4x4 None) [] (OtherCPLE 1) "no driver");
    [reflexivity | cbn; lia | reflexivity].
Defined.

Lemma partial_bounds_rejected_witness :
  Warp._calculate_default_transform (partial_suggester suppressed_message)
    "EPSG:4326" "EPSG:3857" 10 10 (Some 0%Q) None None (Some 5%Q) []
    (Warp.new_frame [])
  = (Raise (ValueError
       "Some, but not all, bounding box parameters were provided."),
     Warp.new_frame []).
Proof.
  apply (partial_bounds_rejected (partial_suggester suppressed_message)
           "EPSG:4326" "EPSG:3857" 10 10 (Some 0%Q) None None (Some 5%Q)
           [] (Warp.new_frame [])).
  cbn. lia.
Defined.

Lemma default_transform_releases_witness :
  exists logs,
    Warp.fr_trace
      (Warp._calculate_default_transform
         (scripted_suggester (Return 201) (301, None) None)
         "EPSG:4326" "EPSG:3857" 10 10 None None None None []
         (Warp.new_frame [])).2
    = [] ++ [Warp.Release "osr"] ++ logs ++ [Warp.Release "wkt"]
         ++ [Warp.Release "hTransformArg"]
         ++ [Warp.Release "InMemoryRaster"] /\
    (length logs <= 1)%nat /\
    Forall (fun e => exists m, e = Warp.LogDebug m) logs.
Proof.
  apply (default_transform_releases
           (scripted_suggester (Return 201) (301, None) None)
           "EPSG:4326" "EPSG:3857" 10 10 None None None None [] [] None
           7 201);
    [reflexivity | lia | lia | reflexivity | reflexivity].
Defined.

Lemma not_supported_is_crs_error_witness :
  (Warp._calculate_default_transform
     (scripted_suggester (Return 201) (301, None)
        (Some (NotSupported, "No translation")))
     "EPSG:4326" "EPSG:3857" 10 10 None None None None []
     (Warp.new_frame [])).1
  = Raise (CRSError "No translation").
Proof.
  apply (not_supported_is_crs_error
           (scripted_suggester (Return 201) (301, None)
              (Some (NotSupported, "No translation")))
           "EPSG:4326" "EPSG:3857" 10 10 None None None None [] [] None
           7 201 "No translation");
    [reflexivity | lia | lia | reflexivity | reflexivity |].
  right. split; reflexivity.
Defined.

Lemma failure_at_creation_returns_zeros_witness :
  (Warp._calculate_default_transform
     (scripted_suggester (Return 201)
        (0, Some (AppDefined, suppressed_message)) None)
     "EPSG:4326" "EPSG:3857" 10 10 None None None None []
     (Warp.new_frame [])).1
  = Return (Warp.Affine_from_gdal (0, 0, 0, 0, 0, 0)%Q, 0, 0).
Proof.
  apply (failure_at_creation_returns_zeros
           (scripted_suggester (Return 201)
              (0, Some (AppDefined, suppressed_message)) None)
           "EPSG:4326" "EPSG:3857" 10 10 None None None None [] [] None
           7 201 0 suppressed_message);
    [reflexivity | lia | lia | reflexivity..].
Defined.

Lemma scratch_failure_leaks_wkt_witness :
  let run := Warp._calculate_default_transform
               (scripted_suggester
                  (Raise (CPLError (OtherCPLE 2) "Out of memory"))
                  (301, None) None)
               "EPSG:4326" "EPSG:3857" 10 10 None None None None []
               (Warp.new_frame []) in
  run.1 = Raise (CPLError (OtherCPLE 2) "Out of memory") /\
  Warp.fr_trace run.2 = [] ++ [Warp.Release "osr"].
Proof.
  apply (scratch_failure_leaks_wkt
           (scripted_suggester
              (Raise (CPLError (OtherCPLE 2) "Out of memory"))
              (301, None) None)
           "EPSG:4326" "EPSG:3857" 10 10 None None None None []
           (Warp.new_frame []) None 7);
    [reflexivity | lia | lia | reflexivity | reflexivity].
Defined.

Lemma band_count_mismatch_rejected_witness :
  Warp._reproject quiet_gdal mismatched_call []
  = (Raise (ValueError "Destination's shape is invalid"),
     (Warp.open_source quiet_gdal mismatched_call []).2).
Proof.
  apply (band_count_mismatch_rejected quiet_gdal mismatched_call []
           (Warp.open_source quiet_gdal mismatched_call []).2
           (Warp.Array (band_4x4 None)) 1 [1] 101 None two_bands_4x4 2);
    [reflexivity | reflexivity | reflexivity | lia].
Defined.

Lemma projection_failure_is_type_error_witness :
  exists msg,
    (Warp._reproject unprojectable_gdal keyword_call []).1
    = Raise (TypeError msg).
Proof.
  apply (projection_failure_is_type_error unprojectable_gdal keyword_call
           [] (Warp.open_source unprojectable_gdal keyword_call []).2
           (Warp.Array (band_4x4 None)) [1] 101 None (band_4x4 None)
           1 4 4 102 north_up 7);
    [reflexivity | reflexivity | reflexivity | reflexivity | reflexivity
    | reflexivity | cbn; lia | reflexivity | reflexivity | discriminate].
Defined.

End MoreSampleFacts.

Section MoreRoundingSampleFacts.
Import Samples MoreSamples.

Lemma recursive_round_keeps_integers_witness :
  Warp.recursive_round Warp.float_round integers 2 = Return integers.
Proof.
  apply (recursive_round_keeps_integers Warp.float_round integers 2);
    [lia | reflexivity].
Defined.

Lemma transform_geom_unrounded_witness :
  (Warp._transform_geom Warp.float_round (same_crs_ogr point) "EPSG:4326"
     "EPSG:4326" point false "10.0" (-1) []).1
  = Return point.
Proof.
  apply (transform_geom_unrounded Warp.float_round (same_crs_ogr point)
           "EPSG:4326" "EPSG:4326" point false "10.0" (-1) [] 1 1 3 3
           point);
    reflexivity.
Defined.

Lemma transform_geom_releases_witness :
  (Warp._transform_geom Warp.float_round (same_crs_ogr point) "EPSG:4326"
     "EPSG:4326" point true "10.0" 2 []).2
  = geometry_releases.
Proof.
  apply (transform_geom_releases Warp.float_round (same_crs_ogr point)
           "EPSG:4326" "EPSG:4326" point true "10.0" 2 [] 1 1);
    reflexivity.
Defined.

End MoreRoundingSampleFacts.
